(** * Source routing, validation and deduplication engine

    A shallow embedding of [src/core/intelligent_source_router.py] and
    [src/core/quality_assurance.py], and the properties of the engine
    established over it.

    Conventions of the embedding:
    - Python [float] values are exact rationals ([Q]); every constant of the
      source is a decimal, so sums and comparisons are the ones of the source
      up to rounding.  Two computed scores that are equal here, or closer
      than the rounding error of the floats, can compare either way in the
      program; the statements on the order of rank keys and of selection
      scores leave [rounding_slack] of room for that.
    - Python [str] values are [string]; the text handled here is ASCII.
    - Python [dict]s are [gmap]s where only lookups matter and association
      lists where the insertion order is observed.
    - A call that can raise returns an [outcome]; a method that mutates its
      object returns the new object next to its outcome. *)

From Stdlib Require Import QArith Qminmax Lqa ZArith Lia Ascii String.
From stdpp Require Import gmap strings list sorting pretty.

Open Scope Q_scope.
Open Scope string_scope.

(** ** Python runtime: exceptions, numbers, sorting, slicing *)

Inductive exn :=
| TypeError (msg : string)
| IndexError (msg : string)
| OverflowError (msg : string)
| ZeroDivisionError (msg : string).

Inductive outcome (A : Type) :=
| Returned (a : A)
| Raised (e : exn).
Arguments Returned {A} a.
Arguments Raised {A} e.

Definition raises {A} (o : outcome A) : bool :=
  match o with Returned _ => false | Raised _ => true end.

(** [max(a, b)] and [min(a, b)]: the first argument wins a tie. *)
Definition py_max (a b : Q) : Q := if Qlt_le_dec a b then b else a.
Definition py_min (a b : Q) : Q := if Qlt_le_dec b a then b else a.

(** [a >= b] and [a > b] on floats. *)
Definition Qgeb (a b : Q) : bool := Qle_bool b a.
Definition Qgtb (a b : Q) : bool := negb (Qle_bool a b).

Definition Qsum (l : list Q) : Q := foldl Qplus 0 l.

(** [a / b] for two [int]s.  The quotient is rounded to the nearest float;
    the largest float is [2^1024 - 2^971], so a quotient of absolute value
    [2^1024 - 2^970] or more has none and the division raises. *)
Definition float_limit : Z := (2 ^ 1024 - 2 ^ 970)%Z.
Arguments float_limit : simpl never.

Definition int_true_div (a b : Z) : outcome Q :=
  if (b =? 0)%Z then Raised (ZeroDivisionError "division by zero")
  else if (float_limit * Z.abs b <=? Z.abs a)%Z
  then Raised (OverflowError "integer division result too large for a float")
  else Returned (inject_Z a / inject_Z b).

(** [sorted(l, key=key)] is stable: an element goes in front of the first
    later element whose key is not smaller.  [reverse=True] keeps the
    original order of equal keys as well, so it is the same insertion with
    the order flipped. *)
Fixpoint sorted_insert {A K} (le : K -> K -> bool) (key : A -> K) (x : A)
    (l : list A) : list A :=
  match l with
  | [] => [x]
  | y :: ys =>
      if le (key x) (key y) then x :: y :: ys
      else y :: sorted_insert le key x ys
  end.

Definition py_sorted {A K} (le : K -> K -> bool) (key : A -> K)
    (l : list A) : list A :=
  foldr (sorted_insert le key) [] l.

(** [l[:n]] for an [int] n: a negative bound counts from the end. *)
Definition py_slice_to {A} (l : list A) (n : Z) : list A :=
  if (0 <=? n)%Z then take (Z.to_nat n) l
  else take (Z.to_nat (Z.of_nat (length l) + n)) l.

(** [deque(maxlen=n).append(x)]: the oldest entries fall off the left. *)
Definition deque_append {A} (maxlen : nat) (d : list A) (x : A) : list A :=
  drop (length d + 1 - maxlen) (d ++ [x]).

(** ** intelligent_source_router.py *)

Inductive SourceType := API | SCRAPER | WEB_SEARCH | HYBRID.

Inductive QueryType :=
| GENERAL_JOB_SEARCH
| COMPANY_SPECIFIC
| SKILL_BASED
| LOCATION_SPECIFIC
| EXPERIENCE_LEVEL
| REMOTE_WORK
| SALARY_RANGE
| RECENT_POSTINGS.

#[global] Instance QueryType_eq_dec : EqDecision QueryType.
Proof. solve_decision. Defined.

(** The dataclass [SourcePerformance]. *)
Record SourcePerformance := {
  source_id : string;
  source_type : SourceType;
  success_rate : Q;
  avg_response_time : Q;
  avg_jobs_found : Q;
  last_used : Q;
  failure_count : Z;
  total_requests : Z;
  is_available : bool;
  priority_score : Q
}.

(** Keyword arguments of a call [SourcePerformance(...)]: [None] for an
    argument the call does not pass. *)
Record SourcePerformance_kwargs := {
  kw_source_id : option string;
  kw_source_type : option SourceType;
  kw_success_rate : option Q;
  kw_avg_response_time : option Q;
  kw_avg_jobs_found : option Q;
  kw_last_used : option Q;
  kw_failure_count : option Z;
  kw_total_requests : option Z;
  kw_is_available : option bool;
  kw_priority_score : option Q
}.

(** The generated [__init__]: [source_id] and [source_type] have no default,
    the other fields default as the class body says. *)
Definition SourcePerformance_init (kw : SourcePerformance_kwargs)
    : outcome SourcePerformance :=
  match kw_source_id kw, kw_source_type kw with
  | None, _ =>
      Raised (TypeError "missing 1 required positional argument: 'source_id'")
  | Some _, None =>
      Raised (TypeError "missing 1 required positional argument: 'source_type'")
  | Some sid, Some ty =>
      Returned {|
        source_id := sid;
        source_type := ty;
        success_rate := default 0.0 (kw_success_rate kw);
        avg_response_time := default 0.0 (kw_avg_response_time kw);
        avg_jobs_found := default 0.0 (kw_avg_jobs_found kw);
        last_used := default 0.0 (kw_last_used kw);
        failure_count := default 0%Z (kw_failure_count kw);
        total_requests := default 0%Z (kw_total_requests kw);
        is_available := default true (kw_is_available kw);
        priority_score := default 0.0 (kw_priority_score kw)
      |}
  end.

Record QueryProfile := {
  query_type : QueryType;
  preferred_sources : list string;
  min_sources : Z;
  max_sources : Z;
  timeout : Q;
  expected_jobs : Z
}.

(** One entry of a source's history: the dict built by [record_request]. *)
Record RequestResult := {
  timestamp : Q;
  success : bool;
  response_time : Q;
  jobs_found : Z
}.

Record PerformanceTracker := {
  history_size : nat;
  performance_history : gmap string (list RequestResult);
  source_metrics : gmap string SourcePerformance
}.

Definition PerformanceTracker_init (history_size : nat) : PerformanceTracker :=
  {| history_size := history_size;
     performance_history := ∅;
     source_metrics := ∅ |}.

Module Tracker.

(** [self.performance_history[source_id]] on the [defaultdict]: a missing
    key is created with an empty deque. *)
Definition history_of (self : PerformanceTracker) (sid : string)
    : list RequestResult :=
  default [] (performance_history self !! sid).

Definition touch_history (self : PerformanceTracker) (sid : string)
    : PerformanceTracker :=
  {| history_size := history_size self;
     performance_history :=
       <[sid := history_of self sid]> (performance_history self);
     source_metrics := source_metrics self |}.

Definition _calculate_priority_score (success_rate response_time jobs_found : Q)
    : Q :=
  let normalized_success := success_rate in
  let normalized_speed := py_max 0 (1 - (response_time / 30.0)) in
  let normalized_yield := py_min 1 (jobs_found / 20.0) in
  normalized_success * 0.5 + normalized_speed * 0.3 + normalized_yield * 0.2.

Definition successful_requests (history : list RequestResult) : Z :=
  Z.of_nat (length (filter (fun r => success r = true) history)).

(** The arguments [_update_metrics] derives from a non-empty history and
    passes to [SourcePerformance(...)], once the division for
    [avg_jobs_found] has returned. *)
Definition metrics_kwargs (sid : string) (history : list RequestResult)
    : SourcePerformance_kwargs :=
  let total_requests := Z.of_nat (length history) in
  let successful_requests := successful_requests history in
  let success_rate :=
    if (0 <? total_requests)%Z
    then inject_Z successful_requests / inject_Z total_requests
    else 0.0 in
  let avg_response_time :=
    Qsum (response_time <$> history) / inject_Z total_requests in
  let avg_jobs_found :=
    inject_Z (foldl Z.add 0%Z (jobs_found <$> history))
    / inject_Z total_requests in
  let priority_score :=
    _calculate_priority_score success_rate avg_response_time avg_jobs_found in
  {| kw_source_id := Some sid;
     kw_source_type := None;
     kw_success_rate := Some success_rate;
     kw_avg_response_time := Some avg_response_time;
     kw_avg_jobs_found := Some avg_jobs_found;
     kw_last_used := Some (default 0.0 (timestamp <$> last history));
     kw_failure_count := Some (total_requests - successful_requests)%Z;
     kw_total_requests := Some total_requests;
     kw_is_available := Some (Qgtb success_rate 0.3);
     kw_priority_score := Some priority_score |}.

Definition _update_metrics (self : PerformanceTracker) (sid : string)
    : PerformanceTracker * outcome unit :=
  let history := history_of self sid in
  let self := touch_history self sid in
  match history with
  | [] => (self, Returned tt)
  | _ :: _ =>
      match int_true_div (foldl Z.add 0%Z (jobs_found <$> history))
              (Z.of_nat (length history)) with
      | Raised e => (self, Raised e)
      | Returned _ =>
          match SourcePerformance_init (metrics_kwargs sid history) with
          | Returned m =>
              ({| history_size := history_size self;
                  performance_history := performance_history self;
                  source_metrics := <[sid := m]> (source_metrics self) |},
               Returned tt)
          | Raised e => (self, Raised e)
          end
      end
  end.

(** [now] is the value [time.time()] returns during the call. *)
Definition record_request (self : PerformanceTracker) (now : Q)
    (sid : string) (success : bool) (response_time : Q) (jobs_found : Z)
    : PerformanceTracker * outcome unit :=
  let result :=
    {| timestamp := now;
       success := success;
       response_time := response_time;
       jobs_found := jobs_found |} in
  let self :=
    {| history_size := history_size self;
       performance_history :=
         <[sid := deque_append (history_size self) (history_of self sid) result]>
           (performance_history self);
       source_metrics := source_metrics self |} in
  _update_metrics self sid.

Definition get_source_metrics (self : PerformanceTracker) (sid : string)
    : option SourcePerformance :=
  source_metrics self !! sid.

End Tracker.

(** The parsed query handed over by the query parser: the keys
    [classify_query] reads. *)
Record ParsedQuery := {
  company : option string;
  skills : list string;
  location : option string;
  remote : bool;
  salary_range : option string;
  experience_level : option string;
  job_type : option string
}.

(** Truth value of [d.get(key)] for a string entry. *)
Definition truthy (v : option string) : bool :=
  match v with
  | Some s => negb (String.eqb s "")
  | None => false
  end.

Definition ascii_lower (c : ascii) : ascii :=
  let n := nat_of_ascii c in
  if ((65 <=? n) && (n <=? 90))%nat then ascii_of_nat (n + 32) else c.

(** [s.lower()]. *)
Fixpoint lower (s : string) : string :=
  match s with
  | EmptyString => EmptyString
  | String c s' => String (ascii_lower c) (lower s')
  end.

Module QueryAnalyzer.

Definition general_profile : QueryProfile :=
  {| query_type := GENERAL_JOB_SEARCH;
     preferred_sources :=
       ["scraper_bdjobs"; "scraper_linkedin"; "web_search"; "api_linkedin";
        "api_indeed"];
     min_sources := 2; max_sources := 4; timeout := 30.0;
     expected_jobs := 15 |}.

Definition query_profiles : list (QueryType * QueryProfile) :=
  [ (GENERAL_JOB_SEARCH, general_profile);
    (COMPANY_SPECIFIC,
     {| query_type := COMPANY_SPECIFIC;
        preferred_sources :=
          ["scraper_bdjobs"; "scraper_linkedin"; "api_linkedin"; "web_search"];
        min_sources := 2; max_sources := 3; timeout := 25.0;
        expected_jobs := 8 |});
    (SKILL_BASED,
     {| query_type := SKILL_BASED;
        preferred_sources :=
          ["scraper_bdjobs"; "scraper_linkedin"; "scraper_skilljobs";
           "web_search"; "api_linkedin"];
        min_sources := 2; max_sources := 4; timeout := 30.0;
        expected_jobs := 12 |});
    (LOCATION_SPECIFIC,
     {| query_type := LOCATION_SPECIFIC;
        preferred_sources := ["scraper_bdjobs"; "scraper_skilljobs"; "web_search"];
        min_sources := 2; max_sources := 3; timeout := 25.0;
        expected_jobs := 10 |});
    (REMOTE_WORK,
     {| query_type := REMOTE_WORK;
        preferred_sources := ["api_linkedin"; "web_search"; "api_indeed"];
        min_sources := 2; max_sources := 4; timeout := 30.0;
        expected_jobs := 12 |});
    (RECENT_POSTINGS,
     {| query_type := RECENT_POSTINGS;
        preferred_sources := ["scraper_bdjobs"; "scraper_skilljobs"; "web_search"];
        min_sources := 2; max_sources := 3; timeout := 20.0;
        expected_jobs := 8 |}) ].

Definition classify_query (parsed_data : ParsedQuery) : QueryType :=
  if truthy (company parsed_data) then COMPANY_SPECIFIC
  else if negb (bool_decide (skills parsed_data = [])) then SKILL_BASED
  else if truthy (location parsed_data)
          && negb (String.eqb (lower (default "" (location parsed_data)))
                     "bangladesh")
  then LOCATION_SPECIFIC
  else if remote parsed_data then REMOTE_WORK
  else if truthy (salary_range parsed_data) then SALARY_RANGE
  else if truthy (experience_level parsed_data) then EXPERIENCE_LEVEL
  else if bool_decide (job_type parsed_data = Some "recent") then RECENT_POSTINGS
  else GENERAL_JOB_SEARCH.

Fixpoint dict_get {K V} `{EqDecision K} (d : list (K * V)) (k : K) : option V :=
  match d with
  | [] => None
  | (k', v) :: d' => if decide (k' = k) then Some v else dict_get d' k
  end.

Definition get_query_profile (qt : QueryType) : QueryProfile :=
  default general_profile (dict_get query_profiles qt).

End QueryAnalyzer.

(** An entry of the source catalogue ([_initialize_sources]). *)
Record SourceConfig := {
  cfg_id : string;
  cfg_name : string;
  cfg_type : SourceType;
  cfg_priority : Q;
  cfg_enabled : bool
}.

Record IntelligentSourceRouter := {
  performance_tracker : PerformanceTracker;
  available_sources : list (string * SourceConfig);
  adaptive_learning : bool;
  max_concurrent_sources : Z
}.

(** A candidate built by [_get_available_sources]. *)
Record Candidate := {
  cand_id : string;
  cand_config : SourceConfig;
  cand_metrics : option SourcePerformance
}.

Module Router.

Definition _initialize_sources : list (string * SourceConfig) :=
  [ ("api_linkedin",
     {| cfg_id := "api_linkedin"; cfg_name := "LinkedIn API";
        cfg_type := API; cfg_priority := 1.0; cfg_enabled := true |});
    ("api_indeed",
     {| cfg_id := "api_indeed"; cfg_name := "Indeed API";
        cfg_type := API; cfg_priority := 0.9; cfg_enabled := true |});
    ("scraper_bdjobs",
     {| cfg_id := "scraper_bdjobs"; cfg_name := "BDJobs Scraper";
        cfg_type := SCRAPER; cfg_priority := 0.8; cfg_enabled := true |});
    ("scraper_linkedin",
     {| cfg_id := "scraper_linkedin"; cfg_name := "LinkedIn Scraper";
        cfg_type := SCRAPER; cfg_priority := 0.8; cfg_enabled := true |});
    ("scraper_skilljobs",
     {| cfg_id := "scraper_skilljobs"; cfg_name := "Skill.jobs Scraper";
        cfg_type := SCRAPER; cfg_priority := 0.7; cfg_enabled := true |});
    ("scraper_shomvob",
     {| cfg_id := "scraper_shomvob"; cfg_name := "Shomvob Scraper";
        cfg_type := SCRAPER; cfg_priority := 0.6; cfg_enabled := true |});
    ("web_search",
     {| cfg_id := "web_search"; cfg_name := "Advanced Web Search";
        cfg_type := WEB_SEARCH; cfg_priority := 0.5; cfg_enabled := true |}) ].

Definition init : IntelligentSourceRouter :=
  {| performance_tracker := PerformanceTracker_init 100;
     available_sources := _initialize_sources;
     adaptive_learning := true;
     max_concurrent_sources := 3 |}.

Definition _get_available_sources (self : IntelligentSourceRouter)
    : list Candidate :=
  omap (fun '(sid, source_config) =>
          if negb (cfg_enabled source_config) then None
          else
            let metrics :=
              Tracker.get_source_metrics (performance_tracker self) sid in
            match metrics with
            | Some m =>
                if negb (is_available m) then None
                else Some {| cand_id := sid; cand_config := source_config;
                             cand_metrics := metrics |}
            | None =>
                Some {| cand_id := sid; cand_config := source_config;
                        cand_metrics := metrics |}
            end)
       (available_sources self).

(** [{source: i for i, source in enumerate(preferred_sources)}]. *)
Definition preference_map (preferred : list string) : gmap string nat :=
  foldl (fun m '(i, source) => <[source := i]> m) ∅ (imap pair preferred).

Definition _filter_by_preferences (sources : list Candidate)
    (preferred : list string) : list Candidate :=
  match preferred with
  | [] => sources
  | _ =>
      let preference_key (source : Candidate) :=
        default (length preferred) (preference_map preferred !! cand_id source) in
      py_sorted Nat.leb preference_key sources
  end.

Definition boosts : list (QueryType * list (string * Q)) :=
  [ (COMPANY_SPECIFIC,
     [("api_linkedin", 0.2); ("api_indeed", 0.1); ("web_search", 0.1)]);
    (LOCATION_SPECIFIC,
     [("scraper_bdjobs", 0.2); ("scraper_skilljobs", 0.2);
      ("scraper_shomvob", 0.1)]);
    (SKILL_BASED,
     [("web_search", 0.2); ("api_linkedin", 0.1); ("scraper_skilljobs", 0.1)]);
    (REMOTE_WORK,
     [("api_linkedin", 0.2); ("api_indeed", 0.1); ("web_search", 0.1)]) ].

Definition _get_query_type_boost (source_config : SourceConfig)
    (qt : QueryType) : Q :=
  let query_boosts := default [] (QueryAnalyzer.dict_get boosts qt) in
  default 0.0 (QueryAnalyzer.dict_get query_boosts (cfg_id source_config)).

Definition rank_key (qt : QueryType) (source : Candidate) : Q :=
  let config := cand_config source in
  let base_priority := cfg_priority config in
  let performance_boost :=
    match cand_metrics source with
    | Some m => priority_score m * 0.3
    | None => 0.0
    end in
  let query_boost := _get_query_type_boost config qt in
  base_priority + performance_boost + query_boost.

Definition _rank_sources (sources : list Candidate) (qt : QueryType)
    : list Candidate :=
  py_sorted Qgeb (rank_key qt) sources.

Definition _select_optimal_sources (ranked_sources : list Candidate)
    (query_profile : QueryProfile) (max_sources_arg : Z) : list string :=
  let len := Z.of_nat (length ranked_sources) in
  let num_sources :=
    Z.min (Z.min max_sources_arg (max_sources query_profile)) len in
  let num_sources :=
    if ((num_sources <? min_sources query_profile)
        && (min_sources query_profile <=? len))%Z
    then min_sources query_profile else num_sources in
  cand_id <$> py_slice_to ranked_sources num_sources.

Definition select_sources (self : IntelligentSourceRouter)
    (parsed_data : ParsedQuery) (max_sources_arg : Z) : list string :=
  let qt := QueryAnalyzer.classify_query parsed_data in
  let query_profile := QueryAnalyzer.get_query_profile qt in
  let available := _get_available_sources self in
  let preferred :=
    _filter_by_preferences available (preferred_sources query_profile) in
  let ranked_sources := _rank_sources preferred qt in
  _select_optimal_sources ranked_sources query_profile max_sources_arg.

Definition set_tracker (self : IntelligentSourceRouter)
    (t : PerformanceTracker) : IntelligentSourceRouter :=
  {| performance_tracker := t;
     available_sources := available_sources self;
     adaptive_learning := adaptive_learning self;
     max_concurrent_sources := max_concurrent_sources self |}.

Definition mark_unavailable (m : SourcePerformance) : SourcePerformance :=
  {| source_id := source_id m; source_type := source_type m;
     success_rate := success_rate m;
     avg_response_time := avg_response_time m;
     avg_jobs_found := avg_jobs_found m; last_used := last_used m;
     failure_count := failure_count m; total_requests := total_requests m;
     is_available := false; priority_score := priority_score m |}.

Definition _update_source_availability (self : IntelligentSourceRouter)
    (sid : string) (success : bool) : IntelligentSourceRouter :=
  let t := performance_tracker self in
  match Tracker.get_source_metrics t sid with
  | Some metrics =>
      if ((5 <=? failure_count metrics)%Z
          && negb (Qle_bool 0.2 (success_rate metrics)))
      then
        set_tracker self
          {| history_size := history_size t;
             performance_history := performance_history t;
             source_metrics :=
               <[sid := mark_unavailable metrics]> (source_metrics t) |}
      else self
  | None => self
  end.

Definition record_source_result (self : IntelligentSourceRouter) (now : Q)
    (sid : string) (success : bool) (response_time : Q) (jobs_found : Z)
    : IntelligentSourceRouter * outcome unit :=
  let '(t, r) :=
    Tracker.record_request (performance_tracker self) now sid success
      response_time jobs_found in
  let self := set_tracker self t in
  match r with
  | Raised e => (self, Raised e)
  | Returned _ =>
      if adaptive_learning self
      then (_update_source_availability self sid success, Returned tt)
      else (self, Returned tt)
  end.

(** The ['available'] entry of [get_source_status()] for one source. *)
Definition status_available (self : IntelligentSourceRouter) (sid : string)
    : bool :=
  match Tracker.get_source_metrics (performance_tracker self) sid with
  | Some m => is_available m
  | None => true
  end.

End Router.

(** ** Python strings and regular expressions *)

Definition is_space (c : ascii) : bool :=
  let n := nat_of_ascii c in
  (((9 <=? n) && (n <=? 13)) || ((28 <=? n) && (n <=? 32)))%nat.

Definition is_digit (c : ascii) : bool :=
  let n := nat_of_ascii c in ((48 <=? n) && (n <=? 57))%nat.

Definition is_upper (c : ascii) : bool :=
  let n := nat_of_ascii c in ((65 <=? n) && (n <=? 90))%nat.

(** [\w] on ASCII text. *)
Definition is_word (c : ascii) : bool :=
  let n := nat_of_ascii c in
  (is_digit c || is_upper c || ((97 <=? n) && (n <=? 122)) || (n =? 95))%nat.

Fixpoint lstrip (s : string) : string :=
  match s with
  | EmptyString => EmptyString
  | String c s' => if is_space c then lstrip s' else s
  end.

Fixpoint rstrip (s : string) : string :=
  match s with
  | EmptyString => EmptyString
  | String c s' =>
      let r := rstrip s' in
      if is_space c && String.eqb r "" then "" else String c r
  end.

(** [s.strip()]. *)
Definition strip (s : string) : string := rstrip (lstrip s).

(** [s.split()]: the maximal runs of non-whitespace characters. *)
Fixpoint split_ws (cur : string) (s : string) : list string :=
  match s with
  | EmptyString => if String.eqb cur "" then [] else [cur]
  | String c s' =>
      if is_space c
      then (if String.eqb cur "" then [] else [cur]) ++ split_ws "" s'
      else split_ws (cur ++ String c "") s'
  end.
Definition split (s : string) : list string := split_ws "" s.

(** [needle in s]. *)
Fixpoint contains (needle s : string) : bool :=
  String.prefix needle s
  || match s with
     | EmptyString => false
     | String _ s' => contains needle s'
     end.

Definition count_upper (s : string) : nat :=
  length (filter (fun c => is_upper c = true) (list_ascii_of_string s)).

(** The fragment of Python's [re] the program uses, with the backtracking
    order of the library: alternatives left to right, greedy repetition
    longest first, lazy repetition shortest first.  None of the program's
    patterns matches the empty string, which [sub] relies on. *)
Module Re.

Inductive regex :=
| Chr (c : ascii)
| Cls (p : ascii -> bool)
| Eps
| Cat (r1 r2 : regex)
| Alt (r1 r2 : regex)
| Star (r : regex)
| LazyStar (r : regex)
| WordB
| Bol
| Eol.

Fixpoint Str (s : string) : regex :=
  match s with
  | EmptyString => Eps
  | String c s' => Cat (Chr c) (Str s')
  end.

Fixpoint alts (l : list regex) : regex :=
  match l with
  | [] => Cls (fun _ => false)
  | [r] => r
  | r :: l' => Alt r (alts l')
  end.

Definition Plus (r : regex) : regex := Cat r (Star r).
Definition Opt (r : regex) : regex := Alt r Eps.

(** [\s], [\d], [.], [[^\s]]. *)
Definition space : regex := Cls is_space.
Definition digit : regex := Cls is_digit.
Definition dot : regex := Cls (fun c => negb (Ascii.eqb c "010"%char)).
Definition nonspace : regex := Cls (fun c => negb (is_space c)).

(** [\b(w1|w2|...)\b]. *)
Definition words (l : list string) : regex :=
  Cat WordB (Cat (alts (Str <$> l)) WordB).

Definition word_before (prev : option ascii) : bool :=
  match prev with Some c => is_word c | None => false end.
Definition word_after (s : string) : bool :=
  match s with String c _ => is_word c | EmptyString => false end.

(** [run icase r prev s k]: match [r] at the position whose preceding
    character is [prev] and whose remaining text is [s], then continue
    with [k]; the first success in backtracking order is returned. *)
Fixpoint run {R} (icase : bool) (r : regex) (prev : option ascii)
    (s : string) (k : option ascii -> string -> option R) : option R :=
  match r with
  | Chr c =>
      match s with
      | String c' s' =>
          if (if icase then Ascii.eqb (ascii_lower c) (ascii_lower c')
              else Ascii.eqb c c')
          then k (Some c') s' else None
      | EmptyString => None
      end
  | Cls p =>
      match s with
      | String c' s' => if p c' then k (Some c') s' else None
      | EmptyString => None
      end
  | Eps => k prev s
  | Cat r1 r2 => run icase r1 prev s (fun p' s' => run icase r2 p' s' k)
  | Alt r1 r2 =>
      match run icase r1 prev s k with
      | Some x => Some x
      | None => run icase r2 prev s k
      end
  | Star r' =>
      (fix loop (n : nat) (prev : option ascii) (s : string) : option R :=
         match n with
         | O => k prev s
         | S n' =>
             match run icase r' prev s
                     (fun p' s' =>
                        if (String.length s' <? String.length s)%nat
                        then loop n' p' s' else None) with
             | Some x => Some x
             | None => k prev s
             end
         end) (String.length s) prev s
  | LazyStar r' =>
      (fix loop (n : nat) (prev : option ascii) (s : string) : option R :=
         match k prev s with
         | Some x => Some x
         | None =>
             match n with
             | O => None
             | S n' =>
                 run icase r' prev s
                   (fun p' s' =>
                      if (String.length s' <? String.length s)%nat
                      then loop n' p' s' else None)
             end
         end) (String.length s) prev s
  | WordB =>
      if xorb (word_before prev) (word_after s) then k prev s else None
  | Bol => match prev with None => k prev s | Some _ => None end
  | Eol =>
      if String.eqb s "" || String.eqb s (String "010"%char "")
      then k prev s else None
  end.

(** [re.match(r, s)] as a truth value. *)
Definition match_ (icase : bool) (r : regex) (s : string) : bool :=
  bool_decide (is_Some (run icase r None s (fun _ _ => Some tt))).

Fixpoint search_from (icase : bool) (r : regex) (prev : option ascii)
    (s : string) : bool :=
  match run icase r prev s (fun _ _ => Some tt) with
  | Some _ => true
  | None =>
      match s with
      | EmptyString => false
      | String c s' => search_from icase r (Some c) s'
      end
  end.

(** [re.search(r, s)] as a truth value. *)
Definition search (icase : bool) (r : regex) (s : string) : bool :=
  search_from icase r None s.

Fixpoint sub_from (fuel : nat) (icase : bool) (r : regex) (repl : string)
    (prev : option ascii) (s : string) : string :=
  match fuel with
  | O => s
  | S fuel' =>
      match run icase r prev s
              (fun p' s' =>
                 if (String.length s' <? String.length s)%nat
                 then Some (p', s') else None) with
      | Some (p', s') => repl ++ sub_from fuel' icase r repl p' s'
      | None =>
          match s with
          | EmptyString => EmptyString
          | String c s' => String c (sub_from fuel' icase r repl (Some c) s')
          end
      end
  end.

(** [re.sub(r, repl, s)] for a pattern with no empty match. *)
Definition sub (icase : bool) (r : regex) (repl : string) (s : string)
    : string :=
  sub_from (S (String.length s)) icase r repl None s.

End Re.

(** ** quality_assurance.py: listings and validation *)

Inductive ValidationLevel := STRICT | MODERATE | LENIENT.

Inductive JobQuality := EXCELLENT | GOOD | FAIR | POOR | INVALID.

Definition JobQuality_value (q : JobQuality) : string :=
  match q with
  | EXCELLENT => "excellent"
  | GOOD => "good"
  | FAIR => "fair"
  | POOR => "poor"
  | INVALID => "invalid"
  end.

Record ValidationResult := {
  is_valid : bool;
  quality_score : Q;
  quality_level : JobQuality;
  issues : list string;
  warnings : list string;
  suggestions : list string
}.

(** The dict stored under ['validation_metadata'] by [_validate_jobs]. *)
Record ValidationMetadata := {
  meta_quality_score : Q;
  meta_quality_level : string;
  meta_warnings : list string;
  meta_suggestions : list string
}.

(** A listing: the text entries of the dict, and the one entry the pipeline
    itself writes. *)
Record Job := {
  fields : gmap string string;
  validation_metadata : option ValidationMetadata
}.

(** [job.get(key, '')]; [job.get(key)] has the same truth value. *)
Definition get (job : Job) (key : string) : string :=
  default "" (fields job !! key).

Definition present (job : Job) (key : string) : bool :=
  negb (String.eqb (get job key) "").

(** [job[key] = v]. *)
Definition set_field (job : Job) (key v : string) : Job :=
  {| fields := <[key := v]> (fields job);
     validation_metadata := validation_metadata job |}.

Record Thresholds := {
  min_title_length : nat;
  min_company_length : nat;
  min_summary_length : nat;
  min_quality_score : Q;
  require_url : bool;
  require_salary : bool
}.

(** What a validation step does to the running score and to the two
    message lists it is handed. *)
Record Check := {
  delta : Q;
  new_issues : list string;
  new_warnings : list string
}.

Definition no_check : Check :=
  {| delta := 0.0; new_issues := []; new_warnings := [] |}.

Definition issue (penalty : Q) (msg : string) : Check :=
  {| delta := - penalty; new_issues := [msg]; new_warnings := [] |}.

Definition warning (penalty : Q) (msg : string) : Check :=
  {| delta := - penalty; new_issues := []; new_warnings := [msg] |}.

Definition and_then (a b : Check) : Check :=
  {| delta := delta a + delta b;
     new_issues := new_issues a ++ new_issues b;
     new_warnings := new_warnings a ++ new_warnings b |}.

Definition when (b : bool) (c : Check) : Check := if b then c else no_check.

Definition checks (l : list Check) : Check := foldl and_then no_check l.

(** A pattern: its source text and its meaning. *)
Definition pattern : Type := string * Re.regex.

Module JobValidator.

Definition required_fields : list string :=
  ["title"; "company"; "location"; "summary"].

Definition thresholds (level : ValidationLevel) : Thresholds :=
  match level with
  | STRICT =>
      {| min_title_length := 5; min_company_length := 2;
         min_summary_length := 20; min_quality_score := 0.7;
         require_url := true; require_salary := false |}
  | MODERATE =>
      {| min_title_length := 3; min_company_length := 2;
         min_summary_length := 10; min_quality_score := 0.5;
         require_url := false; require_salary := false |}
  | LENIENT =>
      {| min_title_length := 2; min_company_length := 1;
         min_summary_length := 5; min_quality_score := 0.3;
         require_url := false; require_salary := false |}
  end.

Definition title_spam_patterns : list pattern :=
  [ ("\b(urgent|immediate|quick|fast|easy|simple|basic)\b",
     Re.words ["urgent"; "immediate"; "quick"; "fast"; "easy"; "simple"; "basic"]);
    ("\b(work from home|wfh|online|internet|computer)\b",
     Re.words ["work from home"; "wfh"; "online"; "internet"; "computer"]);
    ("\b(earn|money|income|salary|pay|profit)\b",
     Re.words ["earn"; "money"; "income"; "salary"; "pay"; "profit"]);
    ("\b(click|visit|call|email|apply now)\b",
     Re.words ["click"; "visit"; "call"; "email"; "apply now"]) ].

Definition valid_titles : list string :=
  ["developer"; "engineer"; "manager"; "analyst"; "designer"; "specialist";
   "coordinator"; "assistant"; "consultant"; "lead"; "architect"; "scientist";
   "researcher"; "administrator"].

Definition _validate_title (title : string) (th : Thresholds) : Check :=
  if String.eqb title "" then issue 0.2 "Job title is required"
  else
    let title := strip title in
    checks
      ([ when (String.length title <? min_title_length th)%nat
           (issue 0.1
              ("Job title too short (min " ++ pretty (min_title_length th)
               ++ " chars)")) ]
       ++ ((fun p : pattern =>
              when (Re.search false (snd p) (lower title))
                (warning 0.05
                   ("Title contains potential spam words: " ++ fst p)))
             <$> title_spam_patterns)
       ++ [ when (negb (existsb (fun v => contains v (lower title)) valid_titles))
              (warning 0.05 "Job title may not be realistic") ]).

Definition company_spam_patterns : list pattern :=
  [ ("\b(company|corp|inc|ltd|llc|group|tech|software|solutions)\b",
     Re.words ["company"; "corp"; "inc"; "ltd"; "llc"; "group"; "tech";
               "software"; "solutions"]);
    ("\b(online|internet|digital|virtual|remote)\b",
     Re.words ["online"; "internet"; "digital"; "virtual"; "remote"]) ].

Definition _validate_company (company : string) (th : Thresholds) : Check :=
  if String.eqb company "" then issue 0.2 "Company name is required"
  else
    let company := strip company in
    let spam_count :=
      length (filter (fun p : pattern =>
                        Re.search false (snd p) (lower company) = true)
                     company_spam_patterns) in
    checks
      [ when (String.length company <? min_company_length th)%nat
          (issue 0.1
             ("Company name too short (min " ++ pretty (min_company_length th)
              ++ " chars)"));
        when (2 <=? spam_count)%nat
          (warning 0.05 "Company name contains multiple generic terms") ].

Definition valid_location_patterns : list pattern :=
  [ ("\b(dhaka|chittagong|sylhet|rajshahi|khulna|barisal|rangpur|mymensingh)\b",
     Re.words ["dhaka"; "chittagong"; "sylhet"; "rajshahi"; "khulna";
               "barisal"; "rangpur"; "mymensingh"]);
    ("\b(bangladesh|bd)\b", Re.words ["bangladesh"; "bd"]);
    ("\b(remote|work from home|wfh|online)\b",
     Re.words ["remote"; "work from home"; "wfh"; "online"]);
    ("\b(gulshan|banani|uttara|dhanmondi|mirpur)\b",
     Re.words ["gulshan"; "banani"; "uttara"; "dhanmondi"; "mirpur"]) ].

Definition _validate_location (location : string) : Check :=
  if String.eqb location "" then warning 0.05 "Location not specified"
  else
    let location := strip location in
    when (negb (existsb (fun p : pattern =>
                           Re.search false (snd p) (lower location))
                        valid_location_patterns))
      (warning 0.05 "Location may not be valid for Bangladesh job market").

Definition _validate_summary (summary : string) (th : Thresholds) : Check :=
  if String.eqb summary "" then warning 0.05 "Job summary not provided"
  else
    let summary := strip summary in
    checks
      [ when (String.length summary <? min_summary_length th)%nat
          (issue 0.1
             ("Job summary too short (min " ++ pretty (min_summary_length th)
              ++ " chars)"));
        when (length (split summary) <? 5)%nat
          (warning 0.05 "Job summary seems too brief") ].

(** [^https?://[^\s/$.?#].[^\s]*$] *)
Definition url_pattern : Re.regex :=
  Re.Cat Re.Bol
    (Re.Cat (Re.Str "http")
       (Re.Cat (Re.Opt (Re.Chr "s"))
          (Re.Cat (Re.Str "://")
             (Re.Cat
                (Re.Cls (fun c =>
                   negb (is_space c
                         || bool_decide (c ∈ ["/"; "$"; "."; "?"; "#"]%char))))
                (Re.Cat Re.dot (Re.Cat (Re.Star Re.nonspace) Re.Eol)))))).

Definition suspicious_domains : list string :=
  ["bit.ly"; "tinyurl"; "goo.gl"; "t.co"].

Definition _validate_url (url : string) (th : Thresholds) : Check :=
  if String.eqb url "" then
    if require_url th then issue 0.2 "Job URL is required"
    else warning 0.05 "Job URL not provided"
  else
    checks
      [ when (negb (Re.match_ false url_pattern url))
          (issue 0.1 "Invalid URL format");
        when (existsb (fun d => contains d (lower url)) suspicious_domains)
          (warning 0.05 "URL contains suspicious domain") ].

(** [\b\d{1,3}(?:,\d{3})*(?:k|k\+|taka|bdt)\b] and the fixed phrases. *)
Definition salary_patterns : list pattern :=
  [ ("\b\d{1,3}(?:,\d{3})*(?:k|k\+|taka|bdt)\b",
     Re.Cat Re.WordB
       (Re.Cat Re.digit
          (Re.Cat (Re.Opt (Re.Cat Re.digit (Re.Opt Re.digit)))
             (Re.Cat
                (Re.Star
                   (Re.Cat (Re.Chr ",")
                      (Re.Cat Re.digit (Re.Cat Re.digit Re.digit))))
                (Re.Cat
                   (Re.alts [Re.Str "k"; Re.Str "k+"; Re.Str "taka"; Re.Str "bdt"])
                   Re.WordB)))));
    ("\b(negotiable|competitive|market rate|as per company policy)\b",
     Re.words ["negotiable"; "competitive"; "market rate";
               "as per company policy"]) ].

Definition _validate_salary (salary : string) : Check :=
  if String.eqb salary "" then no_check
  else
    when (negb (existsb (fun p : pattern =>
                           Re.search false (snd p) (lower salary))
                        salary_patterns))
      (warning 0.02 "Salary format may not be realistic").

Definition spam_indicators : list pattern :=
  [ ("\b(earn money|make money|quick money|easy money)\b",
     Re.words ["earn money"; "make money"; "quick money"; "easy money"]);
    ("\b(work from home|wfh|online job|internet job)\b",
     Re.words ["work from home"; "wfh"; "online job"; "internet job"]);
    ("\b(click|visit|call|email|apply now|urgent)\b",
     Re.words ["click"; "visit"; "call"; "email"; "apply now"; "urgent"]);
    ("\b(no experience|no skills|anyone can do)\b",
     Re.words ["no experience"; "no skills"; "anyone can do"]);
    ("\b(part time|flexible hours|own schedule)\b",
     Re.words ["part time"; "flexible hours"; "own schedule"]) ].

(** [_detect_spam] returns the spam score, which the caller subtracts: the
    [delta] of this check is the negated spam score. *)
Definition _detect_spam (job : Job) : Check :=
  let text := lower (get job "title" ++ " " ++ get job "summary") in
  checks
    (((fun p : pattern =>
         when (Re.search false (snd p) text)
           (warning 0.1 ("Potential spam indicator: " ++ fst p)))
        <$> spam_indicators)
     ++ [ when (Qgtb (inject_Z (Z.of_nat (count_upper text))
                      / inject_Z (Z.of_nat (String.length text))) 0.3)
            (warning 0.05 "Excessive capitalization detected") ]).

Definition _determine_quality_level (score : Q) : JobQuality :=
  if Qgeb score 0.8 then EXCELLENT
  else if Qgeb score 0.6 then GOOD
  else if Qgeb score 0.4 then FAIR
  else if Qgeb score 0.2 then POOR
  else INVALID.

Definition _generate_suggestions (job : Job) (score : Q) : list string :=
  (if negb (Qle_bool 0.6 score)
   then ["Consider adding more detailed job description"] else [])
  ++ (if negb (present job "url")
      then ["Add direct application URL if available"] else [])
  ++ (if negb (present job "salary")
      then ["Include salary information if available"] else [])
  ++ (if negb (present job "requirements")
      then ["Add job requirements and qualifications"] else [])
  ++ (if (String.length (get job "summary") <? 50)%nat
      then ["Provide more detailed job summary"] else []).

(** The loop over [required_fields]. *)
Definition required_field_check (job : Job) (field : string) : Check :=
  if negb (present job field)
  then issue 0.2 ("Missing required field: " ++ field)
  else {| delta := 0.1; new_issues := []; new_warnings := [] |}.

(** Everything [validate_job] accumulates before it clamps the score. *)
Definition raw_check (level : ValidationLevel) (job : Job) : Check :=
  let th := thresholds level in
  checks
    ((required_field_check job <$> required_fields)
     ++ [ _validate_title (get job "title") th;
          _validate_company (get job "company") th;
          _validate_location (get job "location");
          _validate_summary (get job "summary") th;
          _validate_url (get job "url") th;
          _validate_salary (get job "salary");
          _detect_spam job ]).

Definition validate_job (level : ValidationLevel) (job : Job)
    : ValidationResult :=
  let th := thresholds level in
  let c := raw_check level job in
  let score := 0.0 + delta c in
  let score := py_max 0.0 (py_min 1.0 score) in
  {| is_valid := Qgeb score (min_quality_score th);
     quality_score := score;
     quality_level := _determine_quality_level score;
     issues := new_issues c;
     warnings := new_warnings c;
     suggestions := _generate_suggestions job score |}.

End JobValidator.

(** [QualityAssuranceLayer._validate_jobs], for the level the layer was
    built with. *)
Fixpoint _validate_jobs (level : ValidationLevel) (jobs : list Job) : list Job :=
  match jobs with
  | [] => []
  | job :: rest =>
      let validation_result := JobValidator.validate_job level job in
      if Qgeb (quality_score validation_result) 0.3
      then
        {| fields := fields job;
           validation_metadata :=
             Some {| meta_quality_score := quality_score validation_result;
                     meta_quality_level :=
                       JobQuality_value (quality_level validation_result);
                     meta_warnings := warnings validation_result;
                     meta_suggestions := suggestions validation_result |} |}
        :: _validate_jobs level rest
      else _validate_jobs level rest
  end.

(** ** Library functions the deduplicator calls *)

(** [hashlib.md5(s.encode()).hexdigest()] (RFC 1321). *)
Module MD5.

Definition w32 (x : Z) : Z := (x mod 2 ^ 32)%Z.

Definition rotl (x c : Z) : Z :=
  w32 (Z.lor (Z.shiftl x c) (Z.shiftr x (32 - c))).

Definition not32 (x : Z) : Z := Z.lxor x 0xffffffff.

Definition shifts : list Z :=
  [7; 12; 17; 22; 7; 12; 17; 22; 7; 12; 17; 22; 7; 12; 17; 22;
   5; 9; 14; 20; 5; 9; 14; 20; 5; 9; 14; 20; 5; 9; 14; 20;
   4; 11; 16; 23; 4; 11; 16; 23; 4; 11; 16; 23; 4; 11; 16; 23;
   6; 10; 15; 21; 6; 10; 15; 21; 6; 10; 15; 21; 6; 10; 15; 21]%Z.

Definition K : list Z :=
  [0xd76aa478; 0xe8c7b756; 0x242070db; 0xc1bdceee;
   0xf57c0faf; 0x4787c62a; 0xa8304613; 0xfd469501;
   0x698098d8; 0x8b44f7af; 0xffff5bb1; 0x895cd7be;
   0x6b901122; 0xfd987193; 0xa679438e; 0x49b40821;
   0xf61e2562; 0xc040b340; 0x265e5a51; 0xe9b6c7aa;
   0xd62f105d; 0x02441453; 0xd8a1e681; 0xe7d3fbc8;
   0x21e1cde6; 0xc33707d6; 0xf4d50d87; 0x455a14ed;
   0xa9e3e905; 0xfcefa3f8; 0x676f02d9; 0x8d2a4c8a;
   0xfffa3942; 0x8771f681; 0x6d9d6122; 0xfde5380c;
   0xa4beea44; 0x4bdecfa9; 0xf6bb4b60; 0xbebfbc70;
   0x289b7ec6; 0xeaa127fa; 0xd4ef3085; 0x04881d05;
   0xd9d4d039; 0xe6db99e5; 0x1fa27cf8; 0xc4ac5665;
   0xf4292244; 0x432aff97; 0xab9423a7; 0xfc93a039;
   0x655b59c3; 0x8f0ccc92; 0xffeff47d; 0x85845dd1;
   0x6fa87e4f; 0xfe2ce6e0; 0xa3014314; 0x4e0811a1;
   0xf7537e82; 0xbd3af235; 0x2ad7d2bb; 0xeb86d391]%Z.

Definition state : Type := Z * Z * Z * Z.

Definition init : state :=
  (0x67452301, 0xefcdab89, 0x98badcfe, 0x10325476)%Z.

Definition step (M : list Z) (st : state) (i : nat) : state :=
  let '(a, b, c, d) := st in
  let '(f, g) :=
    if (i <? 16)%nat
    then (Z.lor (Z.land b c) (Z.land (not32 b) d), i)
    else if (i <? 32)%nat
    then (Z.lor (Z.land d b) (Z.land (not32 d) c), ((5 * i + 1) mod 16)%nat)
    else if (i <? 48)%nat
    then (Z.lxor (Z.lxor b c) d, ((3 * i + 5) mod 16)%nat)
    else (Z.lxor c (Z.lor b (not32 d)), ((7 * i) mod 16)%nat) in
  let f := w32 (f + a + nth i K 0 + nth g M 0)%Z in
  (d, w32 (b + rotl f (nth i shifts 0))%Z, b, c).

Definition block (st : state) (M : list Z) : state :=
  let '(a0, b0, c0, d0) := st in
  let '(a, b, c, d) := foldl (step M) st (seq 0 64) in
  (w32 (a0 + a), w32 (b0 + b), w32 (c0 + c), w32 (d0 + d))%Z.

(** [n] little-endian bytes of [x]. *)
Fixpoint le_bytes (n : nat) (x : Z) : list Z :=
  match n with
  | O => []
  | S n' => (x mod 256)%Z :: le_bytes n' (x / 256)%Z
  end.

Definition pad (msg : list Z) : list Z :=
  let len := length msg in
  let zeros := ((55 + 64 - len mod 64) mod 64)%nat in
  msg ++ [0x80%Z] ++ replicate zeros 0%Z
      ++ le_bytes 8 (Z.of_nat (8 * len)).

Fixpoint words (fuel : nat) (bytes : list Z) : list Z :=
  match fuel, bytes with
  | S fuel', b0 :: b1 :: b2 :: b3 :: rest =>
      (b0 + 256 * (b1 + 256 * (b2 + 256 * b3)))%Z :: words fuel' rest
  | _, _ => []
  end.

Fixpoint blocks (fuel : nat) (st : state) (ws : list Z) : state :=
  match fuel, ws with
  | S fuel', _ :: _ => blocks fuel' (block st (take 16 ws)) (drop 16 ws)
  | _, _ => st
  end.

Definition hex_digit (n : Z) : ascii :=
  nth (Z.to_nat n)
      (list_ascii_of_string "0123456789abcdef") "0"%char.

Definition hex_byte (b : Z) : string :=
  String (hex_digit (b / 16)) (String (hex_digit (b mod 16)) "").

Definition hexdigest (s : string) : string :=
  let bytes := (fun c => Z.of_nat (nat_of_ascii c)) <$> list_ascii_of_string s in
  let ws := words (length (pad bytes)) (pad bytes) in
  let '(a, b, c, d) := blocks (length ws) init ws in
  String.concat ""
    (hex_byte <$> (le_bytes 4 a ++ le_bytes 4 b ++ le_bytes 4 c
                     ++ le_bytes 4 d)%list).

End MD5.

(** [difflib.SequenceMatcher(None, a, b).ratio()]: no junk predicate, the
    automatic junk heuristic left on. *)
Module Difflib.

Definition count_of (c : ascii) (b : list ascii) : nat :=
  length (filter (fun x => x = c) b).

(** Elements purged from [b2j] by [__chain_b]. *)
Definition popular (b : list ascii) (c : ascii) : bool :=
  let n := length b in
  ((200 <=? n) && (n / 100 + 1 <? count_of c b))%nat.

(** One row of [newj2len], indexed by [j]; an absent key reads 0. *)
Definition next_row (b : list ascii) (blo bhi : nat) (ai : ascii)
    (prev : list nat) : list nat :=
  imap (fun j bj =>
          if ((blo <=? j) && (j <? bhi))%nat && Ascii.eqb bj ai
             && negb (popular b bj)
          then S (match j with O => O | S j' => nth j' prev O end)
          else O) b.

Definition match_ : Type := nat * nat * nat.

Definition scan_row (i : nat) (row : list nat) (best : match_) : match_ :=
  foldl (fun (best : match_) '(j, k) =>
           let '(_, _, bestsize) := best in
           if (bestsize <? k)%nat then (i + 1 - k, j + 1 - k, k)%nat else best)
        best (imap pair row).

Fixpoint extend_back (fuel : nat) (a b : list ascii) (alo blo : nat)
    (m : match_) : match_ :=
  let '(besti, bestj, bestsize) := m in
  match fuel with
  | O => m
  | S fuel' =>
      if ((alo <? besti) && (blo <? bestj))%nat
         && bool_decide (a !! (besti - 1)%nat = b !! (bestj - 1)%nat)
      then extend_back fuel' a b alo blo
             (besti - 1, bestj - 1, bestsize + 1)%nat
      else m
  end.

Fixpoint extend_forward (fuel : nat) (a b : list ascii) (ahi bhi : nat)
    (m : match_) : match_ :=
  let '(besti, bestj, bestsize) := m in
  match fuel with
  | O => m
  | S fuel' =>
      if ((besti + bestsize <? ahi) && (bestj + bestsize <? bhi))%nat
         && bool_decide (a !! (besti + bestsize)%nat = b !! (bestj + bestsize)%nat)
      then extend_forward fuel' a b ahi bhi (besti, bestj, bestsize + 1)%nat
      else m
  end.

Definition find_longest_match (a b : list ascii) (alo ahi blo bhi : nat)
    : match_ :=
  let '(_, best) :=
    foldl (fun '(j2len, best) i =>
             match a !! i with
             | Some ai =>
                 let newj2len := next_row b blo bhi ai j2len in
                 (newj2len, scan_row i newj2len best)
             | None => (j2len, best)
             end)
          (replicate (length b) O, (alo, blo, O))
          (seq alo (ahi - alo)) in
  extend_forward (length a) a b ahi bhi
    (extend_back (length a) a b alo blo best).

(** The total size of the blocks [get_matching_blocks] collects. *)
Fixpoint matches (fuel : nat) (a b : list ascii) (alo ahi blo bhi : nat)
    : nat :=
  match fuel with
  | O => O
  | S fuel' =>
      let '(i, j, k) := find_longest_match a b alo ahi blo bhi in
      if (k =? 0)%nat then O
      else
        (k
         + (if (alo <? i) && (blo <? j)
            then matches fuel' a b alo i blo j else O)
         + (if (i + k <? ahi) && (j + k <? bhi)
            then matches fuel' a b (i + k) ahi (j + k) bhi else O))%nat
  end.

Definition ratio (sa sb : string) : Q :=
  let a := list_ascii_of_string sa in
  let b := list_ascii_of_string sb in
  let m := matches (S (length a)) a b 0 (length a) 0 (length b) in
  let len := (length a + length b)%nat in
  if (0 <? len)%nat
  then 2.0 * inject_Z (Z.of_nat m) / inject_Z (Z.of_nat len)
  else 1.0.

End Difflib.

(** ** quality_assurance.py: deduplication *)

Record DeduplicationStats := {
  stat_total_jobs : nat;
  stat_unique_jobs : nat;
  stat_duplicates_removed : nat;
  stat_duplicate_groups : nat;
  stat_similarity_checks : nat
}.

Record JobDeduplicator := {
  similarity_threshold : Q;
  deduplication_stats : DeduplicationStats
}.

Record DeduplicationResult := {
  unique_jobs : list Job;
  duplicates_removed : nat;
  duplicate_groups : list (list nat);
  result_stats : DeduplicationStats
}.

(** [sorted(s)] for a set of indices. *)
Definition sorted_indices (s : gset nat) : list nat :=
  py_sorted Nat.leb (fun i => i) (elements s).

(** [l[i]] for a non-negative index. *)
Definition index {A} (l : list A) (i : nat) : outcome A :=
  match l !! i with
  | Some x => Returned x
  | None => Raised (IndexError "list index out of range")
  end.

#[global] Instance outcome_bind : MBind outcome :=
  fun A B (f : A -> outcome B) (o : outcome A) =>
    match o with
    | Returned a => f a
    | Raised e => Raised e
    end.

(** [s.split(sep)[0]]: the text in front of the first [sep]. *)
Fixpoint before_first (sep s : string) : string :=
  if String.prefix sep s then ""
  else match s with
       | EmptyString => ""
       | String c s' => String c (before_first sep s')
       end.

Module Dedup.

Definition init : JobDeduplicator :=
  {| similarity_threshold := 0.8;
     deduplication_stats :=
       {| stat_total_jobs := 0; stat_unique_jobs := 0;
          stat_duplicates_removed := 0; stat_duplicate_groups := 0;
          stat_similarity_checks := 0 |} |}.

Definition collapse_spaces (s : string) : string :=
  Re.sub false (Re.Plus Re.space) " " s.

(** [\s*-\s*(for|job id|job-id).*$] *)
Definition board_suffix : Re.regex :=
  Re.Cat (Re.Star Re.space)
    (Re.Cat (Re.Chr "-")
       (Re.Cat (Re.Star Re.space)
          (Re.Cat (Re.alts [Re.Str "for"; Re.Str "job id"; Re.Str "job-id"])
             (Re.Cat (Re.Star Re.dot) Re.Eol)))).

(** [\s*\(for\s+.*?\)] *)
Definition for_company : Re.regex :=
  Re.Cat (Re.Star Re.space)
    (Re.Cat (Re.Str "(for")
       (Re.Cat (Re.Plus Re.space)
          (Re.Cat (Re.LazyStar Re.dot) (Re.Chr ")")))).

(** [\.com$] and [bdjobs\.com] *)
Definition dot_com_end : Re.regex := Re.Cat (Re.Str ".com") Re.Eol.
Definition bdjobs_com : Re.regex := Re.Str "bdjobs.com".

Definition _generate_fingerprint (job : Job) : string :=
  let title := strip (lower (get job "title")) in
  let company := strip (lower (get job "company")) in
  let location := strip (lower (get job "location")) in
  let title := collapse_spaces title in
  let title := Re.sub true board_suffix "" title in
  let title := Re.sub true for_company "" title in
  let company := collapse_spaces company in
  let company := Re.sub true dot_com_end "" company in
  let company := Re.sub true bdjobs_com "" company in
  let location := collapse_spaces location in
  let fingerprint_parts := [title; company; location] in
  let fingerprint :=
    String.concat "|"
      (filter (fun part => part <> "") fingerprint_parts) in
  MD5.hexdigest fingerprint.

(** The entries of [job_fingerprints]. *)
Definition entry : Type := nat * string * Job.

Definition job_fingerprints (jobs : list Job) : list entry :=
  imap (fun i job => (i, _generate_fingerprint job, job)) jobs.

(** [fingerprint_groups[fingerprint].append(i)] on the [defaultdict],
    which keeps its keys in the order of their first use. *)
Fixpoint group_append (groups : list (string * list nat)) (fingerprint : string)
    (i : nat) : list (string * list nat) :=
  match groups with
  | [] => [(fingerprint, [i])]
  | (f, g) :: rest =>
      if String.eqb f fingerprint then (f, (g ++ [i])%list) :: rest
      else (f, g) :: group_append rest fingerprint i
  end.

Definition fingerprint_groups (entries : list entry)
    : list (string * list nat) :=
  foldl (fun groups '(i, fingerprint, _) => group_append groups fingerprint i)
        [] entries.

Definition _find_exact_duplicates (entries : list entry) : list (list nat) :=
  filter (fun group : list nat => (1 < length group)%nat)
         (snd <$> fingerprint_groups entries).

Definition _normalize_title (title : string) : string :=
  let title := strip (lower title) in
  let title := Re.sub true board_suffix "" title in
  let title := Re.sub true for_company "" title in
  collapse_spaces title.

Definition _normalize_company (company : string) : string :=
  let company := strip (lower company) in
  let company := Re.sub true dot_com_end "" company in
  let company := Re.sub true bdjobs_com "" company in
  collapse_spaces company.

Definition _calculate_similarity (job1 job2 : Job) : Q :=
  let title1 := _normalize_title (get job1 "title") in
  let title2 := _normalize_title (get job2 "title") in
  let company1 := _normalize_company (get job1 "company") in
  let company2 := _normalize_company (get job2 "company") in
  let title_similarity := Difflib.ratio title1 title2 in
  let company_similarity := Difflib.ratio company1 company2 in
  let location_similarity :=
    Difflib.ratio (lower (get job1 "location")) (lower (get job2 "location")) in
  title_similarity * 0.6 + company_similarity * 0.3
  + location_similarity * 0.1.

(** The state of the two loops of [_find_fuzzy_duplicates]. *)
Record fuzzy_state := {
  processed_indices : gset nat;
  fuzzy_groups : list (list nat);
  similarity_checks : nat
}.

(** The loop over [j], run on the entries behind [i]. *)
Fixpoint fuzzy_inner (self : JobDeduplicator) (current_job : Job)
    (others : list entry) (processed : gset nat) (current_group : list nat)
    (checks : nat) : gset nat * list nat * nat :=
  match others with
  | [] => (processed, current_group, checks)
  | (j, _, other_job) :: rest =>
      if bool_decide (j ∈ processed)
      then fuzzy_inner self current_job rest processed current_group checks
      else
        let similarity := _calculate_similarity current_job other_job in
        if Qgeb similarity (similarity_threshold self)
        then fuzzy_inner self current_job rest ({[j]} ∪ processed)
               (current_group ++ [j]) (S checks)
        else fuzzy_inner self current_job rest processed current_group
               (S checks)
  end.

(** The loop over [i]. *)
Fixpoint fuzzy_outer (self : JobDeduplicator) (entries : list entry)
    (st : fuzzy_state) : fuzzy_state :=
  match entries with
  | [] => st
  | (i, _, current_job) :: rest =>
      if bool_decide (i ∈ processed_indices st)
      then fuzzy_outer self rest st
      else
        let '(processed, current_group, checks) :=
          fuzzy_inner self current_job rest (processed_indices st) [i]
            (similarity_checks st) in
        if (1 <? length current_group)%nat
        then
          fuzzy_outer self rest
            {| processed_indices := list_to_set current_group ∪ processed;
               fuzzy_groups := fuzzy_groups st ++ [current_group];
               similarity_checks := checks |}
        else
          fuzzy_outer self rest
            {| processed_indices := processed;
               fuzzy_groups := fuzzy_groups st;
               similarity_checks := checks |}
  end.

Definition _find_fuzzy_duplicates (self : JobDeduplicator)
    (entries : list entry) (exact_duplicates : list (list nat))
    : fuzzy_state :=
  fuzzy_outer self entries
    {| processed_indices := list_to_set (concat exact_duplicates);
       fuzzy_groups := [];
       similarity_checks :=
         stat_similarity_checks (deduplication_stats self) |}.

Definition quality_fields : list string :=
  ["title"; "company"; "location"; "summary"; "url"; "salary"; "requirements"].

Definition _calculate_job_quality_score (job : Job) : Q :=
  let completeness :=
    inject_Z (Z.of_nat (length (filter (fun f => present job f = true)
                                       quality_fields)))
    / inject_Z (Z.of_nat (length quality_fields)) in
  let score := 0.0 + completeness * 0.4 in
  let score :=
    if (10 <? String.length (get job "title"))%nat then score + 0.2 else score in
  let score :=
    if (50 <? String.length (get job "summary"))%nat then score + 0.2 else score in
  let score := if present job "url" then score + 0.1 else score in
  let score := if present job "salary" then score + 0.1 else score in
  score.

Definition source_priority : list (string * Z) :=
  [("BDJobs", 1); ("LinkedIn", 2); ("LinkedIn (Fast Scraper)", 2);
   ("Indeed", 3); ("Web Search", 4)]%Z.

Definition final_score (job : Job) : Q :=
  let base_score := _calculate_job_quality_score job in
  let source := before_first " (" (get job "source") in
  let priority_bonus :=
    default 5%Z (QueryAnalyzer.dict_get source_priority source) in
  base_score + (1.0 / inject_Z priority_bonus).

Fixpoint best_of_group (jobs : list Job) (group : list nat)
    (best_score : Q) (best_index : nat) : outcome nat :=
  match group with
  | [] => Returned best_index
  | idx :: rest =>
      job ← index jobs idx;
      if Qgtb (final_score job) best_score
      then best_of_group jobs rest (final_score job) idx
      else best_of_group jobs rest best_score best_index
  end.

Definition _select_best_job_from_group (jobs : list Job) (group : list nat)
    : outcome nat :=
  best_index ← index group 0;
  best_of_group jobs group (-1) best_index.

Fixpoint select_from_groups (jobs : list Job) (groups : list (list nat))
    (selected : gset nat) : outcome (gset nat) :=
  match groups with
  | [] => Returned selected
  | group :: rest =>
      best_job_index ← _select_best_job_from_group jobs group;
      select_from_groups jobs rest ({[best_job_index]} ∪ selected)
  end.

Definition add_ungrouped (n : nat) (groups : list (list nat))
    (selected : gset nat) : gset nat :=
  foldl (fun selected i =>
           if bool_decide (i ∈ selected) then selected
           else if existsb (fun group => bool_decide (i ∈ group)) groups
                then selected
                else {[i]} ∪ selected)
        selected (seq 0 n).

Fixpoint gather {A} (l : list A) (indices : list nat) : outcome (list A) :=
  match indices with
  | [] => Returned []
  | i :: rest =>
      x ← index l i;
      xs ← gather l rest;
      Returned (x :: xs)
  end.

Definition _select_best_jobs (jobs : list Job) (groups : list (list nat))
    : outcome (list Job) :=
  selected ← select_from_groups jobs groups ∅;
  let selected := add_ungrouped (length jobs) groups selected in
  gather jobs (sorted_indices selected).

Definition deduplicate_jobs (self : JobDeduplicator) (jobs : list Job)
    : JobDeduplicator * outcome DeduplicationResult :=
  match jobs with
  | [] =>
      (self,
       Returned {| unique_jobs := []; duplicates_removed := 0;
                   duplicate_groups := [];
                   result_stats := deduplication_stats self |})
  | _ :: _ =>
      let stats := deduplication_stats self in
      let entries := job_fingerprints jobs in
      let exact_duplicates := _find_exact_duplicates entries in
      let fuzzy := _find_fuzzy_duplicates self entries exact_duplicates in
      let all_duplicate_groups :=
        (exact_duplicates ++ fuzzy_groups fuzzy)%list in
      let searched :=
        {| similarity_threshold := similarity_threshold self;
           deduplication_stats :=
             {| stat_total_jobs := length jobs;
                stat_unique_jobs := stat_unique_jobs stats;
                stat_duplicates_removed := stat_duplicates_removed stats;
                stat_duplicate_groups := stat_duplicate_groups stats;
                stat_similarity_checks := similarity_checks fuzzy |} |} in
      match _select_best_jobs jobs all_duplicate_groups with
      | Raised e => (searched, Raised e)
      | Returned unique =>
          let stats' :=
            {| stat_total_jobs := length jobs;
               stat_unique_jobs := length unique;
               stat_duplicates_removed := length jobs - length unique;
               stat_duplicate_groups := length all_duplicate_groups;
               stat_similarity_checks := similarity_checks fuzzy |} in
          ({| similarity_threshold := similarity_threshold self;
              deduplication_stats := stats' |},
           Returned {| unique_jobs := unique;
                       duplicates_removed := length jobs - length unique;
                       duplicate_groups := all_duplicate_groups;
                       result_stats := stats' |})
      end
  end.

End Dedup.

(** ** Data used in the statements below *)

(** A listing given by its text entries, as a dict literal. *)
Definition listing (entries : list (string * string)) : Job :=
  {| fields := list_to_map entries; validation_metadata := None |}.

(** The first listing of the module's self-test. *)
Definition techcorp_job : Job :=
  listing
    [ ("title", "Software Engineer");
      ("company", "TechCorp Ltd");
      ("location", "Dhaka, Bangladesh");
      ("summary",
       "We are looking for a skilled software engineer with Python and React experience.");
      ("url", "https://techcorp.com/jobs/123");
      ("salary", "50k-80k BDT") ].

(** A listing without summary, and a summary full of spam phrases. *)
Definition no_summary_job : Job :=
  listing
    [ ("title", "Software Engineer");
      ("company", "Acme");
      ("location", "Dhaka");
      ("url", "https://acme.com/jobs/1") ].

Definition spam_summary : string :=
  "Earn money part time, work from home, no experience needed, click here".

(** A complete listing whose URL lacks the scheme. *)
Definition bad_url_job : Job :=
  listing
    [ ("title", "Software Engineer");
      ("company", "Acme");
      ("location", "Dhaka");
      ("summary", "Build and run the services behind our job search product.");
      ("url", "acme.com/jobs/1") ].

(** The groups of a run over [n] listings: the duplicate groups it reports,
    and one singleton group for every index in none of them. *)
Definition all_groups (n : nat) (groups : list (list nat)) : list (list nat) :=
  (groups
   ++ ((fun i => [i]) <$> filter (fun i => i ∉ concat groups) (seq 0 n)))%list.

(** The listings a run returns. *)
Definition unique_of (run : JobDeduplicator * outcome DeduplicationResult)
    : option (list Job) :=
  match snd run with
  | Returned r => Some (unique_jobs r)
  | Raised _ => None
  end.

(** No listing has the fingerprint of a later one, or reaches the similarity
    threshold with a later one. *)
Definition distinct_listings (self : JobDeduplicator) (jobs : list Job) : Prop :=
  StronglySorted
    (fun a b =>
       Dedup._generate_fingerprint a <> Dedup._generate_fingerprint b
       /\ Qgeb (Dedup._calculate_similarity a b) (similarity_threshold self)
          = false)
    jobs.

(** The same posting with a shorter location, and another posting. *)
Definition techcorp_job_dhaka : Job :=
  set_field techcorp_job "location" "Dhaka".

Definition python_job : Job :=
  listing
    [ ("title", "Python Developer");
      ("company", "StartupXYZ");
      ("location", "Remote");
      ("summary",
       "Join our team as a Python developer. Experience with Django and AWS required.");
      ("url", "https://startupxyz.com/careers") ].

(** The indices carried by a list of entries. *)
Definition indices (entries : list Dedup.entry) : list nat :=
  (fun e : Dedup.entry => e.1.1) <$> entries.

(** What the outer loop of [_find_fuzzy_duplicates] maintains, [exact] being
    the indices in exact groups and [n] the number of listings. *)
Definition fuzzy_inv (exact : list nat) (n : nat) (st : Dedup.fuzzy_state)
    : Prop :=
  NoDup (exact ++ concat (Dedup.fuzzy_groups st))
  /\ (forall x, x ∈ (exact ++ concat (Dedup.fuzzy_groups st))%list ->
                x ∈ Dedup.processed_indices st)
  /\ Forall (fun g => (1 < length g)%nat) (Dedup.fuzzy_groups st)
  /\ (forall x, x ∈ concat (Dedup.fuzzy_groups st) -> (x < n)%nat).

(** A validation step that does not raise the score. *)
Definition nonpos (c : Check) : Prop := delta c <= 0.

(** The outcomes of scenario D: five failures and one success. *)
Definition scenario_D : list bool := [false; false; false; false; false; true].

(** A caller that records one outcome after the other, going on after a
    failed call. *)
Definition record_outcomes (self : IntelligentSourceRouter) (sid : string)
    (outcomes : list bool) : IntelligentSourceRouter * list (outcome unit) :=
  foldl (fun '(self, results) ok =>
           let '(self, r) := Router.record_source_result self 0 sid ok 2.5 8 in
           (self, (results ++ [r])%list))
        (self, []) outcomes.

(** The parsed query of scenario C. *)
Definition company_google : ParsedQuery :=
  {| company := Some "Google"; skills := []; location := None; remote := false;
     salary_range := None; experience_level := None; job_type := None |}.

(** ** intelligent_source_router.py: the status report *)

(** [SourceType.value]. *)
Definition SourceType_value (t : SourceType) : string :=
  match t with
  | API => "api"
  | SCRAPER => "scraper"
  | WEB_SEARCH => "web_search"
  | HYBRID => "hybrid"
  end.

(** One entry of the dict [get_source_status] returns. *)
Record SourceStatus := {
  status_name : string;
  status_type : string;
  status_enabled : bool;
  status_is_available : bool;
  status_success_rate : Q;
  status_avg_response_time : Q;
  status_priority_score : Q;
  status_total_requests : Z
}.

(** [IntelligentSourceRouter.get_source_status]: one entry per source of the
    catalogue, in its order. *)
Definition get_source_status (self : IntelligentSourceRouter)
    : list (string * SourceStatus) :=
  (fun '(source_id, source_config) =>
     let metrics :=
       Tracker.get_source_metrics (performance_tracker self) source_id in
     (source_id,
      {| status_name := cfg_name source_config;
         status_type := SourceType_value (cfg_type source_config);
         status_enabled := cfg_enabled source_config;
         status_is_available :=
           match metrics with Some m => is_available m | None => true end;
         status_success_rate :=
           match metrics with Some m => success_rate m | None => 0.0 end;
         status_avg_response_time :=
           match metrics with Some m => avg_response_time m | None => 0.0 end;
         status_priority_score :=
           match metrics with
           | Some m => priority_score m
           | None => cfg_priority source_config
           end;
         status_total_requests :=
           match metrics with Some m => total_requests m | None => 0%Z end |}))
    <$> available_sources self.

(** ** The enricher of quality_assurance.py *)

Definition is_lower (c : ascii) : bool :=
  let n := nat_of_ascii c in ((97 <=? n) && (n <=? 122))%nat.

Definition ascii_upper (c : ascii) : ascii :=
  if is_lower c then ascii_of_nat (nat_of_ascii c - 32) else c.

(** [s.title()] on ASCII text: a letter that follows a letter is put in
    lower case, any other letter in upper case. *)
Fixpoint title_from (previous_is_cased : bool) (s : string) : string :=
  match s with
  | EmptyString => EmptyString
  | String c s' =>
      if is_lower c
      then String (if previous_is_cased then c else ascii_upper c)
                  (title_from true s')
      else if is_upper c
      then String (if previous_is_cased then ascii_lower c else c)
                  (title_from true s')
      else String c (title_from false s')
  end.

Definition title (s : string) : string := title_from false s.

(** [s.replace(old, new)] for a one-character [old]. *)
Fixpoint replace_char (old : ascii) (new : string) (s : string) : string :=
  match s with
  | EmptyString => EmptyString
  | String c s' =>
      if Ascii.eqb c old then (new ++ replace_char old new s')%string
      else String c (replace_char old new s')
  end.

Module JobEnricher.

Definition _initialize_experience_patterns : list (string * list string) :=
  [ ("entry_level",
     ["entry"; "junior"; "fresher"; "graduate"; "0-1 years"; "0-2 years";
      "no experience"]);
    ("mid_level",
     ["mid"; "intermediate"; "2-3 years"; "3-5 years"; "experienced"]);
    ("senior_level",
     ["senior"; "lead"; "principal"; "architect"; "5+ years"; "7+ years";
      "10+ years"]) ].

Definition _initialize_job_type_patterns : list (string * list string) :=
  [ ("full_time", ["full time"; "full-time"; "permanent"; "regular"]);
    ("part_time", ["part time"; "part-time"; "contract"; "temporary"]);
    ("remote", ["remote"; "work from home"; "wfh"; "virtual"; "online"]);
    ("internship", ["internship"; "intern"; "trainee"; "apprentice"]) ].

(** The loop of [_determine_experience_level] and [_determine_job_type]:
    the first class, in the order of the dict, one of whose patterns occurs
    in the text. *)
Fixpoint first_class (classes : list (string * list string)) (text : string)
    : string :=
  match classes with
  | [] => "Not specified"
  | (class, patterns) :: rest =>
      if existsb (fun pattern => contains pattern text) patterns
      then title (replace_char "_" " " class)
      else first_class rest text
  end.

(** The listing's entries are text. *)
Definition _determine_experience_level (job : Job) : string :=
  let text :=
    lower (get job "title" ++ " " ++ get job "summary" ++ " "
           ++ get job "requirements") in
  first_class _initialize_experience_patterns text.

Definition _determine_job_type (job : Job) : string :=
  let text := lower (get job "title" ++ " " ++ get job "summary") in
  first_class _initialize_job_type_patterns text.

Definition normalizations : list (string * string) :=
  [ ("dhaka", "Dhaka, Bangladesh");
    ("chittagong", "Chittagong, Bangladesh");
    ("sylhet", "Sylhet, Bangladesh");
    ("remote", "Remote");
    ("bangladesh", "Bangladesh") ].

(** The loop over the normalizations. *)
Fixpoint normalize_with (rules : list (string * string)) (location : string)
    : string :=
  match rules with
  | [] => location
  | (key, value) :: rest =>
      if contains key (lower location) && negb (contains value location)
      then value
      else normalize_with rest location
  end.

Definition _normalize_location (location : string) : string :=
  if String.eqb location "" then "Not specified"
  else normalize_with normalizations (strip location).

End JobEnricher.

(** ** Callers and data used in the further properties *)

(** A caller that hands a tracker one request after the other, going on
    after a failed call; each call is the source id and the entry built from
    its arguments. *)
Definition record_requests (self : PerformanceTracker)
    (calls : list (string * RequestResult)) : PerformanceTracker :=
  foldl (fun self '(sid, r) =>
           fst (Tracker.record_request self (timestamp r) sid (success r)
                  (response_time r) (jobs_found r)))
        self calls.

(** The same caller on a router. *)
Definition record_results (self : IntelligentSourceRouter)
    (calls : list (string * RequestResult)) : IntelligentSourceRouter :=
  foldl (fun self '(sid, r) =>
           fst (Router.record_source_result self (timestamp r) sid (success r)
                  (response_time r) (jobs_found r)))
        self calls.

(** The average of [jobs_found] over a window has no float: the division
    in [_update_metrics] raises. *)
Definition jobs_average_overflows (window : list RequestResult) : bool :=
  (float_limit * Z.of_nat (length window)
   <=? Z.abs (foldl Z.add 0 (jobs_found <$> window)))%Z.

(** The entries of the calls made for one source, oldest first. *)
Definition requests_of (sid : string) (calls : list (string * RequestResult))
    : list RequestResult :=
  snd <$> filter (fun c : string * RequestResult => c.1 = sid) calls.

(** The last [n] elements of a list. *)
Definition most_recent {A} (n : nat) (l : list A) : list A :=
  drop (length l - n) l.

(** The sort key of [_filter_by_preferences]: the position in the preferred
    list, its length for a source that is not listed. *)
Definition preference_key (preferred : list string) (source : Candidate) : nat :=
  default (length preferred)
    (Router.preference_map preferred !! cand_id source).

#[global] Instance Qeq_decision (a b : Q) : Decision (a == b) := Qeq_dec a b.

#[global] Instance Q_eq_dec : EqDecision Q.
Proof. solve_decision. Defined.

(** The room left for the rounding of the floats in a statement that
    compares two computed scores of moderate size. *)
Definition rounding_slack : Q := 1 # 1000000000.

(** What the rank key of a candidate is computed from: base priority,
    priority score if there is a metrics record, and query-type boost. *)
Definition rank_inputs (qt : QueryType) (c : Candidate) : Q * option Q * Q :=
  (cfg_priority (cand_config c),
   priority_score <$> cand_metrics c,
   Router._get_query_type_boost (cand_config c) qt).

(** Base priority and priority score lie in [0, 1], as the priorities of the
    catalogue and the scores of [_calculate_priority_score] do. *)
Definition unit_scores (c : Candidate) : Prop :=
  0 <= cfg_priority (cand_config c) <= 1
  /\ forall m, cand_metrics c = Some m -> 0 <= priority_score m <= 1.

(** A validation step that never raises the score and leaves it as it is
    exactly when it reports nothing. *)
Definition tight (c : Check) : Prop :=
  delta c <= 0
  /\ (delta c == 0 <-> new_issues c = [] /\ new_warnings c = []).

(** The selection score of the listing at an index. *)
Definition score_at (jobs : list Job) (i : nat) : Q :=
  match jobs !! i with
  | Some job => Dedup.final_score job
  | None => 0
  end.

(** A fuzzy group around its first member: the others come later in the
    input and reach the similarity threshold with the first. *)
Definition star_group (self : JobDeduplicator) (jobs : list Job)
    (group : list nat) : Prop :=
  exists i rest first,
    group = i :: rest
    /\ rest <> []
    /\ jobs !! i = Some first
    /\ forall j, j ∈ rest ->
         (i < j)%nat
         /\ exists other,
              jobs !! j = Some other
              /\ Qgeb (Dedup._calculate_similarity first other)
                      (similarity_threshold self) = true.

(** An exact group: at least two listings with one fingerprint. *)
Definition exact_group (jobs : list Job) (group : list nat) : Prop :=
  (1 < length group)%nat
  /\ exists fingerprint,
    forall i, i ∈ group ->
      exists job, jobs !! i = Some job
                  /\ Dedup._generate_fingerprint job = fingerprint.

(** In exact arithmetic the member a group keeps: the first one with the
    highest selection score. *)
Definition best_in (jobs : list Job) (b : nat) (group : list nat) : Prop :=
  exists earlier later,
    group = (earlier ++ b :: later)%list
    /\ (forall x, x ∈ earlier -> score_at jobs x < score_at jobs b)
    /\ (forall x, x ∈ later -> score_at jobs x <= score_at jobs b).

(** What holds of the member a group keeps whichever way the floats round:
    no member before it is the same listing, and no member scores higher by
    more than the slack. *)
Definition kept_of (jobs : list Job) (b : nat) (group : list nat) : Prop :=
  exists earlier later,
    group = (earlier ++ b :: later)%list
    /\ (forall x, x ∈ earlier -> jobs !! x <> jobs !! b)
    /\ (forall x, x ∈ group ->
         score_at jobs x <= score_at jobs b + rounding_slack).

(** One of the patterns occurs in the text. *)
Definition mentions (patterns : list string) (text : string) : Prop :=
  exists pattern, pattern ∈ patterns /\ contains pattern text = true.

(** The patterns of a class. *)
Definition patterns_of (classes : list (string * list string)) (class : string)
    : list string :=
  default [] (QueryAnalyzer.dict_get classes class).

(** The texts the two classifiers search. *)
Definition experience_text (job : Job) : string :=
  lower (get job "title" ++ " " ++ get job "summary" ++ " "
         ++ get job "requirements").

Definition job_type_text (job : Job) : string :=
  lower (get job "title" ++ " " ++ get job "summary").

(** * Properties *)

(** ** Checks of the runtime and library models *)

Example md5_of_empty : MD5.hexdigest "" = "d41d8cd98f00b204e9800998ecf8427e".
Proof. vm_compute. reflexivity. Qed.

Example md5_of_abc : MD5.hexdigest "abc" = "900150983cd24fb0d6963f7d28e17f72".
Proof. vm_compute. reflexivity. Qed.

Example ratio_of_locations :
  Difflib.ratio "dhaka" "dhaka, bangladesh" == 5 # 11.
Proof. vm_compute. reflexivity. Qed.

Example ratio_of_shifted : Difflib.ratio "abcd" "bcde" == 0.75.
Proof. vm_compute. reflexivity. Qed.

Example ratio_of_empty : Difflib.ratio "" "" == 1.
Proof. vm_compute. reflexivity. Qed.

Example word_boundary_hit :
  Re.search false (Re.words ["click"; "apply now"]) "please apply now!" = true.
Proof. vm_compute. reflexivity. Qed.

Example word_boundary_miss :
  Re.search false (Re.words ["click"; "apply now"]) "apply nowadays" = false.
Proof. vm_compute. reflexivity. Qed.

Example url_pattern_hit :
  Re.match_ false JobValidator.url_pattern "https://techcorp.com/jobs/123" = true.
Proof. vm_compute. reflexivity. Qed.

Example url_pattern_miss :
  Re.match_ false JobValidator.url_pattern "techcorp.com/jobs/123" = false.
Proof. vm_compute. reflexivity. Qed.

Example normalize_title_suffix :
  Dedup._normalize_title "Senior Dev  - For  Acme (x)" = "senior dev".
Proof. vm_compute. reflexivity. Qed.

Example normalize_title_for :
  Dedup._normalize_title "Dev (for a b) c (For d)e" = "dev ce".
Proof. vm_compute. reflexivity. Qed.

Example strip_and_split :
  strip "  a b  " = "a b" /\ split " a  bc d " = ["a"; "bc"; "d"].
Proof. vm_compute. split; reflexivity. Qed.

Example sorted_is_stable :
  py_sorted Nat.leb fst [(1, "a"); (0, "b"); (1, "c"); (0, "d")]%nat
  = [(0, "b"); (0, "d"); (1, "a"); (1, "c")]%nat.
Proof. reflexivity. Qed.

Example deque_drops_oldest : deque_append 3 [1; 2; 3]%nat 4%nat = [2; 3; 4]%nat.
Proof. reflexivity. Qed.

Example true_div_largest :
  raises (int_true_div (2 * float_limit - 1) 2) = false.
Proof. vm_compute. reflexivity. Qed.

Example true_div_overflow :
  int_true_div (- (3 * float_limit)) 3
  = Raised (OverflowError "integer division result too large for a float").
Proof. vm_compute. reflexivity. Qed.

Example true_div_exact : int_true_div 7 2 = Returned (7 # 2).
Proof. reflexivity. Qed.

Example slice_negative : py_slice_to [1; 2; 3]%nat (-1) = [1; 2]%nat.
Proof. reflexivity. Qed.

(** The same listing handed in twice: one listing is kept, one removed. *)
Example identical_listings_merge :
  unique_of (Dedup.deduplicate_jobs Dedup.init [techcorp_job; techcorp_job])
  = Some [techcorp_job]
  /\ match snd (Dedup.deduplicate_jobs Dedup.init [techcorp_job; techcorp_job]) with
     | Returned r => duplicates_removed r = 1%nat /\ duplicate_groups r = [[0; 1]]%nat
     | Raised _ => False
     end.
Proof. vm_compute. repeat split. Qed.

(** The spam listing of the self-test is invalid under the lenient level. *)
Example spam_listing_invalid :
  let r :=
    JobValidator.validate_job LENIENT
      (listing
         [ ("title", "Earn Money Fast");
           ("company", "Online Company");
           ("location", "Work from home");
           ("summary",
            "Make money quickly from home. No experience needed. Click here to apply!");
           ("url", "https://spam.com") ]) in
  quality_score r == 0 /\ is_valid r = false.
Proof. vm_compute. split; reflexivity. Qed.

(** ** The performance tracker *)

Section TrackerFacts.

Import Tracker.

Lemma deque_append_length {A} (maxlen : nat) (d : list A) (x : A) :
  (length d <= maxlen)%nat ->
  (length (deque_append maxlen d x) <= maxlen)%nat.
Proof.
  intros Hlen. unfold deque_append.
  rewrite length_drop, length_app. simpl. lia.
Qed.

Lemma deque_append_room {A} (maxlen : nat) (d : list A) (x : A) :
  (length d < maxlen)%nat -> deque_append maxlen d x = (d ++ [x])%list.
Proof.
  intros Hlen. unfold deque_append.
  replace (length d + 1 - maxlen)%nat with 0%nat by lia. apply drop_0.
Qed.

Lemma deque_append_full {A} (maxlen : nat) (d : list A) (x : A) :
  (0 < maxlen)%nat -> length d = maxlen ->
  deque_append maxlen d x = (drop 1 d ++ [x])%list.
Proof.
  intros Hpos Hlen. unfold deque_append.
  replace (length d + 1 - maxlen)%nat with 1%nat by lia.
  rewrite drop_app_le by lia. reflexivity.
Qed.

(** Every call [SourcePerformance(...)] made by [_update_metrics] lacks
    the required [source_type]. *)
Lemma metrics_init_raises (sid : string) (history : list RequestResult) :
  SourcePerformance_init (metrics_kwargs sid history)
  = Raised (TypeError "missing 1 required positional argument: 'source_type'").
Proof. reflexivity. Qed.

Lemma update_metrics_keeps_metrics (self : PerformanceTracker) (sid : string) :
  source_metrics (fst (_update_metrics self sid)) = source_metrics self.
Proof.
  unfold _update_metrics. destruct (history_of self sid); [reflexivity|].
  destruct (int_true_div _ _); [|reflexivity].
  rewrite metrics_init_raises. reflexivity.
Qed.

Lemma update_metrics_history (self : PerformanceTracker) (sid sid' : string) :
  history_of (fst (_update_metrics self sid)) sid' = history_of self sid'.
Proof.
  assert (Htouch : history_of (touch_history self sid) sid' = history_of self sid').
  { unfold touch_history, history_of at 1. simpl.
    destruct (decide (sid = sid')) as [->|Hne].
    - rewrite lookup_insert_eq. reflexivity.
    - rewrite lookup_insert_ne by done. reflexivity. }
  unfold _update_metrics. destruct (history_of self sid); [exact Htouch|].
  destruct (int_true_div _ _); [|exact Htouch].
  rewrite metrics_init_raises. exact Htouch.
Qed.

Lemma update_metrics_history_size (self : PerformanceTracker) (sid : string) :
  history_size (fst (_update_metrics self sid)) = history_size self.
Proof.
  unfold _update_metrics. destruct (history_of self sid); [reflexivity|].
  destruct (int_true_div _ _); [|reflexivity].
  rewrite metrics_init_raises. reflexivity.
Qed.

Lemma record_request_keeps_metrics (self : PerformanceTracker) (now : Q)
    (sid : string) (ok : bool) (rt : Q) (jf : Z) :
  source_metrics (fst (record_request self now sid ok rt jf))
  = source_metrics self.
Proof. unfold record_request. rewrite update_metrics_keeps_metrics. reflexivity. Qed.

Lemma record_request_history (self : PerformanceTracker) (now : Q)
    (sid : string) (ok : bool) (rt : Q) (jf : Z) :
  history_of (fst (record_request self now sid ok rt jf)) sid
  = deque_append (history_size self) (history_of self sid)
      {| timestamp := now; success := ok; response_time := rt;
         jobs_found := jf |}.
Proof.
  unfold record_request. rewrite update_metrics_history.
  unfold history_of at 1. simpl. rewrite lookup_insert_eq. reflexivity.
Qed.

Lemma record_request_history_other (self : PerformanceTracker) (now : Q)
    (sid sid' : string) (ok : bool) (rt : Q) (jf : Z) :
  sid' <> sid ->
  history_of (fst (record_request self now sid ok rt jf)) sid'
  = history_of self sid'.
Proof.
  intros Hne. unfold record_request. rewrite update_metrics_history.
  unfold history_of at 1. simpl. rewrite lookup_insert_ne by done. reflexivity.
Qed.

End TrackerFacts.

(** C1 (as stated, refuted): a call with response time -5 on a fresh tracker
    leaves -5 in the window, not max(0, -5) = 0. *)
Lemma record_request_keeps_negative_time :
  let self' :=
    fst (Tracker.record_request (PerformanceTracker_init 100) 0 "web_search"
           true (-5) 3) in
  response_time <$> Tracker.history_of self' "web_search" = [-5]
  /\ ~ Forall (fun r => response_time r == py_max 0 (-5))
         (Tracker.history_of self' "web_search").
Proof.
  split; [reflexivity|].
  intros H. vm_compute in H. inversion H as [|? ? Hhd _]; subst.
  vm_compute in Hhd. discriminate Hhd.
Qed.

(** C1 (amended): whatever the arguments, [record_request] appends the entry
    to the source's bounded window with the response time exactly as given
    (a negative time is kept, not clamped), dropping the oldest entry when
    the window already holds [history_size] entries; the window stays
    bounded and the windows of the other sources are untouched. *)
Theorem record_request_appends (self : PerformanceTracker) (now : Q)
    (sid : string) (ok : bool) (rt : Q) (jf : Z) :
  (0 < history_size self)%nat ->
  (length (Tracker.history_of self sid) <= history_size self)%nat ->
  let old := Tracker.history_of self sid in
  let self' := fst (Tracker.record_request self now sid ok rt jf) in
  let entry :=
    {| timestamp := now; success := ok; response_time := rt;
       jobs_found := jf |} in
  Tracker.history_of self' sid
  = ((if decide (length old = history_size self) then drop 1 old else old)
     ++ [entry])%list
  /\ (length (Tracker.history_of self' sid) <= history_size self)%nat
  /\ history_size self' = history_size self
  /\ forall sid', sid' <> sid ->
       Tracker.history_of self' sid' = Tracker.history_of self sid'.
Proof.
  intros Hpos Hlen old self' entry. subst self'.
  rewrite record_request_history. fold old. fold entry.
  split; [|split; [|split]].
  - destruct (decide (length old = history_size self)) as [Heq|Hne].
    + apply deque_append_full; assumption.
    + apply deque_append_room. subst old. lia.
  - apply deque_append_length. exact Hlen.
  - unfold Tracker.record_request.
    rewrite update_metrics_history_size. reflexivity.
  - intros sid' Hne. apply record_request_history_other. exact Hne.
Qed.

(** A full window of 100 entries: the call evicts the oldest one. *)
Lemma record_request_appends_witness :
  let old :=
    replicate 100
      {| timestamp := 0; success := true; response_time := 1; jobs_found := 2%Z |} in
  let self :=
    {| history_size := 100;
       performance_history := {[ "web_search" := old ]};
       source_metrics := ∅ |} in
  let self' := fst (Tracker.record_request self 7 "web_search" false (-5) 0) in
  Tracker.history_of self' "web_search"
  = (drop 1 old
     ++ [{| timestamp := 7; success := false; response_time := -5;
            jobs_found := 0%Z |}])%list
  /\ (length (Tracker.history_of self' "web_search") <= 100)%nat.
Proof.
  intros old self self'.
  assert (Hpos : (0 < history_size self)%nat) by (simpl; lia).
  assert (Hlen : (length (Tracker.history_of self "web_search")
                  <= history_size self)%nat) by (vm_compute; lia).
  destruct (record_request_appends self 7 "web_search" false (-5) 0 Hpos Hlen)
    as (Happ & Hbound & _ & _).
  split; [exact Happ | exact Hbound].
Defined.

(** The tracker never stores a metrics record: the constructor call of
    [_update_metrics] fails, after the window has been updated. *)
Lemma record_request_raises (self : PerformanceTracker) (now : Q)
    (sid : string) (ok : bool) (rt : Q) (jf : Z) :
  (0 < history_size self)%nat ->
  (length (Tracker.history_of self sid) <= history_size self)%nat ->
  raises (snd (Tracker.record_request self now sid ok rt jf)) = true.
Proof.
  intros Hpos Hlen. unfold Tracker.record_request.
  set (self1 := {| history_size := _; performance_history := _;
                   source_metrics := _ |}).
  assert (Hh : Tracker.history_of self1 sid
               = deque_append (history_size self) (Tracker.history_of self sid)
                   {| timestamp := now; success := ok; response_time := rt;
                      jobs_found := jf |}).
  { unfold Tracker.history_of at 1. simpl. rewrite lookup_insert_eq. reflexivity. }
  unfold Tracker._update_metrics.
  destruct (Tracker.history_of self1 sid) as [|r h] eqn:E.
  - exfalso. apply (f_equal length) in Hh. unfold deque_append in Hh.
    rewrite length_drop, length_app in Hh. simpl in Hh. lia.
  - destruct (int_true_div _ _); [rewrite metrics_init_raises|]; reflexivity.
Qed.

(** C7 (the code at the failing input): after 5 failures and 1 success for
    one source, recorded on a fresh router, the window holds the six outcomes
    (success rate 1/6) but every call has raised, no metrics record exists,
    and the source is still reported and treated as available. *)
Theorem scenario_D_leaves_source_available :
  let '(router, results) := record_outcomes Router.init "web_search" scenario_D in
  let tracker := performance_tracker router in
  success <$> Tracker.history_of tracker "web_search" = scenario_D
  /\ Forall (fun r => raises r = true) results
  /\ Tracker.get_source_metrics tracker "web_search" = None
  /\ Router.status_available router "web_search" = true
  /\ "web_search" ∈ cand_id <$> Router._get_available_sources router.
Proof.
  vm_compute. repeat split.
  - repeat constructor.
  - apply list_elem_of_In. vm_compute. tauto.
Qed.

Lemma py_max_Qmax (a b : Q) : py_max a b == Qmax a b.
Proof.
  unfold py_max. destruct (Qlt_le_dec a b) as [Hlt|Hle].
  - symmetry. apply Q.max_r. apply Qlt_le_weak. exact Hlt.
  - symmetry. apply Q.max_l. exact Hle.
Qed.

Lemma py_min_Qmin (a b : Q) : py_min a b == Qmin a b.
Proof.
  unfold py_min. destruct (Qlt_le_dec b a) as [Hlt|Hle].
  - symmetry. apply Q.min_r. apply Qlt_le_weak. exact Hlt.
  - symmetry. apply Q.min_l. exact Hle.
Qed.

(** The priority score among the constructor arguments [_update_metrics]
    derives from a non-empty window is 0.5*successRate
    + 0.3*max(0, 1 - avgResponseTime/30) + 0.2*min(1, avgJobsFound/20), the
    three averages being taken over the entries of the window. *)
Lemma priority_score_formula (sid : string) (history : list RequestResult) :
  history <> [] ->
  let kw := Tracker.metrics_kwargs sid history in
  let n := inject_Z (Z.of_nat (length history)) in
  exists successRate avgResponseTime avgJobsFound priorityScore,
    kw_success_rate kw = Some successRate
    /\ kw_avg_response_time kw = Some avgResponseTime
    /\ kw_avg_jobs_found kw = Some avgJobsFound
    /\ kw_priority_score kw = Some priorityScore
    /\ successRate
       == inject_Z (Z.of_nat (length (filter (fun r => success r = true) history)))
          / n
    /\ avgResponseTime == Qsum (response_time <$> history) / n
    /\ avgJobsFound == inject_Z (foldl Z.add 0%Z (jobs_found <$> history)) / n
    /\ priorityScore
       == 0.5 * successRate + 0.3 * Qmax 0 (1 - avgResponseTime / 30)
          + 0.2 * Qmin 1 (avgJobsFound / 20).
Proof.
  intros Hne kw n.
  assert (Hpos : (0 <? Z.of_nat (length history))%Z = true).
  { apply Z.ltb_lt. destruct history; [congruence | simpl; lia]. }
  eexists _, _, _, _.
  repeat (split; [reflexivity|]).
  split; [|split; [|split]].
  - rewrite Hpos. reflexivity.
  - reflexivity.
  - reflexivity.
  - unfold Tracker._calculate_priority_score.
    rewrite py_max_Qmax, py_min_Qmin, Hpos.
    set (sr := inject_Z (Tracker.successful_requests history)
               / inject_Z (Z.of_nat (length history))).
    set (art := Qsum (response_time <$> history)
                / inject_Z (Z.of_nat (length history))).
    set (ajf := inject_Z (foldl Z.add 0%Z (jobs_found <$> history))
                / inject_Z (Z.of_nat (length history))).
    assert (H30 : 30.0 == 30) by reflexivity.
    assert (H20 : 20.0 == 20) by reflexivity.
    rewrite H30, H20. ring.
Qed.

(** Three requests, two of them successful. *)
Lemma priority_score_formula_witness :
  exists priorityScore,
    kw_priority_score
      (Tracker.metrics_kwargs "web_search"
         [ {| timestamp := 1; success := true; response_time := 3;
              jobs_found := 10%Z |};
           {| timestamp := 2; success := false; response_time := 45;
              jobs_found := 0%Z |};
           {| timestamp := 3; success := true; response_time := 6;
              jobs_found := 50%Z |} ])
    = Some priorityScore
    /\ priorityScore == 0.5 * (2 # 3) + 0.3 * (2 # 5) + 0.2 * 1.
Proof.
  set (h := [ {| timestamp := 1; success := true; response_time := 3;
                 jobs_found := 10%Z |};
              {| timestamp := 2; success := false; response_time := 45;
                 jobs_found := 0%Z |};
              {| timestamp := 3; success := true; response_time := 6;
                 jobs_found := 50%Z |} ]).
  assert (Hne : h <> []) by discriminate.
  destruct (priority_score_formula "web_search" h Hne)
    as (sr & art & ajf & ps & Hsr & Hart & Hajf & Hps & _ & _ & _ & Hformula).
  exists ps. split; [exact Hps|].
  vm_compute in Hps. injection Hps as <-. reflexivity.
Defined.

(** C9 (the code at the failing input): three requests for one source, two
    of them successful, recorded on a fresh tracker.  The window holds the
    three entries and the score of the formula for them, the one
    [_update_metrics] hands to the constructor, is
    0.5*(2/3) + 0.3*0.4 + 0.2*1; but every call has raised, and no metrics
    record, so no priority score, exists for the source. *)
Theorem recorded_requests_attach_no_score :
  let t0 := PerformanceTracker_init 100 in
  let '(t1, r1) := Tracker.record_request t0 1 "web_search" true 3 10 in
  let '(t2, r2) := Tracker.record_request t1 2 "web_search" false 45 0 in
  let '(t3, r3) := Tracker.record_request t2 3 "web_search" true 6 50 in
  let window := Tracker.history_of t3 "web_search" in
  (success <$> window = [true; false; true]
   /\ response_time <$> window = [3; 45; 6]
   /\ jobs_found <$> window = [10; 0; 50]%Z)
  /\ (exists score,
        kw_priority_score (Tracker.metrics_kwargs "web_search" window)
        = Some score
        /\ score == 0.5 * (2 # 3) + 0.3 * (2 # 5) + 0.2 * 1)
  /\ Forall (fun r => raises r = true) [r1; r2; r3]
  /\ Tracker.get_source_metrics t3 "web_search" = None.
Proof.
  vm_compute. split; [repeat split|].
  split; [eexists; split; reflexivity|].
  split; [repeat constructor | reflexivity].
Qed.

(** ** The router *)

(** C2 (as stated, refuted): on a router without history the query
    {company: "Google"} is COMPANY_SPECIFIC, but the selection is headed by
    the two API sources; it is no sub-sequence of the profile's preferred
    sources, one of its members is not even listed there. *)
Lemma company_query_not_in_preference_order :
  let profile := QueryAnalyzer.get_query_profile COMPANY_SPECIFIC in
  let selected := Router.select_sources Router.init company_google 5 in
  QueryAnalyzer.classify_query company_google = COMPANY_SPECIFIC
  /\ preferred_sources profile
     = ["scraper_bdjobs"; "scraper_linkedin"; "api_linkedin"; "web_search"]
  /\ selected = ["api_linkedin"; "api_indeed"; "scraper_bdjobs"]
  /\ ~ selected `sublist_of` preferred_sources profile.
Proof.
  repeat split.
  intros Hsub.
  assert (Hin : "api_indeed" ∈ Router.select_sources Router.init company_google 5).
  { apply list_elem_of_In. vm_compute. tauto. }
  pose proof (elem_of_sublist _ _ _ Hin Hsub) as Hpref.
  apply list_elem_of_In in Hpref. vm_compute in Hpref.
  repeat (destruct Hpref as [Hpref|Hpref]; [discriminate Hpref|]).
  exact Hpref.
Qed.

Lemma select_optimal_two_or_three (ranked : list Candidate)
    (profile : QueryProfile) (m : Z) :
  min_sources profile = 2%Z -> max_sources profile = 3%Z ->
  (3 <= length ranked)%nat ->
  Router._select_optimal_sources ranked profile m
  = cand_id <$> take (if (3 <=? m)%Z then 3 else 2) ranked.
Proof.
  intros Hmin Hmax Hlen. unfold Router._select_optimal_sources.
  rewrite Hmin, Hmax.
  destruct (3 <=? m)%Z eqn:Hm.
  - apply Z.leb_le in Hm.
    replace (Z.min (Z.min m 3) (Z.of_nat (length ranked))) with 3%Z by lia.
    reflexivity.
  - apply Z.leb_gt in Hm.
    replace (Z.min (Z.min m 3) (Z.of_nat (length ranked))) with m by lia.
    destruct (m <? 2)%Z eqn:Hm2.
    + replace (2 <=? Z.of_nat (length ranked))%Z with true
        by (symmetry; apply Z.leb_le; lia).
      reflexivity.
    + apply Z.ltb_ge in Hm2. replace m with 2%Z by lia. reflexivity.
Qed.

(** C2 (amended): on a router without history the query {company: "Google"}
    is COMPANY_SPECIFIC and [select_sources] returns a non-empty list in
    descending rank order (base priority plus query-type boost, the
    preference order only breaking ties): api_linkedin, api_indeed,
    scraper_bdjobs, cut to the first two when fewer than three sources are
    asked for. *)
Theorem company_query_selection (max_sources_arg : Z) :
  let ranked :=
    Router._rank_sources
      (Router._filter_by_preferences (Router._get_available_sources Router.init)
         (preferred_sources (QueryAnalyzer.get_query_profile COMPANY_SPECIFIC)))
      COMPANY_SPECIFIC in
  let selected :=
    Router.select_sources Router.init company_google max_sources_arg in
  QueryAnalyzer.classify_query company_google = COMPANY_SPECIFIC
  /\ selected
     = take (if (3 <=? max_sources_arg)%Z then 3 else 2)
         ["api_linkedin"; "api_indeed"; "scraper_bdjobs"]
  /\ selected <> []
  /\ cand_id <$> ranked
     = ["api_linkedin"; "api_indeed"; "scraper_bdjobs"; "scraper_linkedin";
        "scraper_skilljobs"; "web_search"; "scraper_shomvob"]
  /\ Forall2 Qeq (Router.rank_key COMPANY_SPECIFIC <$> ranked)
       [1.2; 1.0; 0.8; 0.8; 0.7; 0.6; 0.6].
Proof.
  intros ranked selected.
  assert (Hsel : selected
                 = take (if (3 <=? max_sources_arg)%Z then 3 else 2)
                     ["api_linkedin"; "api_indeed"; "scraper_bdjobs"]).
  { subst selected. unfold Router.select_sources.
    change (QueryAnalyzer.classify_query company_google) with COMPANY_SPECIFIC.
    fold ranked.
    rewrite select_optimal_two_or_three;
      [| reflexivity | reflexivity | vm_compute; lia].
    destruct (3 <=? max_sources_arg)%Z; vm_compute; reflexivity. }
  split; [reflexivity|]. split; [exact Hsel|].
  split; [rewrite Hsel; destruct (3 <=? max_sources_arg)%Z; discriminate|].
  split; [vm_compute; reflexivity|].
  vm_compute. repeat constructor.
Qed.

(** ** The validator *)

Section ValidatorFacts.

Import JobValidator.

Lemma delta_foldl (a : Check) (l : list Check) :
  delta (foldl and_then a l) = foldl Qplus (delta a) (delta <$> l).
Proof.
  revert a. induction l as [|c l IH]; intros a; [reflexivity|].
  simpl. rewrite IH. reflexivity.
Qed.

Lemma nonpos_foldl (a : Check) (l : list Check) :
  nonpos a -> Forall nonpos l -> nonpos (foldl and_then a l).
Proof.
  revert a. induction l as [|c l IH]; intros a Ha Hl; [exact Ha|].
  inversion Hl as [|? ? Hc Hl']; subst. simpl. apply IH; [|exact Hl'].
  unfold nonpos in *. simpl. lra.
Qed.

Lemma nonpos_no_check : nonpos no_check.
Proof. unfold nonpos. simpl. lra. Qed.

Lemma nonpos_checks (l : list Check) : Forall nonpos l -> nonpos (checks l).
Proof. intros Hl. apply nonpos_foldl; [apply nonpos_no_check | exact Hl]. Qed.

Lemma nonpos_issue (p : Q) (msg : string) : 0 <= p -> nonpos (issue p msg).
Proof. unfold nonpos. simpl. lra. Qed.

Lemma nonpos_warning (p : Q) (msg : string) : 0 <= p -> nonpos (warning p msg).
Proof. unfold nonpos. simpl. lra. Qed.

Lemma nonpos_when (b : bool) (c : Check) : nonpos c -> nonpos (when b c).
Proof. intros Hc. destruct b; [exact Hc | apply nonpos_no_check]. Qed.

Ltac penalty :=
  repeat first
    [ apply nonpos_when
    | apply nonpos_issue; lra
    | apply nonpos_warning; lra
    | apply nonpos_no_check ].

Ltac nonpos_list :=
  repeat first
    [ apply Forall_nil_2
    | apply Forall_cons_2
    | apply Forall_app_2
    | apply Forall_fmap, Forall_forall; intros ? _; simpl
    | penalty ].

Lemma validate_title_nonpos (title : string) (th : Thresholds) :
  nonpos (_validate_title title th).
Proof.
  unfold _validate_title. destruct (String.eqb title ""); [penalty|].
  apply nonpos_checks. nonpos_list.
Qed.

Lemma validate_company_nonpos (company : string) (th : Thresholds) :
  nonpos (_validate_company company th).
Proof.
  unfold _validate_company. destruct (String.eqb company ""); [penalty|].
  apply nonpos_checks. nonpos_list.
Qed.

Lemma validate_location_nonpos (location : string) :
  nonpos (_validate_location location).
Proof. unfold _validate_location. destruct (String.eqb location ""); penalty. Qed.

Lemma validate_location_bound (location : string) :
  - 0.05 <= delta (_validate_location location).
Proof.
  unfold _validate_location. destruct (String.eqb location ""); [simpl; lra|].
  destruct (negb _); simpl; lra.
Qed.

Lemma validate_summary_nonpos (summary : string) (th : Thresholds) :
  nonpos (_validate_summary summary th).
Proof.
  unfold _validate_summary. destruct (String.eqb summary ""); [penalty|].
  apply nonpos_checks. nonpos_list.
Qed.

Lemma validate_url_nonpos (url : string) (th : Thresholds) :
  nonpos (_validate_url url th).
Proof.
  unfold _validate_url. destruct (String.eqb url "").
  - destruct (require_url th); penalty.
  - apply nonpos_checks. nonpos_list.
Qed.

Lemma validate_salary_nonpos (salary : string) : nonpos (_validate_salary salary).
Proof. unfold _validate_salary. destruct (String.eqb salary ""); penalty. Qed.

Lemma detect_spam_nonpos (job : Job) : nonpos (_detect_spam job).
Proof. unfold _detect_spam. apply nonpos_checks. nonpos_list. Qed.

Lemma required_field_le (job : Job) (field : string) :
  delta (required_field_check job field) <= 0.1.
Proof. unfold required_field_check. destruct (negb _); simpl; lra. Qed.

Lemma required_field_missing (job : Job) (field : string) :
  present job field = false ->
  delta (required_field_check job field) = - 0.2.
Proof. intros H. unfold required_field_check. rewrite H. reflexivity. Qed.

Lemma required_field_present (job : Job) (field : string) :
  present job field = true ->
  delta (required_field_check job field) = 0.1.
Proof. intros H. unfold required_field_check. rewrite H. reflexivity. Qed.

(** The raw score, term by term. *)
Lemma raw_delta (level : ValidationLevel) (job : Job) :
  delta (raw_check level job)
  = 0.0
    + delta (required_field_check job "title")
    + delta (required_field_check job "company")
    + delta (required_field_check job "location")
    + delta (required_field_check job "summary")
    + delta (_validate_title (get job "title") (thresholds level))
    + delta (_validate_company (get job "company") (thresholds level))
    + delta (_validate_location (get job "location"))
    + delta (_validate_summary (get job "summary") (thresholds level))
    + delta (_validate_url (get job "url") (thresholds level))
    + delta (_validate_salary (get job "salary"))
    + delta (_detect_spam job).
Proof. unfold raw_check, checks. rewrite delta_foldl. reflexivity. Qed.

Lemma present_get (job : Job) (field : string) :
  present job field = false -> get job field = "".
Proof.
  unfold present. intros H. apply negb_false_iff in H.
  apply String.eqb_eq in H. exact H.
Qed.

Lemma get_set_eq (job : Job) (field v : string) :
  get (set_field job field v) field = v.
Proof. unfold get, set_field. simpl. rewrite lookup_insert_eq. reflexivity. Qed.

Lemma get_set_ne (job : Job) (field field' v : string) :
  field <> field' -> get (set_field job field v) field' = get job field'.
Proof.
  intros Hne. unfold get, set_field. simpl.
  rewrite lookup_insert_ne by exact Hne. reflexivity.
Qed.

Lemma present_set_eq (job : Job) (field v : string) :
  v <> "" -> present (set_field job field v) field = true.
Proof.
  intros Hv. unfold present. rewrite get_set_eq.
  apply negb_true_iff. apply String.eqb_neq. exact Hv.
Qed.

Lemma clamp_bounds (x : Q) :
  0 <= py_max 0.0 (py_min 1.0 x) /\ py_max 0.0 (py_min 1.0 x) <= 1.
Proof.
  unfold py_max, py_min.
  destruct (Qlt_le_dec x 1.0); destruct (Qlt_le_dec 0.0 _); lra.
Qed.

Lemma clamp_negative (x : Q) : x <= 0 -> py_max 0.0 (py_min 1.0 x) == 0.
Proof.
  intros Hx. unfold py_max, py_min.
  destruct (Qlt_le_dec x 1.0); destruct (Qlt_le_dec 0.0 _); lra.
Qed.

Lemma clamp_mono (x y : Q) :
  x <= y -> py_max 0.0 (py_min 1.0 x) <= py_max 0.0 (py_min 1.0 y).
Proof.
  intros Hxy. unfold py_max, py_min.
  destruct (Qlt_le_dec x 1.0); destruct (Qlt_le_dec y 1.0);
    repeat match goal with
           | |- context [Qlt_le_dec ?a ?b] => destruct (Qlt_le_dec a b)
           end; lra.
Qed.

Lemma quality_score_eq (level : ValidationLevel) (job : Job) :
  quality_score (validate_job level job)
  = py_max 0.0 (py_min 1.0 (0.0 + delta (raw_check level job))).
Proof. reflexivity. Qed.

(** A listing without title, or without company, scores 0. *)
Lemma missing_title_scores_zero (level : ValidationLevel) (job : Job) :
  present job "title" = false ->
  quality_score (validate_job level job) == 0.
Proof.
  intros Hmiss. rewrite quality_score_eq. apply clamp_negative.
  rewrite raw_delta.
  rewrite (required_field_missing job "title" Hmiss).
  rewrite (present_get job "title" Hmiss).
  pose proof (required_field_le job "company").
  pose proof (required_field_le job "location").
  pose proof (required_field_le job "summary").
  pose proof (validate_company_nonpos (get job "company") (thresholds level)).
  pose proof (validate_location_nonpos (get job "location")).
  pose proof (validate_summary_nonpos (get job "summary") (thresholds level)).
  pose proof (validate_url_nonpos (get job "url") (thresholds level)).
  pose proof (validate_salary_nonpos (get job "salary")).
  pose proof (detect_spam_nonpos job).
  unfold nonpos in *.
  change (delta (_validate_title "" (thresholds level))) with (- 0.2).
  lra.
Qed.

Lemma missing_company_scores_zero (level : ValidationLevel) (job : Job) :
  present job "company" = false ->
  quality_score (validate_job level job) == 0.
Proof.
  intros Hmiss. rewrite quality_score_eq. apply clamp_negative.
  rewrite raw_delta.
  rewrite (required_field_missing job "company" Hmiss).
  rewrite (present_get job "company" Hmiss).
  pose proof (required_field_le job "title").
  pose proof (required_field_le job "location").
  pose proof (required_field_le job "summary").
  pose proof (validate_title_nonpos (get job "title") (thresholds level)).
  pose proof (validate_location_nonpos (get job "location")).
  pose proof (validate_summary_nonpos (get job "summary") (thresholds level)).
  pose proof (validate_url_nonpos (get job "url") (thresholds level)).
  pose proof (validate_salary_nonpos (get job "salary")).
  pose proof (detect_spam_nonpos job).
  unfold nonpos in *.
  change (delta (_validate_company "" (thresholds level))) with (- 0.2).
  lra.
Qed.

Lemma fill_location_raises_score (level : ValidationLevel) (job : Job)
    (v : string) :
  present job "location" = false -> v <> "" ->
  quality_score (validate_job level job)
  <= quality_score (validate_job level (set_field job "location" v)).
Proof.
  intros Hmiss Hv. rewrite !quality_score_eq. apply clamp_mono.
  rewrite !raw_delta.
  rewrite (required_field_missing job "location" Hmiss).
  rewrite (required_field_present _ "location" (present_set_eq job "location" v Hv)).
  rewrite (present_get job "location" Hmiss), get_set_eq.
  assert (Hreq : forall f, "location" <> f ->
            required_field_check (set_field job "location" v) f
            = required_field_check job f).
  { intros f Hf. unfold required_field_check, present.
    rewrite (get_set_ne job "location" f v Hf). reflexivity. }
  rewrite !Hreq by discriminate.
  rewrite !(get_set_ne job "location") by discriminate.
  assert (Hspam : _detect_spam (set_field job "location" v) = _detect_spam job).
  { unfold _detect_spam. rewrite !(get_set_ne job "location") by discriminate.
    reflexivity. }
  rewrite Hspam.
  pose proof (validate_location_bound v).
  change (delta (_validate_location "")) with (- 0.05).
  lra.
Qed.

End ValidatorFacts.

(** C6 (as stated, refuted): under the lenient level, a listing without
    summary scores 0.05; with a summary made of spam phrases, all else
    equal, it scores 0. *)
Lemma spam_summary_lowers_score :
  present no_summary_job "summary" = false
  /\ spam_summary <> ""
  /\ quality_score (JobValidator.validate_job LENIENT no_summary_job) == 0.05
  /\ quality_score
       (JobValidator.validate_job LENIENT
          (set_field no_summary_job "summary" spam_summary)) == 0
  /\ ~ quality_score (JobValidator.validate_job LENIENT no_summary_job)
       <= quality_score
            (JobValidator.validate_job LENIENT
               (set_field no_summary_job "summary" spam_summary)).
Proof.
  split; [reflexivity|]. split; [discriminate|].
  split; [vm_compute; reflexivity|]. split; [vm_compute; reflexivity|].
  intros H. vm_compute in H. apply H. reflexivity.
Qed.

(** C6 (amended): for a listing missing its title, its company or its
    location, every validation level and every non-empty value, filling the
    field in, all else equal, never lowers the quality score.  (A summary is
    scanned for spam phrases and is left out.) *)
Theorem required_field_monotone (level : ValidationLevel) (job : Job)
    (field v : string) :
  field ∈ ["title"; "company"; "location"] ->
  present job field = false ->
  v <> "" ->
  quality_score (JobValidator.validate_job level job)
  <= quality_score (JobValidator.validate_job level (set_field job field v)).
Proof.
  intros Hfield Hmiss Hv.
  repeat (apply elem_of_cons in Hfield as [->|Hfield]).
  - rewrite (missing_title_scores_zero level job Hmiss).
    apply (clamp_bounds _).
  - rewrite (missing_company_scores_zero level job Hmiss).
    apply (clamp_bounds _).
  - apply fill_location_raises_score; assumption.
  - apply elem_of_nil in Hfield. contradiction.
Qed.

(** A listing without location, filled in with "Dhaka". *)
Lemma required_field_monotone_witness :
  quality_score (JobValidator.validate_job MODERATE
                   (listing [("title", "Software Engineer"); ("company", "Acme")]))
  <= quality_score
       (JobValidator.validate_job MODERATE
          (set_field (listing [("title", "Software Engineer"); ("company", "Acme")])
             "location" "Dhaka")).
Proof.
  apply required_field_monotone.
  - apply list_elem_of_In. simpl. tauto.
  - reflexivity.
  - discriminate.
Defined.

(** C8: a listing is valid exactly when its clamped score reaches the
    minimum score of the level; the score lies in [0, 1]; issues do not
    enter the decision, and a listing with an issue can be valid. *)
Theorem validity_rule :
  (forall (level : ValidationLevel) (job : Job),
     let r := JobValidator.validate_job level job in
     (is_valid r = true
      <-> min_quality_score (JobValidator.thresholds level) <= quality_score r)
     /\ 0 <= quality_score r <= 1)
  /\ (let r := JobValidator.validate_job LENIENT bad_url_job in
      issues r = ["Invalid URL format"] /\ is_valid r = true).
Proof.
  split.
  - intros level job r. split.
    + subst r. unfold JobValidator.validate_job, is_valid, quality_score, Qgeb.
      apply Qle_bool_iff.
    + apply clamp_bounds.
  - vm_compute. split; reflexivity.
Qed.

Lemma validate_jobs_keeps (level : ValidationLevel) (jobs : list Job) :
  fields <$> _validate_jobs level jobs
  = fields <$> filter (fun job =>
                         Qgeb (quality_score (JobValidator.validate_job level job))
                              0.3 = true) jobs.
Proof.
  induction jobs as [|job jobs IH]; [reflexivity|].
  rewrite filter_cons. cbn [_validate_jobs].
  destruct (Qgeb (quality_score (JobValidator.validate_job level job)) 0.3) eqn:E.
  - rewrite decide_True by reflexivity. rewrite !fmap_cons, IH. reflexivity.
  - rewrite decide_False by discriminate. exact IH.
Qed.

(** C5 (the code at the failing input): under the moderate level the first
    listing of the self-test scores 0.4, below the level's minimum 0.5, and
    is not valid; the validation stage keeps it all the same. *)
Theorem moderate_stage_keeps_low_score :
  let r := JobValidator.validate_job MODERATE techcorp_job in
  quality_score r == 0.4
  /\ min_quality_score (JobValidator.thresholds MODERATE) == 0.5
  /\ is_valid r = false
  /\ fields <$> _validate_jobs MODERATE [techcorp_job] = [fields techcorp_job].
Proof.
  split; [vm_compute; reflexivity|]. split; [reflexivity|].
  split; [vm_compute; reflexivity|].
  rewrite validate_jobs_keeps. vm_compute. reflexivity.
Qed.

(** ** The deduplicator *)

Section SortingFacts.

Lemma sorted_insert_perm {A K} (le : K -> K -> bool) (key : A -> K) (x : A)
    (l : list A) :
  sorted_insert le key x l ≡ₚ x :: l.
Proof.
  induction l as [|y ys IH]; [reflexivity|].
  simpl. destruct (le (key x) (key y)); [reflexivity|].
  rewrite IH. apply Permutation_swap.
Qed.

Lemma py_sorted_perm {A K} (le : K -> K -> bool) (key : A -> K) (l : list A) :
  py_sorted le key l ≡ₚ l.
Proof.
  induction l as [|x l IH]; [reflexivity|].
  unfold py_sorted in *. simpl. rewrite sorted_insert_perm, IH. reflexivity.
Qed.

Lemma sorted_insert_nat (x : nat) (l : list nat) :
  StronglySorted le l ->
  StronglySorted le (sorted_insert Nat.leb (fun i => i) x l).
Proof.
  induction l as [|y ys IH]; intros Hs.
  - repeat constructor.
  - simpl. destruct (Nat.leb x y) eqn:E.
    + apply Nat.leb_le in E. constructor; [exact Hs|].
      apply StronglySorted_inv in Hs as [_ Hall].
      constructor; [exact E|].
      eapply Forall_impl; [exact Hall|]. intros z Hz. simpl in Hz. lia.
    + apply Nat.leb_gt in E.
      apply StronglySorted_inv in Hs as [Hs Hall].
      constructor; [apply IH; exact Hs|].
      rewrite sorted_insert_perm. constructor; [lia | exact Hall].
Qed.

Lemma py_sorted_nat (l : list nat) :
  StronglySorted le (py_sorted Nat.leb (fun i => i) l).
Proof.
  induction l as [|x l IH]; [constructor|].
  unfold py_sorted in *. simpl. apply sorted_insert_nat. exact IH.
Qed.

Lemma sorted_nodup_strict (l : list nat) :
  StronglySorted le l -> NoDup l -> StronglySorted lt l.
Proof.
  induction l as [|x l IH]; intros Hs Hnd; [constructor|].
  apply StronglySorted_inv in Hs as [Hs Hall].
  apply NoDup_cons in Hnd as [Hx Hnd].
  constructor; [apply IH; assumption|].
  apply Forall_forall. intros y Hy.
  pose proof (proj1 (Forall_forall _ _) Hall y Hy) as Hle. simpl in Hle.
  assert (x <> y) by (intros ->; contradiction).
  lia.
Qed.

Lemma strongly_sorted_weaken {A} (R S : A -> A -> Prop) (l : list A) :
  (forall a b, R a b -> S a b) -> StronglySorted R l -> StronglySorted S l.
Proof.
  intros Himpl. induction 1 as [|x l Hs IH Hall]; constructor; [exact IH|].
  eapply Forall_impl; [exact Hall|]. intros y. apply Himpl.
Qed.

Lemma sorted_indices_nodup (s : gset nat) : NoDup (sorted_indices s).
Proof. unfold sorted_indices. rewrite py_sorted_perm. apply NoDup_elements. Qed.

Lemma sorted_indices_strict (s : gset nat) :
  StronglySorted lt (sorted_indices s).
Proof.
  apply sorted_nodup_strict; [apply py_sorted_nat | apply sorted_indices_nodup].
Qed.

Lemma elem_of_sorted_indices (s : gset nat) (x : nat) :
  x ∈ sorted_indices s <-> x ∈ s.
Proof.
  unfold sorted_indices. rewrite py_sorted_perm. apply elem_of_elements.
Qed.

End SortingFacts.

Section GatherFacts.

Import Dedup.

Lemma index_lookup {A} (l : list A) (i : nat) (x : A) :
  l !! i = Some x -> index l i = Returned x.
Proof. intros H. unfold index. rewrite H. reflexivity. Qed.

Lemma gather_sublist (jobs : list Job) (l : list nat) (k : nat) :
  StronglySorted lt l ->
  Forall (fun i => (k <= i < length jobs)%nat) l ->
  exists u, gather jobs l = Returned u
            /\ u `sublist_of` drop k jobs /\ length u = length l.
Proof.
  revert k. induction l as [|i l IH]; intros k Hs Hall.
  - exists []. repeat split. apply sublist_nil_l.
  - apply StronglySorted_inv in Hs as [Hs Hgt].
    apply Forall_cons in Hall as [Hi Hall].
    destruct (lookup_lt_is_Some_2 jobs i) as [x Hx]; [lia|].
    destruct (IH (S i) Hs) as (u & Hu & Hsub & Hlen).
    { apply Forall_forall. intros j Hj.
      pose proof (proj1 (Forall_forall _ _) Hgt j Hj).
      pose proof (proj1 (Forall_forall _ _) Hall j Hj). simpl in *. lia. }
    exists (x :: u). split; [|split].
    + cbn [gather]. rewrite (index_lookup _ _ _ Hx). cbn. rewrite Hu.
      reflexivity.
    + trans (drop i jobs).
      * rewrite (drop_S _ _ _ Hx). apply sublist_skip. exact Hsub.
      * replace i with (k + (i - k))%nat by lia. rewrite <- drop_drop.
        apply sublist_drop.
    + simpl. rewrite Hlen. reflexivity.
Qed.

End GatherFacts.

Section GroupFacts.

Import Dedup.

Lemma indices_imap (jobs : list Job) (k : nat) :
  indices (imap (fun i job => ((k + i)%nat, _generate_fingerprint job, job)) jobs)
  = seq k (length jobs).
Proof.
  revert k. induction jobs as [|job jobs IH]; intros k; [reflexivity|].
  cbn [imap]. unfold indices in *. rewrite fmap_cons. simpl.
  rewrite Nat.add_0_r. f_equal. rewrite <- (IH (S k)). f_equal.
  apply imap_ext. intros i x _. simpl. f_equal. f_equal. lia.
Qed.

Lemma indices_job_fingerprints (jobs : list Job) :
  indices (job_fingerprints jobs) = seq 0 (length jobs).
Proof. apply (indices_imap jobs 0). Qed.

Lemma jobs_of_imap (jobs : list Job) (k : nat) :
  (fun e : entry => e.2)
    <$> imap (fun i job => ((k + i)%nat, _generate_fingerprint job, job)) jobs
  = jobs.
Proof.
  revert k. induction jobs as [|job jobs IH]; intros k; [reflexivity|].
  cbn [imap]. rewrite fmap_cons. simpl. f_equal. rewrite <- (IH (S k)) at 2.
  f_equal. apply imap_ext. intros i x _. simpl. f_equal. f_equal. lia.
Qed.

Lemma group_append_concat (groups : list (string * list nat))
    (fingerprint : string) (i : nat) :
  concat (snd <$> group_append groups fingerprint i)
  ≡ₚ (concat (snd <$> groups) ++ [i])%list.
Proof.
  induction groups as [|[f g] rest IH]; [reflexivity|].
  simpl. destruct (String.eqb f fingerprint).
  - simpl. rewrite <- !app_assoc. apply Permutation_app_head.
    apply Permutation_app_comm.
  - simpl. rewrite IH. rewrite app_assoc. reflexivity.
Qed.

Lemma fingerprint_groups_concat (entries : list entry)
    (groups : list (string * list nat)) :
  concat (snd <$> foldl (fun groups '(i, fingerprint, _) =>
                           group_append groups fingerprint i) groups entries)
  ≡ₚ (concat (snd <$> groups) ++ indices entries)%list.
Proof.
  revert groups. induction entries as [|[[i f] job] entries IH]; intros groups.
  - simpl. rewrite app_nil_r. reflexivity.
  - simpl. rewrite IH, group_append_concat. rewrite <- app_assoc. reflexivity.
Qed.

Lemma concat_filter_sublist {A} (P : list A -> Prop)
    `{!forall g, Decision (P g)} (groups : list (list A)) :
  concat (filter P groups) `sublist_of` concat groups.
Proof.
  induction groups as [|g groups IH]; [constructor|].
  rewrite filter_cons. destruct (decide (P g)); simpl.
  - apply sublist_app; [reflexivity | exact IH].
  - apply sublist_inserts_l. exact IH.
Qed.

Lemma exact_duplicates_spec (jobs : list Job) :
  let exact := _find_exact_duplicates (job_fingerprints jobs) in
  NoDup (concat exact)
  /\ (forall x, x ∈ concat exact -> (x < length jobs)%nat)
  /\ Forall (fun g => (1 < length g)%nat) exact.
Proof.
  intros exact.
  assert (Hperm : concat (snd <$> fingerprint_groups (job_fingerprints jobs))
                  ≡ₚ seq 0 (length jobs)).
  { unfold fingerprint_groups. rewrite fingerprint_groups_concat.
    simpl. apply reflexive_eq. apply indices_job_fingerprints. }
  assert (Hsub : concat exact
                 `sublist_of`
                 concat (snd <$> fingerprint_groups (job_fingerprints jobs))).
  { apply concat_filter_sublist. }
  split; [|split].
  - eapply sublist_NoDup; [|exact Hsub]. rewrite Hperm. apply NoDup_seq.
  - intros x Hx. pose proof (elem_of_sublist _ _ _ Hx Hsub) as Hin.
    rewrite Hperm in Hin. apply elem_of_seq in Hin. lia.
  - apply Forall_forall. intros g Hg. subst exact.
    unfold _find_exact_duplicates in Hg.
    apply list_elem_of_filter in Hg as [Hlen _]. exact Hlen.
Qed.

Lemma fuzzy_inner_spec (self : JobDeduplicator) (current_job : Job)
    (others : list entry) (processed : gset nat) (group : list nat)
    (checks : nat) :
  exists added processed' checks',
    fuzzy_inner self current_job others processed group checks
    = (processed', (group ++ added)%list, checks')
    /\ (forall x, x ∈ processed' <-> x ∈ added \/ x ∈ processed)
    /\ NoDup added
    /\ (forall x, x ∈ added -> x ∈ indices others /\ x ∉ processed).
Proof.
  revert processed group checks.
  induction others as [|[[j f] other_job] rest IH]; intros processed group checks.
  - exists [], processed, checks. rewrite app_nil_r.
    split; [reflexivity|].
    split; [intros x; rewrite elem_of_nil; tauto|]. split; [constructor|].
    intros x Hx. apply elem_of_nil in Hx. contradiction.
  - cbn [fuzzy_inner]. destruct (bool_decide (j ∈ processed)) eqn:Hj.
    + destruct (IH processed group checks)
        as (added & processed' & checks' & Heq & Hproc & Hnd & Hadded).
      exists added, processed', checks'. rewrite Heq.
      split; [reflexivity|]. split; [exact Hproc|]. split; [exact Hnd|].
      intros x Hx. destruct (Hadded x Hx) as [Hin Hnot].
      split; [|exact Hnot]. unfold indices in *. rewrite fmap_cons.
      apply elem_of_cons. right. exact Hin.
    + apply bool_decide_eq_false in Hj.
      destruct (Qgeb _ _).
      * destruct (IH ({[j]} ∪ processed) (group ++ [j])%list (S checks))
          as (added & processed' & checks' & Heq & Hproc & Hnd & Hadded).
        exists (j :: added), processed', checks'. rewrite Heq.
        split; [rewrite <- app_assoc; reflexivity|].
        split.
        { intros x. rewrite Hproc, elem_of_union, elem_of_singleton,
            elem_of_cons. tauto. }
        split.
        { apply NoDup_cons. split; [|exact Hnd].
          intros Hin. destruct (Hadded j Hin) as [_ Hnot].
          apply Hnot, elem_of_union. left. apply elem_of_singleton.
          reflexivity. }
        intros x Hx. apply elem_of_cons in Hx as [->|Hx].
        { split; [|exact Hj]. unfold indices. rewrite fmap_cons.
          apply elem_of_cons. left. reflexivity. }
        destruct (Hadded x Hx) as [Hin Hnot].
        split; [|intros Hp; apply Hnot, elem_of_union; right; exact Hp].
        unfold indices in *. rewrite fmap_cons.
        apply elem_of_cons. right. exact Hin.
      * destruct (IH processed group (S checks))
          as (added & processed' & checks' & Heq & Hproc & Hnd & Hadded).
        exists added, processed', checks'. rewrite Heq.
        split; [reflexivity|]. split; [exact Hproc|]. split; [exact Hnd|].
        intros x Hx. destruct (Hadded x Hx) as [Hin Hnot].
        split; [|exact Hnot]. unfold indices in *. rewrite fmap_cons.
        apply elem_of_cons. right. exact Hin.
Qed.

Lemma fuzzy_outer_spec (self : JobDeduplicator) (exact : list nat) (n : nat)
    (entries : list entry) (st : fuzzy_state) :
  NoDup (indices entries) ->
  (forall x, x ∈ indices entries -> (x < n)%nat) ->
  fuzzy_inv exact n st ->
  fuzzy_inv exact n (fuzzy_outer self entries st).
Proof.
  revert st. induction entries as [|[[i f] current_job] rest IH];
    intros st Hnd Hrange Hinv; [exact Hinv|].
  unfold indices in Hnd, Hrange. rewrite fmap_cons in Hnd, Hrange.
  simpl in Hnd, Hrange. apply NoDup_cons in Hnd as [Hi Hnd].
  assert (Hrange' : forall x, x ∈ indices rest -> (x < n)%nat).
  { intros x Hx. apply Hrange. apply elem_of_cons. right. exact Hx. }
  cbn [fuzzy_outer].
  destruct (bool_decide (i ∈ processed_indices st)) eqn:Hproc.
  { apply IH; assumption. }
  apply bool_decide_eq_false in Hproc.
  destruct (fuzzy_inner_spec self current_job rest (processed_indices st) [i]
              (similarity_checks st))
    as (added & processed' & checks' & Heq & Hp' & Hadd_nd & Hadded).
  rewrite Heq. destruct Hinv as (Hinv_nd & Hinv_proc & Hinv_len & Hinv_range).
  destruct (1 <? length ([i] ++ added))%nat eqn:Hlen.
  - apply IH; [exact Hnd | exact Hrange' |].
    unfold fuzzy_inv. cbn [fuzzy_groups processed_indices].
    rewrite concat_app. cbn [concat]. rewrite app_nil_r.
    split; [|split; [|split]].
    + rewrite app_assoc. apply NoDup_app. split; [exact Hinv_nd|].
      split.
      * intros x Hx Hin. apply Hinv_proc in Hx.
        apply elem_of_cons in Hin as [->|Hin]; [contradiction|].
        destruct (Hadded x Hin) as [_ Hnot]. contradiction.
      * simpl. apply NoDup_cons. split; [|exact Hadd_nd].
        intros Hin. destruct (Hadded i Hin) as [Hin' _]. contradiction.
    + intros x Hx. rewrite app_assoc in Hx.
      apply elem_of_app in Hx as [Hx|Hx].
      * apply elem_of_union. right. apply Hp'. right. apply Hinv_proc. exact Hx.
      * apply elem_of_union. left. apply elem_of_list_to_set. exact Hx.
    + apply Forall_app. split; [exact Hinv_len|].
      constructor; [|constructor]. apply Nat.ltb_lt in Hlen. exact Hlen.
    + intros x Hx. apply elem_of_app in Hx as [Hx|Hx]; [auto|].
      simpl in Hx. apply elem_of_cons in Hx as [->|Hx].
      * apply Hrange. apply elem_of_cons. left. reflexivity.
      * apply Hrange'. apply (Hadded x Hx).
  - apply IH; [exact Hnd | exact Hrange' |].
    unfold fuzzy_inv. cbn [fuzzy_groups processed_indices].
    split; [exact Hinv_nd|]. split; [|split; assumption].
    intros x Hx. apply Hp'. right. apply Hinv_proc. exact Hx.
Qed.

Lemma duplicate_groups_spec (self : JobDeduplicator) (jobs : list Job) :
  let entries := job_fingerprints jobs in
  let exact := _find_exact_duplicates entries in
  let groups :=
    (exact ++ fuzzy_groups (_find_fuzzy_duplicates self entries exact))%list in
  NoDup (concat groups)
  /\ (forall x, x ∈ concat groups -> (x < length jobs)%nat)
  /\ Forall (fun g => (1 < length g)%nat) groups.
Proof.
  intros entries exact groups.
  destruct (exact_duplicates_spec jobs) as (Hnd & Hrange & Hlen).
  fold entries in Hnd, Hrange, Hlen. fold exact in Hnd, Hrange, Hlen.
  assert (Hinv : fuzzy_inv (concat exact) (length jobs)
                   (_find_fuzzy_duplicates self entries exact)).
  { apply fuzzy_outer_spec.
    - subst entries. rewrite indices_job_fingerprints. apply NoDup_seq.
    - intros x Hx. subst entries. rewrite indices_job_fingerprints in Hx.
      apply elem_of_seq in Hx. lia.
    - unfold fuzzy_inv. cbn [fuzzy_groups processed_indices concat].
      rewrite app_nil_r. split; [exact Hnd|].
      split; [intros x Hx; apply elem_of_list_to_set; exact Hx|].
      split; [constructor|]. intros x Hx. apply elem_of_nil in Hx.
      contradiction. }
  destruct Hinv as (Hinv_nd & _ & Hinv_len & Hinv_range).
  subst groups. rewrite concat_app. split; [exact Hinv_nd|]. split.
  - intros x Hx. apply elem_of_app in Hx as [Hx|Hx]; auto.
  - apply Forall_app. split; assumption.
Qed.

End GroupFacts.

Section SelectFacts.

Import Dedup.

Lemma best_of_group_spec (jobs : list Job) (group : list nat)
    (best_score : Q) (best_index : nat) :
  (forall x, x ∈ group -> (x < length jobs)%nat) ->
  exists b, best_of_group jobs group best_score best_index = Returned b
            /\ (b = best_index \/ b ∈ group).
Proof.
  revert best_score best_index.
  induction group as [|idx rest IH]; intros best_score best_index Hrange.
  - exists best_index. split; [reflexivity | left; reflexivity].
  - destruct (lookup_lt_is_Some_2 jobs idx) as [job Hjob].
    { apply Hrange. apply elem_of_cons. left. reflexivity. }
    assert (Hrest : forall x, x ∈ rest -> (x < length jobs)%nat).
    { intros x Hx. apply Hrange. apply elem_of_cons. right. exact Hx. }
    cbn [best_of_group]. rewrite (index_lookup _ _ _ Hjob). cbn.
    destruct (Qgtb (final_score job) best_score).
    + destruct (IH (final_score job) idx Hrest) as (b & Hb & Hin).
      exists b. split; [exact Hb|]. right. apply elem_of_cons.
      destruct Hin as [->|Hin]; [left; reflexivity | right; exact Hin].
    + destruct (IH best_score best_index Hrest) as (b & Hb & Hin).
      exists b. split; [exact Hb|].
      destruct Hin as [->|Hin]; [left; reflexivity|].
      right. apply elem_of_cons. right. exact Hin.
Qed.

Lemma select_best_job_from_group_spec (jobs : list Job) (group : list nat) :
  (0 < length group)%nat ->
  (forall x, x ∈ group -> (x < length jobs)%nat) ->
  exists b, _select_best_job_from_group jobs group = Returned b /\ b ∈ group.
Proof.
  intros Hlen Hrange. destruct group as [|first rest]; [simpl in Hlen; lia|].
  unfold _select_best_job_from_group. cbn [index lookup list_lookup]. cbn.
  destruct (best_of_group_spec jobs (first :: rest) (-1) first Hrange)
    as (b & Hb & Hin).
  exists b. split; [exact Hb|].
  destruct Hin as [->|Hin]; [apply elem_of_cons; left; reflexivity | exact Hin].
Qed.

Lemma select_from_groups_spec (jobs : list Job) (groups : list (list nat))
    (selected : gset nat) :
  Forall (fun g => (0 < length g)%nat) groups ->
  (forall x, x ∈ concat groups -> (x < length jobs)%nat) ->
  exists bests selected',
    select_from_groups jobs groups selected = Returned selected'
    /\ (forall x, x ∈ selected' <-> x ∈ bests \/ x ∈ selected)
    /\ Forall2 (fun b g => b ∈ g) bests groups.
Proof.
  revert selected. induction groups as [|g groups IH]; intros selected Hlen Hrange.
  - exists [], selected. split; [reflexivity|]. split; [|constructor].
    intros x. rewrite elem_of_nil. tauto.
  - apply Forall_cons in Hlen as [Hg Hlen].
    destruct (select_best_job_from_group_spec jobs g Hg) as (b & Hb & Hin).
    { intros x Hx. apply Hrange. simpl. apply elem_of_app. left. exact Hx. }
    destruct (IH ({[b]} ∪ selected) Hlen) as (bests & sel' & Hsel & Hmem & Hall).
    { intros x Hx. apply Hrange. simpl. apply elem_of_app. right. exact Hx. }
    exists (b :: bests), sel'. cbn [select_from_groups]. rewrite Hb. cbn.
    split; [exact Hsel|]. split; [|constructor; assumption].
    intros x. rewrite Hmem, elem_of_union, elem_of_singleton, elem_of_cons.
    tauto.
Qed.

Lemma in_some_group (groups : list (list nat)) (i : nat) :
  existsb (fun group => bool_decide (i ∈ group)) groups = true
  <-> i ∈ concat groups.
Proof.
  induction groups as [|g groups IH]; simpl.
  - rewrite elem_of_nil. split; [discriminate | contradiction].
  - rewrite orb_true_iff, elem_of_app, bool_decide_eq_true, IH. reflexivity.
Qed.

Lemma add_ungrouped_from (groups : list (list nat)) (l : list nat)
    (selected : gset nat) (x : nat) :
  x ∈ foldl (fun selected i =>
               if bool_decide (i ∈ selected) then selected
               else if existsb (fun group => bool_decide (i ∈ group)) groups
                    then selected
                    else {[i]} ∪ selected) selected l
  <-> x ∈ selected \/ (x ∈ l /\ x ∉ concat groups).
Proof.
  revert selected. induction l as [|i l IH]; intros selected.
  - simpl. rewrite elem_of_nil. tauto.
  - cbn [foldl]. rewrite IH, elem_of_cons.
    destruct (bool_decide (i ∈ selected)) eqn:Hsel.
    + apply bool_decide_eq_true in Hsel.
      split; [tauto|]. intros [H|[[->|H] Hn]]; tauto.
    + apply bool_decide_eq_false in Hsel.
      destruct (existsb _ groups) eqn:Hgrp.
      * apply in_some_group in Hgrp.
        split; [tauto|]. intros [H|[[->|H] Hn]]; tauto.
      * assert (Hnot : i ∉ concat groups).
        { intros Hin. apply in_some_group in Hin. congruence. }
        rewrite elem_of_union, elem_of_singleton.
        split; [intros [[->|H]|H]; tauto | tauto].
Qed.

Lemma add_ungrouped_spec (n : nat) (groups : list (list nat))
    (selected : gset nat) (x : nat) :
  x ∈ add_ungrouped n groups selected
  <-> x ∈ selected \/ ((x < n)%nat /\ x ∉ concat groups).
Proof.
  unfold add_ungrouped. rewrite add_ungrouped_from, elem_of_seq.
  split; (intros [H|[H1 H2]]; [left; exact H | right; split; [lia|exact H2]]).
Qed.

Lemma bests_nodup (bests : list nat) (groups : list (list nat)) :
  Forall2 (fun b g => b ∈ g) bests groups ->
  NoDup (concat groups) ->
  NoDup bests /\ forall b, b ∈ bests -> b ∈ concat groups.
Proof.
  induction 1 as [|b g bests groups Hb Hall IH]; intros Hnd.
  - split; [constructor|]. intros b Hb. apply elem_of_nil in Hb. contradiction.
  - simpl in Hnd. apply NoDup_app in Hnd as (Hg & Hdisj & Hrest).
    destruct (IH Hrest) as [Hbests Hin].
    split.
    + apply NoDup_cons. split; [|exact Hbests].
      intros Hmem. apply (Hdisj b Hb). apply Hin. exact Hmem.
    + intros b' Hb'. simpl. apply elem_of_app.
      apply elem_of_cons in Hb' as [->|Hb']; [left; exact Hb | right; auto].
Qed.

Lemma concat_singletons (l : list nat) : concat ((fun i => [i]) <$> l) = l.
Proof. induction l as [|i l IH]; [reflexivity|]. simpl. f_equal. exact IH. Qed.

(** The groups, singletons included, split the indices. *)
Lemma all_groups_partition (n : nat) (groups : list (list nat)) :
  NoDup (concat groups) ->
  (forall x, x ∈ concat groups -> (x < n)%nat) ->
  concat (all_groups n groups) ≡ₚ seq 0 n.
Proof.
  intros Hnd Hrange. unfold all_groups. rewrite concat_app, concat_singletons.
  apply NoDup_Permutation.
  - apply NoDup_app. split; [exact Hnd|]. split.
    + intros x Hx Hin. apply list_elem_of_filter in Hin as [Hnot _].
      contradiction.
    + apply NoDup_filter, NoDup_seq.
  - apply NoDup_seq.
  - intros x. rewrite elem_of_app, list_elem_of_filter, elem_of_seq.
    split.
    + intros [Hx|[_ Hx]]; [apply Hrange in Hx|]; lia.
    + intros Hx. destruct (decide (x ∈ concat groups)); [left|right]; tauto.
Qed.

Lemma select_best_jobs_spec (jobs : list Job) (groups : list (list nat)) :
  NoDup (concat groups) ->
  (forall x, x ∈ concat groups -> (x < length jobs)%nat) ->
  Forall (fun g => (1 < length g)%nat) groups ->
  exists unique,
    _select_best_jobs jobs groups = Returned unique
    /\ unique `sublist_of` jobs
    /\ length unique = length (all_groups (length jobs) groups).
Proof.
  intros Hnd Hrange Hlen.
  destruct (select_from_groups_spec jobs groups ∅) as (bests & sel & Hsel & Hmem & Hall).
  { eapply Forall_impl; [exact Hlen|]. intros g Hg. simpl in Hg. lia. }
  { exact Hrange. }
  destruct (bests_nodup bests groups Hall Hnd) as [Hbests Hin].
  set (picked := sorted_indices (add_ungrouped (length jobs) groups sel)).
  assert (Hpicked : forall x, x ∈ picked
            <-> x ∈ bests
                \/ x ∈ filter (fun i => i ∉ concat groups) (seq 0 (length jobs))).
  { intros x. subst picked.
    rewrite elem_of_sorted_indices, add_ungrouped_spec, Hmem,
      list_elem_of_filter, elem_of_seq, elem_of_empty.
    split; [intros [[H|[]]|[H1 H2]] | intros [H|[H1 H2]]];
      try (left; left; exact H); try (left; exact H);
      right; split; try assumption; lia. }
  destruct (gather_sublist jobs picked 0) as (unique & Hgather & Hsub & Hlength).
  { apply sorted_indices_strict. }
  { apply Forall_forall. intros x Hx. apply Hpicked in Hx as [Hx|Hx].
    - pose proof (Hrange x (Hin x Hx)). lia.
    - apply list_elem_of_filter in Hx as [_ Hx]. apply elem_of_seq in Hx. lia. }
  exists unique. unfold _select_best_jobs. rewrite Hsel. cbn.
  fold picked. split; [exact Hgather|]. split; [exact Hsub|].
  rewrite Hlength. unfold all_groups. rewrite length_app, length_fmap.
  rewrite <- (Forall2_length _ _ _ Hall). rewrite <- length_app.
  apply Permutation_length. apply NoDup_Permutation.
  - apply sorted_indices_nodup.
  - apply NoDup_app. split; [exact Hbests|]. split.
    + intros x Hx Hf. apply list_elem_of_filter in Hf as [Hnot _].
      apply Hnot. apply Hin. exact Hx.
    + apply NoDup_filter, NoDup_seq.
  - intros x. rewrite Hpicked, elem_of_app. reflexivity.
Qed.

(** What every run of [deduplicate_jobs] returns. *)
Lemma deduplicate_jobs_spec (self : JobDeduplicator) (jobs : list Job) :
  exists r,
    snd (deduplicate_jobs self jobs) = Returned r
    /\ unique_jobs r `sublist_of` jobs
    /\ NoDup (concat (duplicate_groups r))
    /\ (forall x, x ∈ concat (duplicate_groups r) -> (x < length jobs)%nat)
    /\ Forall (fun g => (1 < length g)%nat) (duplicate_groups r)
    /\ length (unique_jobs r)
       = length (all_groups (length jobs) (duplicate_groups r))
    /\ duplicates_removed r = (length jobs - length (unique_jobs r))%nat.
Proof.
  destruct jobs as [|job jobs].
  - eexists. split; [reflexivity|]. cbn.
    split; [constructor|]. split; [constructor|].
    split; [intros x Hx; apply elem_of_nil in Hx; contradiction|].
    split; [constructor|]. split; reflexivity.
  - set (all_jobs := job :: jobs).
    destruct (duplicate_groups_spec self all_jobs) as (Hnd & Hrange & Hlen).
    destruct (select_best_jobs_spec all_jobs _ Hnd Hrange Hlen)
      as (unique & Hunique & Hsub & Hlength).
    eexists. unfold deduplicate_jobs. fold all_jobs. cbv zeta.
    rewrite Hunique. cbn [snd unique_jobs duplicate_groups duplicates_removed].
    split; [reflexivity|]. repeat (split; [assumption|]). reflexivity.
Qed.

End SelectFacts.

Section FixpointFacts.

Import Dedup.

Lemma group_append_fresh (groups : list (string * list nat))
    (fingerprint : string) (i : nat) :
  fingerprint ∉ fst <$> groups ->
  group_append groups fingerprint i
  = (groups ++ [(fingerprint, [i])])%list.
Proof.
  induction groups as [|[f g] rest IH]; intros Hfresh; [reflexivity|].
  simpl in *. apply not_elem_of_cons in Hfresh as [Hne Hfresh].
  destruct (String.eqb f fingerprint) eqn:E.
  - apply String.eqb_eq in E. congruence.
  - rewrite (IH Hfresh). reflexivity.
Qed.

Lemma fingerprint_groups_fresh (entries : list entry)
    (groups : list (string * list nat)) :
  NoDup ((fst <$> groups) ++ ((fun e : entry => e.1.2) <$> entries)) ->
  foldl (fun groups '(i, fingerprint, _) => group_append groups fingerprint i)
        groups entries
  = (groups ++ ((fun e : entry => (e.1.2, [e.1.1])) <$> entries))%list.
Proof.
  revert groups. induction entries as [|[[i f] job] entries IH]; intros groups Hnd.
  - simpl. rewrite app_nil_r. reflexivity.
  - cbn [foldl]. rewrite fmap_cons in Hnd. simpl in Hnd.
    rewrite group_append_fresh.
    + rewrite IH.
      * rewrite <- app_assoc. reflexivity.
      * rewrite fmap_app, <- app_assoc. exact Hnd.
    + apply NoDup_app in Hnd as (_ & Hdisj & _). intros Hin.
      apply (Hdisj f Hin). apply elem_of_cons. left. reflexivity.
Qed.

Lemma fingerprints_imap (jobs : list Job) (k : nat) :
  (fun e : entry => e.1.2)
    <$> imap (fun i job => ((k + i)%nat, _generate_fingerprint job, job)) jobs
  = _generate_fingerprint <$> jobs.
Proof.
  revert k. induction jobs as [|job jobs IH]; intros k; [reflexivity|].
  cbn [imap]. rewrite !fmap_cons. simpl. f_equal. rewrite <- (IH (S k)).
  f_equal. apply imap_ext. intros i x _. simpl. f_equal. f_equal. lia.
Qed.

Lemma fingerprints_job_fingerprints (jobs : list Job) :
  (fun e : entry => e.1.2) <$> job_fingerprints jobs
  = _generate_fingerprint <$> jobs.
Proof. exact (fingerprints_imap jobs 0). Qed.

Lemma distinct_fingerprints (self : JobDeduplicator) (jobs : list Job) :
  distinct_listings self jobs -> NoDup (_generate_fingerprint <$> jobs).
Proof.
  unfold distinct_listings. induction 1 as [|job jobs Hs IH Hall].
  - constructor.
  - rewrite fmap_cons. apply NoDup_cons. split; [|exact IH].
    intros Hin. apply list_elem_of_fmap in Hin as (other & Heq & Hother).
    pose proof (proj1 (Forall_forall _ _) Hall other Hother) as [Hne _].
    contradiction.
Qed.

Lemma no_exact_duplicates (self : JobDeduplicator) (jobs : list Job) :
  distinct_listings self jobs ->
  _find_exact_duplicates (job_fingerprints jobs) = [].
Proof.
  intros Hdist. unfold _find_exact_duplicates, fingerprint_groups.
  rewrite fingerprint_groups_fresh.
  - rewrite app_nil_l.
    induction (job_fingerprints jobs) as [|e es IH]; [reflexivity|].
    rewrite !fmap_cons, filter_cons.
    rewrite decide_False by (simpl; lia). exact IH.
  - rewrite fmap_nil, app_nil_l, fingerprints_job_fingerprints.
    apply (distinct_fingerprints self). exact Hdist.
Qed.

Lemma fuzzy_inner_none (self : JobDeduplicator) (current_job : Job)
    (others : list entry) (processed : gset nat) (group : list nat)
    (checks : nat) :
  Forall (fun e : entry =>
            Qgeb (_calculate_similarity current_job e.2)
                 (similarity_threshold self) = false) others ->
  exists checks',
    fuzzy_inner self current_job others processed group checks
    = (processed, group, checks').
Proof.
  revert checks. induction others as [|[[j f] other_job] rest IH];
    intros checks Hall.
  - exists checks. reflexivity.
  - apply Forall_cons in Hall as [Hj Hall]. simpl in Hj.
    cbn [fuzzy_inner]. destruct (bool_decide (j ∈ processed)).
    + apply IH. exact Hall.
    + rewrite Hj. apply IH. exact Hall.
Qed.

Lemma fuzzy_outer_none (self : JobDeduplicator) (entries : list entry)
    (st : fuzzy_state) :
  StronglySorted
    (fun e1 e2 : entry =>
       Qgeb (_calculate_similarity e1.2 e2.2) (similarity_threshold self)
       = false) entries ->
  fuzzy_groups (fuzzy_outer self entries st) = fuzzy_groups st.
Proof.
  revert st. induction entries as [|[[i f] current_job] rest IH]; intros st Hs;
    [reflexivity|].
  apply StronglySorted_inv in Hs as [Hs Hall].
  cbn [fuzzy_outer]. destruct (bool_decide (i ∈ processed_indices st)).
  - apply IH. exact Hs.
  - destruct (fuzzy_inner_none self current_job rest (processed_indices st) [i]
                (similarity_checks st) Hall) as [checks' Heq].
    rewrite Heq. cbn. rewrite IH by exact Hs. reflexivity.
Qed.

Lemma entries_sorted (R : Job -> Job -> Prop) (jobs : list Job) (k : nat) :
  StronglySorted R jobs ->
  StronglySorted (fun e1 e2 : entry => R e1.2 e2.2)
    (imap (fun i job => ((k + i)%nat, _generate_fingerprint job, job)) jobs).
Proof.
  intros Hs. revert k. induction Hs as [|job jobs Hs IH Hall]; intros k.
  - constructor.
  - cbn [imap]. constructor.
    + rewrite (imap_ext _ (fun i job => ((S k + i)%nat, _generate_fingerprint job, job))).
      * apply IH.
      * intros i x _. simpl. f_equal. f_equal. lia.
    + apply Forall_forall. intros e He. simpl.
      assert (Hin : e.2 ∈ jobs).
      { rewrite <- (jobs_of_imap jobs (S k)).
        apply list_elem_of_fmap. exists e. split; [reflexivity|].
        rewrite (imap_ext _ (fun i job => ((k + S i)%nat, _generate_fingerprint job, job))).
        - exact He.
        - intros i x _. simpl. f_equal. f_equal. lia. }
      apply (proj1 (Forall_forall _ _) Hall). exact Hin.
Qed.

Lemma gather_seq (pre jobs : list Job) :
  gather (pre ++ jobs) (seq (length pre) (length jobs)) = Returned jobs.
Proof.
  revert pre. induction jobs as [|job jobs IH]; intros pre; [reflexivity|].
  cbn [length seq gather].
  rewrite (index_lookup _ _ job) by apply list_lookup_middle, eq_refl. cbn.
  replace (pre ++ job :: jobs)%list with ((pre ++ [job]) ++ jobs)%list
    by (rewrite <- app_assoc; reflexivity).
  replace (S (length pre)) with (length (pre ++ [job]))
    by (rewrite length_app; simpl; lia).
  rewrite IH. reflexivity.
Qed.

Lemma select_without_groups (jobs : list Job) :
  _select_best_jobs jobs [] = Returned jobs.
Proof.
  unfold _select_best_jobs. cbn.
  assert (Hidx : sorted_indices (add_ungrouped (length jobs) [] ∅)
                 = seq 0 (length jobs)).
  { apply (StronglySorted_unique_strong lt).
    - intros x1 x2 _ _ H1 H2. lia.
    - apply sorted_indices_strict.
    - clear. generalize 0%nat. induction (length jobs) as [|n IH]; intros k.
      + constructor.
      + simpl. constructor; [apply IH|].
        apply Forall_forall. intros x Hx. apply elem_of_seq in Hx. lia.
    - apply NoDup_Permutation; [apply sorted_indices_nodup | apply NoDup_seq |].
      intros x. rewrite elem_of_sorted_indices, add_ungrouped_spec, elem_of_seq.
      simpl. rewrite elem_of_empty, elem_of_nil. intuition lia. }
  rewrite Hidx. apply (gather_seq [] jobs).
Qed.

(** A list of distinct listings comes back as it is. *)
Lemma deduplicate_distinct (self : JobDeduplicator) (jobs : list Job) :
  distinct_listings self jobs ->
  unique_of (deduplicate_jobs self jobs) = Some jobs.
Proof.
  intros Hdist. destruct jobs as [|job jobs]; [reflexivity|].
  set (all_jobs := job :: jobs) in *.
  unfold unique_of, deduplicate_jobs. fold all_jobs. cbv zeta.
  rewrite (no_exact_duplicates self all_jobs Hdist).
  unfold _find_fuzzy_duplicates. rewrite fuzzy_outer_none.
  - cbn [fuzzy_groups app]. rewrite select_without_groups. reflexivity.
  - unfold job_fingerprints.
    apply (entries_sorted
             (fun a b => Qgeb (_calculate_similarity a b)
                              (similarity_threshold self) = false) all_jobs 0).
    eapply strongly_sorted_weaken; [|exact Hdist].
    intros a b [_ H]. exact H.
Qed.

Lemma deduplicate_keeps_threshold (self : JobDeduplicator) (jobs : list Job) :
  similarity_threshold (fst (deduplicate_jobs self jobs))
  = similarity_threshold self.
Proof.
  unfold deduplicate_jobs. destruct jobs; [reflexivity|].
  cbv zeta. destruct (_select_best_jobs _ _); reflexivity.
Qed.

End FixpointFacts.

(** C3: every run of [deduplicate_jobs] returns, and its groups, the
    listings outside every duplicate group counted as singleton groups,
    hold every index of the input exactly once; no group is empty and one
    listing is returned per group. *)
Theorem deduplicate_partition (self : JobDeduplicator) (jobs : list Job) :
  exists r,
    snd (Dedup.deduplicate_jobs self jobs) = Returned r
    /\ let groups := all_groups (length jobs) (duplicate_groups r) in
       concat groups ≡ₚ seq 0 (length jobs)
       /\ Forall (fun g => g <> []) groups
       /\ length (unique_jobs r) = length groups.
Proof.
  destruct (deduplicate_jobs_spec self jobs)
    as (r & Hr & _ & Hnd & Hrange & Hlen & Hcount & _).
  exists r. split; [exact Hr|]. cbv zeta.
  split; [apply all_groups_partition; assumption|].
  split; [|exact Hcount].
  unfold all_groups. apply Forall_app. split.
  - eapply Forall_impl; [exact Hlen|]. intros g Hg ->. simpl in Hg. lia.
  - apply Forall_fmap, Forall_forall. intros i _. discriminate.
Qed.

(** C10: every run of [deduplicate_jobs] returns a sub-sequence of its
    input: listings of the input, unchanged, in the order of the input. *)
Theorem deduplicate_selects (self : JobDeduplicator) (jobs : list Job) :
  exists r,
    snd (Dedup.deduplicate_jobs self jobs) = Returned r
    /\ unique_jobs r `sublist_of` jobs.
Proof.
  destruct (deduplicate_jobs_spec self jobs) as (r & Hr & Hsub & _).
  exists r. split; assumption.
Qed.

(** C4 (as stated, refuted): the same posting from two sources and once
    more with a shorter location.  The first run keeps one of the exact
    duplicates and the third listing, which it never compared with them; a
    run over that output merges the two. *)
Lemma deduplicate_not_idempotent :
  unique_of (Dedup.deduplicate_jobs Dedup.init
               [techcorp_job; techcorp_job; techcorp_job_dhaka])
  = Some [techcorp_job; techcorp_job_dhaka]
  /\ unique_of (Dedup.deduplicate_jobs Dedup.init
                  [techcorp_job; techcorp_job_dhaka])
     = Some [techcorp_job]
  /\ [techcorp_job] <> [techcorp_job; techcorp_job_dhaka].
Proof.
  split; [vm_compute; reflexivity|]. split; [vm_compute; reflexivity|].
  discriminate.
Qed.

(** C4 (amended): when the listings a run returns are distinct (no two share
    a fingerprint, none reaches the similarity threshold with a later one),
    a second run over them returns the same list. *)
Theorem deduplicate_idempotent_on_distinct (self : JobDeduplicator)
    (jobs unique : list Job) :
  unique_of (Dedup.deduplicate_jobs self jobs) = Some unique ->
  distinct_listings self unique ->
  unique_of (Dedup.deduplicate_jobs (fst (Dedup.deduplicate_jobs self jobs)) unique)
  = Some unique.
Proof.
  intros _ Hdist. apply deduplicate_distinct.
  unfold distinct_listings in *. rewrite deduplicate_keeps_threshold.
  exact Hdist.
Qed.

(** The same posting from two sources, and another posting. *)
Lemma deduplicate_idempotent_on_distinct_witness :
  unique_of
    (Dedup.deduplicate_jobs
       (fst (Dedup.deduplicate_jobs Dedup.init
               [techcorp_job; techcorp_job; python_job]))
       [techcorp_job; python_job])
  = Some [techcorp_job; python_job].
Proof.
  apply (deduplicate_idempotent_on_distinct Dedup.init
           [techcorp_job; techcorp_job; python_job] [techcorp_job; python_job]).
  - vm_compute. reflexivity.
  - repeat constructor; vm_compute; discriminate.
Defined.

(** * Further properties *)

(** ** Further properties of the tracker *)

Section WindowFacts.

Import Tracker.

Lemma deque_append_most_recent {A} (n : nat) (l : list A) (x : A) :
  deque_append n (most_recent n l) x = most_recent n (l ++ [x]).
Proof.
  unfold deque_append, most_recent. rewrite length_drop, length_app. simpl.
  destruct (decide (length l < n)%nat) as [Hlt|Hge].
  - replace (length l - n)%nat with 0%nat by lia.
    replace (length l + 1 - n)%nat with 0%nat by lia.
    rewrite Nat.sub_0_r. simpl.
    replace (length l + 1 - n)%nat with 0%nat by lia. reflexivity.
  - replace (length l - (length l - n) + 1 - n)%nat with 1%nat by lia.
    destruct (decide (n = 0)%nat) as [->|Hn].
    + rewrite Nat.sub_0_r, drop_all. simpl.
      rewrite drop_ge; [reflexivity|]. rewrite length_app. simpl. lia.
    + rewrite drop_app_le by (rewrite length_drop; lia).
      rewrite drop_drop.
      rewrite (drop_app_le l [x]) by lia.
      f_equal. f_equal. lia.
Qed.

Lemma record_request_entry (self : PerformanceTracker) (sid : string)
    (r : RequestResult) :
  history_of (fst (record_request self (timestamp r) sid (success r)
                     (response_time r) (jobs_found r))) sid
  = deque_append (history_size self) (history_of self sid) r.
Proof. rewrite record_request_history. destruct r. reflexivity. Qed.

Lemma record_request_size (self : PerformanceTracker) (now : Q) (sid : string)
    (ok : bool) (rt : Q) (jf : Z) :
  history_size (fst (record_request self now sid ok rt jf)) = history_size self.
Proof. unfold record_request. rewrite update_metrics_history_size. reflexivity. Qed.

Lemma record_requests_window (calls : list (string * RequestResult))
    (self : PerformanceTracker) (sid : string) (past : list RequestResult) :
  history_of self sid = most_recent (history_size self) past ->
  history_of (record_requests self calls) sid
  = most_recent (history_size self) (past ++ requests_of sid calls).
Proof.
  revert self past. induction calls as [|[s r] calls IH]; intros self past Hpast.
  - unfold requests_of. simpl. rewrite app_nil_r. exact Hpast.
  - unfold record_requests. cbn [foldl]. fold (record_requests
      (fst (record_request self (timestamp r) s (success r) (response_time r)
              (jobs_found r))) calls).
    unfold requests_of. rewrite filter_cons. simpl.
    destruct (decide (s = sid)) as [->|Hne].
    + rewrite fmap_cons. simpl.
      rewrite (IH _ (past ++ [r])%list).
      * rewrite record_request_size, <- app_assoc. reflexivity.
      * rewrite record_request_entry, record_request_size, Hpast.
        apply deque_append_most_recent.
    + rewrite (IH _ past).
      * rewrite record_request_size. reflexivity.
      * rewrite record_request_history_other by congruence.
        rewrite record_request_size. exact Hpast.
Qed.

Lemma record_requests_metrics (calls : list (string * RequestResult))
    (self : PerformanceTracker) :
  source_metrics (record_requests self calls) = source_metrics self.
Proof.
  revert self. induction calls as [|[s r] calls IH]; intros self; [reflexivity|].
  unfold record_requests in *. cbn [foldl]. rewrite IH.
  apply record_request_keeps_metrics.
Qed.

End WindowFacts.

(** X1: on a tracker created with window size [n], after any sequence of
    calls, whatever their outcome, the window of each source is the last [n]
    entries recorded for that source, oldest first. *)
Theorem window_holds_most_recent (n : nat)
    (calls : list (string * RequestResult)) (sid : string) :
  Tracker.history_of (record_requests (PerformanceTracker_init n) calls) sid
  = most_recent n (requests_of sid calls).
Proof.
  apply (record_requests_window calls (PerformanceTracker_init n) sid []).
  reflexivity.
Qed.

Lemma int_true_div_pos (a b : Z) :
  (0 < b)%Z ->
  int_true_div a b
  = if (float_limit * b <=? Z.abs a)%Z
    then Raised (OverflowError "integer division result too large for a float")
    else Returned (inject_Z a / inject_Z b).
Proof.
  intros Hb. unfold int_true_div.
  destruct (Z.eqb_spec b 0) as [->|_]; [lia|].
  rewrite (Z.abs_eq b) by lia. reflexivity.
Qed.

Lemma record_request_result (self : PerformanceTracker) (now : Q)
    (sid : string) (ok : bool) (rt : Q) (jf : Z) :
  let run := Tracker.record_request self now sid ok rt jf in
  let window := Tracker.history_of (fst run) sid in
  source_metrics (fst run) = source_metrics self
  /\ snd run
     = (if decide (history_size self = 0%nat) then Returned tt
        else if jobs_average_overflows window
        then Raised
               (OverflowError "integer division result too large for a float")
        else Raised
               (TypeError "missing 1 required positional argument: 'source_type'"))
  /\ (history_size self = 0%nat -> window = []).
Proof.
  intros run window. subst run window.
  split; [apply record_request_keeps_metrics|].
  assert (Hw : Tracker.history_of
                 {| history_size := history_size self;
                    performance_history :=
                      <[sid := deque_append (history_size self)
                                 (Tracker.history_of self sid)
                                 {| timestamp := now; success := ok;
                                    response_time := rt; jobs_found := jf |}]>
                        (performance_history self);
                    source_metrics := source_metrics self |} sid
               = deque_append (history_size self) (Tracker.history_of self sid)
                   {| timestamp := now; success := ok; response_time := rt;
                      jobs_found := jf |}).
  { unfold Tracker.history_of at 1. simpl. rewrite lookup_insert_eq. reflexivity. }
  split.
  - rewrite record_request_history.
    unfold Tracker.record_request, Tracker._update_metrics. rewrite Hw.
    destruct (decide (history_size self = 0%nat)) as [Hz|Hnz].
    + rewrite Hz. unfold deque_append. rewrite drop_ge; [reflexivity|].
      rewrite length_app. simpl. lia.
    + destruct (deque_append _ _ _) as [|r l] eqn:E.
      * exfalso. apply (f_equal length) in E. unfold deque_append in E.
        rewrite length_drop, length_app in E. simpl in E. lia.
      * unfold jobs_average_overflows.
        rewrite int_true_div_pos by (cbn [length]; lia).
        destruct (_ <=? _)%Z; [reflexivity|].
        rewrite metrics_init_raises. reflexivity.
  - intros Hz. rewrite record_request_history, Hz. unfold deque_append.
    rewrite drop_ge; [reflexivity|]. rewrite length_app. simpl. lia.
Qed.


Example huge_yield_overflows :
  snd (Tracker.record_request (PerformanceTracker_init 100) 0 "web_search"
         true 2.5 (10 ^ 400))
  = Raised (OverflowError "integer division result too large for a float").
Proof. vm_compute. reflexivity. Qed.

Section ScoreFacts.

Import Tracker.

Lemma py_max_ge_l (a b : Q) : a <= py_max a b.
Proof. unfold py_max. destruct (Qlt_le_dec a b); lra. Qed.

Lemma py_max_cases (a b : Q) :
  (a < b /\ py_max a b = b) \/ (b <= a /\ py_max a b = a).
Proof. unfold py_max. destruct (Qlt_le_dec a b); [left|right]; split; auto. Qed.

Lemma py_min_cases (a b : Q) :
  (b < a /\ py_min a b = b) \/ (a <= b /\ py_min a b = a).
Proof. unfold py_min. destruct (Qlt_le_dec b a); [left|right]; split; auto. Qed.

Lemma Qdiv_30 (x : Q) : x / 30.0 == x * (1 # 30).
Proof.
  unfold Qdiv. assert (H : / 30.0 == 1 # 30) by reflexivity.
  rewrite H. reflexivity.
Qed.

Lemma Qdiv_20 (x : Q) : x / 20.0 == x * (1 # 20).
Proof.
  unfold Qdiv. assert (H : / 20.0 == 1 # 20) by reflexivity.
  rewrite H. reflexivity.
Qed.

Lemma Qsum_from (a : Q) (l : list Q) : foldl Qplus a l == a + Qsum l.
Proof.
  unfold Qsum. revert a. induction l as [|x l IH]; intros a; simpl.
  - lra.
  - rewrite IH, (IH (0 + x)). lra.
Qed.

Lemma Qsum_nonneg (l : list Q) : Forall (fun x => 0 <= x) l -> 0 <= Qsum l.
Proof.
  induction 1 as [|x l Hx Hl IH]; [unfold Qsum; simpl; lra|].
  unfold Qsum. simpl. rewrite Qsum_from. lra.
Qed.

Lemma Zsum_from (a : Z) (l : list Z) :
  foldl Z.add a l = (a + foldl Z.add 0 l)%Z.
Proof.
  revert a. induction l as [|x l IH]; intros a; simpl; [lia|].
  rewrite IH, (IH (0 + x)%Z). lia.
Qed.

Lemma Zsum_nonneg (l : list Z) :
  Forall (fun x => (0 <= x)%Z) l -> (0 <= foldl Z.add 0 l)%Z.
Proof.
  induction 1 as [|x l Hx Hl IH]; simpl; [lia|]. rewrite Zsum_from. lia.
Qed.

Lemma successful_le_total (history : list RequestResult) :
  (0 <= successful_requests history <= Z.of_nat (length history))%Z.
Proof.
  unfold successful_requests. pose proof (length_filter (fun r => success r = true) history).
  lia.
Qed.

Lemma Qdiv_nonneg (a b : Q) : 0 <= a -> 0 < b -> 0 <= a / b.
Proof.
  intros Ha Hb. unfold Qdiv. apply Qmult_le_0_compat; [exact Ha|].
  apply Qlt_le_weak, Qinv_lt_0_compat. exact Hb.
Qed.

Lemma Qdiv_le_1 (a b : Q) : a <= b -> 0 < b -> a / b <= 1.
Proof.
  intros Hab Hb. apply Qle_shift_div_r; [exact Hb|]. lra.
Qed.

Lemma Qgtb_lt (a b : Q) : Qgtb a b = true <-> b < a.
Proof.
  unfold Qgtb. rewrite negb_true_iff. split.
  - intros H. apply Qnot_le_lt. intros Hle. apply Qle_bool_iff in Hle. congruence.
  - intros H. destruct (Qle_bool a b) eqn:E; [|reflexivity].
    apply Qle_bool_iff in E. lra.
Qed.

Lemma priority_score_range (sr rt jf : Q) :
  0 <= sr <= 1 -> 0 <= rt -> 0 <= jf ->
  0 <= _calculate_priority_score sr rt jf <= 1.
Proof.
  intros Hsr Hrt Hjf. unfold _calculate_priority_score.
  destruct (py_max_cases 0 (1 - rt / 30.0)) as [[H1 ->]|[H1 ->]];
    destruct (py_min_cases 1 (jf / 20.0)) as [[H2 ->]|[H2 ->]];
    rewrite ?Qdiv_30, ?Qdiv_20 in *; lra.
Qed.

End ScoreFacts.

(** X3: for a success rate in [0, 1], a response time and a yield that are
    not negative, the priority score lies in [0, 1]. *)
Theorem priority_score_bounds (success_rate response_time jobs_found : Q) :
  0 <= success_rate <= 1 -> 0 <= response_time -> 0 <= jobs_found ->
  0 <= Tracker._calculate_priority_score success_rate response_time jobs_found
  <= 1.
Proof. apply priority_score_range. Qed.

Lemma priority_score_bounds_witness :
  0 <= Tracker._calculate_priority_score (1 # 2) 45 50 <= 1.
Proof. apply priority_score_bounds; lra. Defined.

(** X4: the priority score does not fall when the success rate or the yield
    rises or the response time falls; response times from 30 seconds on earn
    no speed credit and yields from 20 jobs on earn the full yield credit. *)
Theorem priority_score_monotone (sr sr' rt rt' jf jf' : Q) :
  sr <= sr' -> rt' <= rt -> jf <= jf' ->
  Tracker._calculate_priority_score sr rt jf
  <= Tracker._calculate_priority_score sr' rt' jf'
  /\ (30 <= rt ->
      Tracker._calculate_priority_score sr rt jf
      == Tracker._calculate_priority_score sr 30 jf)
  /\ (20 <= jf ->
      Tracker._calculate_priority_score sr rt jf
      == Tracker._calculate_priority_score sr rt 20).
Proof.
  intros Hsr Hrt Hjf. unfold Tracker._calculate_priority_score.
  split; [|split].
  - destruct (py_max_cases 0 (1 - rt / 30.0)) as [[H1 ->]|[H1 ->]];
      destruct (py_max_cases 0 (1 - rt' / 30.0)) as [[H2 ->]|[H2 ->]];
      destruct (py_min_cases 1 (jf / 20.0)) as [[H3 ->]|[H3 ->]];
      destruct (py_min_cases 1 (jf' / 20.0)) as [[H4 ->]|[H4 ->]];
      rewrite ?Qdiv_30, ?Qdiv_20 in *; lra.
  - intros H30.
    destruct (py_max_cases 0 (1 - rt / 30.0)) as [[H1 ->]|[H1 ->]];
      destruct (py_max_cases 0 (1 - 30 / 30.0)) as [[H2 ->]|[H2 ->]];
      rewrite ?Qdiv_30 in *; lra.
  - intros H20.
    destruct (py_min_cases 1 (jf / 20.0)) as [[H1 ->]|[H1 ->]];
      destruct (py_min_cases 1 (20 / 20.0)) as [[H2 ->]|[H2 ->]];
      rewrite ?Qdiv_20 in *; lra.
Qed.

Lemma priority_score_monotone_witness :
  Tracker._calculate_priority_score (1 # 2) 40 25
  <= Tracker._calculate_priority_score (3 # 4) 10 30.
Proof. apply (priority_score_monotone (1 # 2) (3 # 4) 40 10 25 30); lra. Defined.

(** X5: the metrics derived from a non-empty window: the success rate lies
    in [0, 1]; failures and successes add up to the number of requests; the
    availability flag is set exactly when more than 30% of the requests
    succeeded; and when no entry has a negative response time or yield the
    priority score lies in [0, 1]. *)
Theorem window_metrics (sid : string) (history : list RequestResult) :
  history <> [] ->
  let kw := Tracker.metrics_kwargs sid history in
  let total := Z.of_nat (length history) in
  let ok := Tracker.successful_requests history in
  exists rate score,
    kw_success_rate kw = Some rate
    /\ kw_priority_score kw = Some score
    /\ 0 <= rate <= 1
    /\ kw_total_requests kw = Some total
    /\ kw_failure_count kw = Some (total - ok)%Z
    /\ (0 <= total - ok <= total)%Z
    /\ (kw_is_available kw = Some true <-> (3 * total < 10 * ok)%Z)
    /\ (Forall (fun r => 0 <= response_time r /\ (0 <= jobs_found r)%Z) history ->
        0 <= score <= 1).
Proof.
  intros Hne kw total ok.
  assert (Htotal : (0 < total)%Z).
  { subst total. destruct history; [congruence | simpl; lia]. }
  pose proof (Tracker_successful := successful_le_total history).
  fold total ok in Tracker_successful.
  assert (Hpos : (0 <? total)%Z = true) by (apply Z.ltb_lt; exact Htotal).
  assert (HtotalQ : 0 < inject_Z total).
  { replace 0 with (inject_Z 0) by reflexivity. rewrite <- Zlt_Qlt. exact Htotal. }
  assert (Hrate : 0 <= inject_Z ok / inject_Z total <= 1).
  { split.
    - apply Qdiv_nonneg; [|exact HtotalQ].
      replace 0 with (inject_Z 0) by reflexivity. rewrite <- Zle_Qle. lia.
    - apply Qdiv_le_1; [|exact HtotalQ]. rewrite <- Zle_Qle. lia. }
  eexists _, _. subst kw. unfold Tracker.metrics_kwargs. cbn -[Qdiv Qsum].
  fold total ok. rewrite Hpos.
  split; [reflexivity|]. split; [reflexivity|]. split; [exact Hrate|].
  split; [reflexivity|]. split; [reflexivity|]. split; [lia|]. split.
  - assert (Hq : 0.3 < inject_Z ok / inject_Z total
                 <-> (3 * total < 10 * ok)%Z).
    { assert (Hmul : inject_Z ok / inject_Z total * inject_Z total
                     == inject_Z ok) by (field; lra).
      rewrite Zlt_Qlt, !inject_Z_mult.
      change (inject_Z 10) with 10. change (inject_Z 3) with 3.
      split.
      - intros H.
        assert (0.3 * inject_Z total
                < inject_Z ok / inject_Z total * inject_Z total)
          by (apply Qmult_lt_compat_r; assumption).
        lra.
      - intros H. apply Qlt_shift_div_l; [exact HtotalQ|]. lra. }
    rewrite <- Hq, <- Qgtb_lt.
    split; [intros H; injection H as H; exact H | intros H; f_equal; exact H].
  - intros Hall. apply priority_score_range; [exact Hrate | |].
    + apply Qdiv_nonneg; [|exact HtotalQ]. apply Qsum_nonneg.
      apply Forall_fmap. eapply Forall_impl; [exact Hall|]. intros r [H _]. exact H.
    + apply Qdiv_nonneg; [|exact HtotalQ].
      replace 0 with (inject_Z 0) by reflexivity. rewrite <- Zle_Qle.
      apply Zsum_nonneg. apply Forall_fmap.
      eapply Forall_impl; [exact Hall|]. intros r [_ H]. exact H.
Qed.

(** One success in six requests: not available. *)
Lemma window_metrics_witness :
  kw_is_available
    (Tracker.metrics_kwargs "web_search"
       ((fun ok => {| timestamp := 0; success := ok; response_time := 2.5;
                      jobs_found := 8%Z |}) <$> scenario_D))
  <> Some true.
Proof.
  set (h := (fun ok => {| timestamp := 0; success := ok; response_time := 2.5;
                          jobs_found := 8%Z |}) <$> scenario_D).
  assert (Hne : h <> []) by discriminate.
  destruct (window_metrics "web_search" h Hne)
    as (rate & score & _ & _ & _ & _ & _ & _ & Havail & _).
  intros H. apply Havail in H. vm_compute in H. discriminate H.
Defined.

(** ** Further properties of the router *)

Section RouterFacts.

Import Router.

Lemma select_sources_ext (self self' : IntelligentSourceRouter)
    (parsed : ParsedQuery) (m : Z) :
  available_sources self' = available_sources self ->
  source_metrics (performance_tracker self')
  = source_metrics (performance_tracker self) ->
  select_sources self' parsed m = select_sources self parsed m.
Proof.
  intros Hcat Hmet. unfold select_sources, _get_available_sources.
  unfold Tracker.get_source_metrics. rewrite Hcat, Hmet. reflexivity.
Qed.

Lemma record_source_result_raising (self : IntelligentSourceRouter) (now : Q)
    (sid : string) (ok : bool) (rt : Q) (jf : Z) :
  (0 < history_size (performance_tracker self))%nat ->
  fst (record_source_result self now sid ok rt jf)
  = set_tracker self
      (fst (Tracker.record_request (performance_tracker self) now sid ok rt jf)).
Proof.
  intros Hpos. unfold record_source_result.
  pose proof (record_request_result (performance_tracker self) now sid ok rt jf)
    as (_ & Hout & _).
  destruct (Tracker.record_request (performance_tracker self) now sid ok rt jf)
    as [t r]. cbn [fst snd] in *. subst r.
  destruct (decide (history_size (performance_tracker self) = 0%nat)); [lia|].
  destruct (jobs_average_overflows _); reflexivity.
Qed.

Lemma record_results_inv (calls : list (string * RequestResult))
    (self : IntelligentSourceRouter) :
  (0 < history_size (performance_tracker self))%nat ->
  available_sources (record_results self calls) = available_sources self
  /\ source_metrics (performance_tracker (record_results self calls))
     = source_metrics (performance_tracker self).
Proof.
  revert self. induction calls as [|[s r] calls IH]; intros self Hpos;
    [split; reflexivity|].
  unfold record_results in *. cbn [foldl].
  rewrite (record_source_result_raising self _ _ _ _ _ Hpos).
  destruct (IH (set_tracker self
                  (fst (Tracker.record_request (performance_tracker self)
                          (timestamp r) s (success r) (response_time r)
                          (jobs_found r))))) as [Hcat Hmet].
  { simpl. rewrite record_request_size. exact Hpos. }
  rewrite Hcat, Hmet. simpl. split; [reflexivity|].
  apply record_request_keeps_metrics.
Qed.

End RouterFacts.

(** X6: on a router whose tracker has a window size above 0, recorded
    results never change the routing: after any sequence of
    [record_source_result] calls the stored metrics are the ones from before
    and [select_sources] answers every query as before. *)
Theorem recorded_results_do_not_change_routing (self : IntelligentSourceRouter)
    (calls : list (string * RequestResult)) (parsed : ParsedQuery) (m : Z) :
  (0 < history_size (performance_tracker self))%nat ->
  source_metrics (performance_tracker (record_results self calls))
  = source_metrics (performance_tracker self)
  /\ Router.select_sources (record_results self calls) parsed m
     = Router.select_sources self parsed m.
Proof.
  intros Hpos. destruct (record_results_inv calls self Hpos) as [Hcat Hmet].
  split; [exact Hmet|]. apply select_sources_ext; assumption.
Qed.

(** Ten failures of the first choice leave it the first choice. *)
Lemma recorded_results_do_not_change_routing_witness :
  Router.select_sources
    (record_results Router.init
       (replicate 10
          ("api_linkedin",
           {| timestamp := 0; success := false; response_time := 30;
              jobs_found := 0%Z |})))
    company_google 5
  = Router.select_sources Router.init company_google 5.
Proof.
  apply (recorded_results_do_not_change_routing Router.init).
  simpl. lia.
Defined.

(** X7: the precedence of [classify_query]: a company decides first; the
    query is location-specific exactly when company and skills are absent
    and a location other than "bangladesh" (in any letter case) is given;
    it is a general search exactly when none of the seven conditions
    holds. *)
Theorem classify_query_precedence (q : ParsedQuery) :
  let located :=
    truthy (location q)
    && negb (String.eqb (lower (default "" (location q))) "bangladesh") in
  (truthy (company q) = true ->
   QueryAnalyzer.classify_query q = COMPANY_SPECIFIC)
  /\ (QueryAnalyzer.classify_query q = LOCATION_SPECIFIC
      <-> truthy (company q) = false /\ skills q = [] /\ located = true)
  /\ (QueryAnalyzer.classify_query q = GENERAL_JOB_SEARCH
      <-> truthy (company q) = false /\ skills q = [] /\ located = false
          /\ remote q = false /\ truthy (salary_range q) = false
          /\ truthy (experience_level q) = false
          /\ job_type q <> Some "recent").
Proof.
  intros located. subst located. unfold QueryAnalyzer.classify_query.
  destruct (truthy (company q)); [repeat split; try discriminate; intros; intuition discriminate|].
  destruct (decide (skills q = [])) as [Hs|Hs].
  2: { rewrite (bool_decide_eq_false_2 _ Hs). simpl.
       repeat split; try discriminate; intros; intuition (try discriminate; try congruence). }
  rewrite (bool_decide_eq_true_2 _ Hs). simpl.
  destruct (truthy (location q) && _);
    [repeat split; try discriminate; intros; intuition discriminate|].
  destruct (remote q); [repeat split; try discriminate; intros; intuition discriminate|].
  destruct (truthy (salary_range q));
    [repeat split; try discriminate; intros; intuition discriminate|].
  destruct (truthy (experience_level q));
    [repeat split; try discriminate; intros; intuition discriminate|].
  destruct (decide (job_type q = Some "recent")) as [Hj|Hj].
  - rewrite (bool_decide_eq_true_2 _ Hj).
    repeat split; try discriminate; intros; intuition (try discriminate; try congruence).
  - rewrite (bool_decide_eq_false_2 _ Hj).
    repeat split; try discriminate; intros; intuition (try discriminate; try congruence).
Qed.

(** A company decides, whatever else the query holds. *)
Lemma classify_query_precedence_witness :
  QueryAnalyzer.classify_query
    {| company := Some "Google"; skills := ["python"];
       location := Some "Dhaka"; remote := true; salary_range := None;
       experience_level := Some "senior"; job_type := Some "recent" |}
  = COMPANY_SPECIFIC.
Proof.
  apply (classify_query_precedence
           {| company := Some "Google"; skills := ["python"];
              location := Some "Dhaka"; remote := true; salary_range := None;
              experience_level := Some "senior"; job_type := Some "recent" |}).
  reflexivity.
Defined.

(** X8: every query type has a profile: SALARY_RANGE and EXPERIENCE_LEVEL,
    which have no entry, get the general profile, every other type its own;
    each profile asks for at least 2 and at most 3 or 4 sources and prefers
    only sources of the catalogue, each once. *)
Theorem query_profile_fallback (qt : QueryType) :
  let profile := QueryAnalyzer.get_query_profile qt in
  (query_type profile
   = if bool_decide (qt ∈ [SALARY_RANGE; EXPERIENCE_LEVEL])
     then GENERAL_JOB_SEARCH else qt)
  /\ (query_type profile = GENERAL_JOB_SEARCH ->
      profile = QueryAnalyzer.general_profile)
  /\ min_sources profile = 2%Z
  /\ (3 <= max_sources profile <= 4)%Z
  /\ NoDup (preferred_sources profile)
  /\ preferred_sources profile ⊆ (fst <$> Router._initialize_sources).
Proof.
  assert (Hkeys : forall l : list string,
            bool_decide (Forall (fun s => s ∈ fst <$> Router._initialize_sources) l)
            = true ->
            l ⊆ (fst <$> Router._initialize_sources)).
  { intros l H s Hs. apply bool_decide_eq_true in H.
    exact (proj1 (Forall_forall _ _) H s Hs). }
  destruct qt; cbv zeta;
    (split; [vm_compute; reflexivity|]);
    (split; [intros H; vm_compute in H; try discriminate H; reflexivity|]);
    (split; [reflexivity|]);
    (split; [vm_compute; split; discriminate|]);
    (split; [apply (bool_decide_eq_true_1 (NoDup _)); vm_compute; reflexivity|]);
    apply Hkeys; vm_compute; reflexivity.
Qed.

Section PySortedFacts.

Context {A K : Type} (le : K -> K -> bool) (key : A -> K).
Hypothesis le_total : forall a b, le a b = false -> le b a = true.
Hypothesis le_trans :
  forall a b c, le a b = true -> le b c = true -> le a c = true.

Lemma sorted_insert_ordered (x : A) (l : list A) :
  StronglySorted (fun a b => le (key a) (key b) = true) l ->
  StronglySorted (fun a b => le (key a) (key b) = true)
    (sorted_insert le key x l).
Proof.
  induction l as [|y ys IH]; intros Hs.
  - repeat constructor.
  - simpl. destruct (le (key x) (key y)) eqn:E.
    + constructor; [exact Hs|].
      apply StronglySorted_inv in Hs as [_ Hall].
      constructor; [exact E|].
      eapply Forall_impl; [exact Hall|]. intros z Hz. simpl in *.
      exact (le_trans _ _ _ E Hz).
    + apply StronglySorted_inv in Hs as [Hs Hall].
      constructor; [apply IH; exact Hs|].
      rewrite sorted_insert_perm. constructor; [|exact Hall].
      apply le_total. exact E.
Qed.

Lemma py_sorted_ordered (l : list A) :
  StronglySorted (fun a b => le (key a) (key b) = true) (py_sorted le key l).
Proof.
  induction l as [|x l IH]; [constructor|].
  unfold py_sorted in *. simpl. apply sorted_insert_ordered. exact IH.
Qed.

Context (same : K -> K -> Prop) `{!Equivalence same}
  `{!forall a b, Decision (same a b)}.
Hypothesis same_le : forall a b, same a b -> le a b = true.

Lemma sorted_insert_stable (k : K) (x : A) (l : list A) :
  filter (fun y => same (key y) k) (sorted_insert le key x l)
  = filter (fun y => same (key y) k) (x :: l).
Proof.
  induction l as [|y ys IH]; [reflexivity|].
  simpl. destruct (le (key x) (key y)) eqn:E; [reflexivity|].
  rewrite (filter_cons _ y), IH, !(filter_cons _ x), (filter_cons _ y).
  destruct (decide (same (key x) k)) as [Hx|Hx]; [|reflexivity].
  destruct (decide (same (key y) k)) as [Hy|Hy]; [|reflexivity].
  exfalso. assert (Hxy : same (key x) (key y)) by (rewrite Hx, Hy; reflexivity).
  apply same_le in Hxy. congruence.
Qed.

Lemma py_sorted_stable (k : K) (l : list A) :
  filter (fun y => same (key y) k) (py_sorted le key l)
  = filter (fun y => same (key y) k) l.
Proof.
  induction l as [|x l IH]; [reflexivity|].
  unfold py_sorted in *. simpl. rewrite sorted_insert_stable, !filter_cons, IH.
  reflexivity.
Qed.

End PySortedFacts.

Section PreferenceFacts.

Import Router.

Lemma preference_map_from (l : list string) (k : nat) (m : gmap string nat)
    (s : string) :
  match (foldl (fun m '(i, source) => <[source := i]> m) m
           (imap (fun i source => ((k + i)%nat, source)) l)) !! s with
  | Some i =>
      (exists j, i = (k + j)%nat /\ l !! j = Some s)
      \/ ((m !! s = Some i) /\ (s ∉ l))
  | None => (s ∉ l) /\ (m !! s = None)
  end.
Proof.
  revert k m. induction l as [|x l IH]; intros k m.
  - simpl. destruct (m !! s) eqn:E.
    + right. split; [reflexivity | apply not_elem_of_nil].
    + split; [apply not_elem_of_nil | reflexivity].
  - cbn [imap foldl].
    rewrite (imap_ext _ (fun i source => ((S k + i)%nat, source)))
      by (intros i y _; simpl; f_equal; lia).
    specialize (IH (S k) (<[x := (k + 0)%nat]> m)).
    destruct ((foldl _ _ _) !! s) as [i|].
    + destruct IH as [(j & -> & Hj)|[Hm Hs]].
      * left. exists (S j). split; [lia | exact Hj].
      * destruct (decide (x = s)) as [->|Hne].
        -- rewrite lookup_insert_eq in Hm. injection Hm as <-.
           left. exists 0%nat. split; [reflexivity | reflexivity].
        -- rewrite lookup_insert_ne in Hm by exact Hne.
           right. split; [exact Hm|]. apply not_elem_of_cons. split; congruence.
    + destruct IH as [Hs Hm].
      destruct (decide (x = s)) as [->|Hne].
      * rewrite lookup_insert_eq in Hm. discriminate.
      * rewrite lookup_insert_ne in Hm by exact Hne.
        split; [|exact Hm]. apply not_elem_of_cons. split; congruence.
Qed.

Lemma preference_key_spec (preferred : list string) (c : Candidate) :
  if decide (cand_id c ∈ preferred)
  then preferred !! preference_key preferred c = Some (cand_id c)
  else preference_key preferred c = length preferred.
Proof.
  unfold preference_key, preference_map.
  pose proof (preference_map_from preferred 0 ∅ (cand_id c)) as H.
  rewrite (imap_ext _ pair) in H by reflexivity.
  destruct ((foldl _ _ _) !! cand_id c) as [i|]; simpl.
  - destruct H as [(j & -> & Hj)|[Hm _]]; [|rewrite lookup_empty in Hm; discriminate].
    rewrite decide_True by (apply list_elem_of_lookup; eauto). exact Hj.
  - destruct H as [Hs _]. rewrite decide_False by exact Hs. reflexivity.
Qed.

Lemma filter_by_preferences_sorted (sources : list Candidate)
    (preferred : list string) :
  preferred <> [] ->
  _filter_by_preferences sources preferred
  = py_sorted Nat.leb (preference_key preferred) sources.
Proof. intros H. destruct preferred; [congruence | reflexivity]. Qed.

Lemma constant_key_sorted {A} (R : A -> A -> Prop) (l : list A) :
  (forall a b, R a b) -> StronglySorted R l.
Proof.
  intros H. induction l; constructor; [assumption|].
  apply Forall_forall. intros; apply H.
Qed.

End PreferenceFacts.

(** X9: [_filter_by_preferences] drops nothing: it returns the candidates
    reordered by their position in the preferred list, candidates that are
    not listed last, and candidates with the same position (so all unlisted
    ones) in the order they came in. *)
Theorem filter_by_preferences_reorders (sources : list Candidate)
    (preferred : list string) :
  let result := Router._filter_by_preferences sources preferred in
  let key := preference_key preferred in
  result ≡ₚ sources
  /\ StronglySorted (fun a b => (key a <= key b)%nat) result
  /\ (forall k, filter (fun c => key c = k) result
                = filter (fun c => key c = k) sources)
  /\ (forall c, if decide (cand_id c ∈ preferred)
                then preferred !! key c = Some (cand_id c)
                else key c = length preferred).
Proof.
  intros result key. subst result key.
  split; [|split; [|split]].
  - destruct preferred; [reflexivity|]. apply py_sorted_perm.
  - destruct preferred as [|p ps].
    + apply constant_key_sorted. intros a b. reflexivity.
    + rewrite filter_by_preferences_sorted by discriminate.
      eapply strongly_sorted_weaken;
        [|apply (py_sorted_ordered Nat.leb (preference_key (p :: ps)))].
      * intros a b H. simpl in H. apply Nat.leb_le. exact H.
      * intros a b H. apply Nat.leb_gt in H. apply Nat.leb_le. lia.
      * intros a b c H1 H2. apply Nat.leb_le in H1, H2. apply Nat.leb_le. lia.
  - intros k. destruct preferred as [|p ps]; [reflexivity|].
    rewrite filter_by_preferences_sorted by discriminate.
    apply (py_sorted_stable Nat.leb (preference_key (p :: ps)) eq).
    intros a b ->. apply Nat.leb_refl.
  - apply preference_key_spec.
Qed.

Section RankFacts.

Import Router.

Lemma Qgeb_total (a b : Q) : Qgeb a b = false -> Qgeb b a = true.
Proof.
  unfold Qgeb. intros H. apply Qle_bool_iff.
  destruct (Qlt_le_dec a b) as [Hlt|Hle]; [apply Qlt_le_weak; exact Hlt|].
  apply Qle_bool_iff in Hle. congruence.
Qed.

Lemma Qgeb_trans (a b c : Q) :
  Qgeb a b = true -> Qgeb b c = true -> Qgeb a c = true.
Proof.
  unfold Qgeb. rewrite !Qle_bool_iff. intros H1 H2. lra.
Qed.

Lemma Qgeb_same (a b : Q) : a == b -> Qgeb a b = true.
Proof. unfold Qgeb. rewrite Qle_bool_iff. intros H. lra. Qed.

Lemma Qgeb_le (a b : Q) : Qgeb a b = true -> b <= a.
Proof. unfold Qgeb. intros H. apply Qle_bool_iff. exact H. Qed.

Lemma rank_inputs_key (qt : QueryType) (c : Candidate) :
  rank_key qt c
  == (rank_inputs qt c).1.1
     + match (rank_inputs qt c).1.2 with Some p => p * 0.3 | None => 0.0 end
     + (rank_inputs qt c).2.
Proof.
  unfold rank_key, rank_inputs. cbn [fst snd].
  destruct (cand_metrics c); reflexivity.
Qed.

Lemma rank_inputs_stable (qt : QueryType) (sources : list Candidate)
    (inputs : Q * option Q * Q) :
  filter (fun c => rank_inputs qt c = inputs)
         (py_sorted Qgeb (rank_key qt) sources)
  = filter (fun c => rank_inputs qt c = inputs) sources.
Proof.
  set (k := inputs.1.1
            + match inputs.1.2 with Some p => p * 0.3 | None => 0.0 end
            + inputs.2).
  assert (Hsub : forall l : list Candidate,
             filter (fun c => rank_inputs qt c = inputs) l
             = filter (fun c => rank_inputs qt c = inputs)
                      (filter (fun c => rank_key qt c == k) l)).
  { intros l. rewrite list_filter_filter. apply list_filter_iff.
    intros c. split; [|intros [H _]; exact H].
    intros H. split; [exact H|]. rewrite rank_inputs_key, H. reflexivity. }
  rewrite (Hsub (py_sorted Qgeb (rank_key qt) sources)).
  rewrite (py_sorted_stable Qgeb (rank_key qt) Qeq Qgeb_same).
  symmetry. apply Hsub.
Qed.

Lemma slice_is_take {A} (l : list A) (n : Z) :
  exists k, py_slice_to l n = take k l.
Proof. unfold py_slice_to. destruct (0 <=? n)%Z; eexists; reflexivity. Qed.

Lemma available_ids_sublist (self : IntelligentSourceRouter) :
  cand_id <$> _get_available_sources self
  `sublist_of` (fst <$> available_sources self).
Proof.
  unfold _get_available_sources.
  induction (available_sources self) as [|[sid cfg] rest IH]; [constructor|].
  cbn [omap list_omap]. rewrite fmap_cons. cbn [fst].
  destruct (negb (cfg_enabled cfg)); [apply sublist_cons; exact IH|].
  destruct (Tracker.get_source_metrics _ sid) as [m|].
  - destruct (negb (is_available m)); [apply sublist_cons; exact IH|].
    rewrite fmap_cons. apply sublist_skip. exact IH.
  - rewrite fmap_cons. apply sublist_skip. exact IH.
Qed.

Lemma available_sources_sound (self : IntelligentSourceRouter) (c : Candidate) :
  c ∈ _get_available_sources self ->
  (cand_id c, cand_config c) ∈ available_sources self
  /\ cfg_enabled (cand_config c) = true
  /\ cand_metrics c
     = Tracker.get_source_metrics (performance_tracker self) (cand_id c)
  /\ (forall m, cand_metrics c = Some m -> is_available m = true).
Proof.
  unfold _get_available_sources. intros Hc.
  apply list_elem_of_omap in Hc as ([sid cfg] & Hin & Hsome).
  destruct (negb (cfg_enabled cfg)) eqn:Hen; [discriminate|].
  apply negb_false_iff in Hen.
  destruct (Tracker.get_source_metrics (performance_tracker self) sid) as [m|] eqn:Hm.
  - destruct (negb (is_available m)) eqn:Hav; [discriminate|].
    apply negb_false_iff in Hav. injection Hsome as <-. simpl.
    repeat split; try assumption; try (symmetry; exact Hm).
    intros m' H. injection H as <-. exact Hav.
  - injection Hsome as <-. simpl.
    repeat split; try assumption; try (symmetry; exact Hm). discriminate.
Qed.

End RankFacts.

(** X10: [_rank_sources] returns a permutation of the candidates; when
    base priorities and priority scores lie in [0, 1], no candidate stands
    behind one whose rank key (base priority + 0.3 * priority score
    + query-type boost) is lower by more than the rounding slack; and
    candidates with the same base priority, priority score and boost keep
    the order they came in. *)
Theorem rank_sources_orders (sources : list Candidate) (qt : QueryType) :
  let result := Router._rank_sources sources qt in
  result ≡ₚ sources
  /\ (Forall unit_scores sources ->
      StronglySorted
        (fun a b => Router.rank_key qt b
                    <= Router.rank_key qt a + rounding_slack) result)
  /\ (forall inputs,
        filter (fun c => rank_inputs qt c = inputs) result
        = filter (fun c => rank_inputs qt c = inputs) sources).
Proof.
  intros result. subst result. unfold Router._rank_sources.
  split; [apply py_sorted_perm|]. split.
  - intros _. eapply strongly_sorted_weaken;
      [|apply (py_sorted_ordered Qgeb (Router.rank_key qt) Qgeb_total Qgeb_trans)].
    intros a b H. cbn beta in H. apply Qgeb_le in H.
    unfold rounding_slack. lra.
  - intros inputs. apply rank_inputs_stable.
Qed.

(** The catalogue, no metrics recorded, ranked for a location query. *)
Lemma rank_sources_orders_witness :
  StronglySorted
    (fun a b => Router.rank_key LOCATION_SPECIFIC b
                <= Router.rank_key LOCATION_SPECIFIC a + rounding_slack)
    (Router._rank_sources (Router._get_available_sources Router.init)
       LOCATION_SPECIFIC).
Proof.
  apply (rank_sources_orders (Router._get_available_sources Router.init)
           LOCATION_SPECIFIC).
  repeat constructor; try discriminate; vm_compute; discriminate.
Defined.

(** X11: when at least [min_sources] candidates are ranked,
    [_select_optimal_sources] returns a prefix of the ranking with at least
    [min_sources] ids, also when the caller's [max_sources] is smaller, and
    with at most the larger of [min_sources] and the two maxima's minimum. *)
Theorem select_optimal_count (ranked : list Candidate) (profile : QueryProfile)
    (m : Z) :
  (0 <= min_sources profile <= Z.of_nat (length ranked))%Z ->
  let result := Router._select_optimal_sources ranked profile m in
  result `prefix_of` (cand_id <$> ranked)
  /\ (min_sources profile <= Z.of_nat (length result)
      <= Z.max (min_sources profile) (Z.min m (max_sources profile)))%Z.
Proof.
  intros Hmin result. subst result. unfold Router._select_optimal_sources.
  set (len := Z.of_nat (length ranked)) in *.
  set (num0 := Z.min (Z.min m (max_sources profile)) len).
  assert (Hcond : ((num0 <? min_sources profile)
                   && (min_sources profile <=? len))%Z
                  = (num0 <? min_sources profile)%Z).
  { replace (min_sources profile <=? len)%Z with true
      by (symmetry; apply Z.leb_le; lia).
    apply andb_true_r. }
  rewrite Hcond.
  set (num := if (num0 <? min_sources profile)%Z then min_sources profile
              else num0).
  assert (Hnum : (min_sources profile <= num <= len)%Z
                 /\ (num <= Z.max (min_sources profile)
                              (Z.min m (max_sources profile)))%Z).
  { subst num. destruct (num0 <? min_sources profile)%Z eqn:E.
    - apply Z.ltb_lt in E. lia.
    - apply Z.ltb_ge in E. subst num0. lia. }
  unfold py_slice_to. replace (0 <=? num)%Z with true
    by (symmetry; apply Z.leb_le; lia).
  split.
  - rewrite fmap_take. apply prefix_take.
  - rewrite length_fmap, length_take. subst len. lia.
Qed.

(** Seven candidates, a COMPANY_SPECIFIC profile and [max_sources = 1]:
    two ids are returned. *)
Lemma select_optimal_count_witness :
  let ranked := Router._get_available_sources Router.init in
  let profile := QueryAnalyzer.get_query_profile COMPANY_SPECIFIC in
  (2 <= Z.of_nat (length (Router._select_optimal_sources ranked profile 1)) <= 2)%Z.
Proof.
  intros ranked profile.
  apply (select_optimal_count ranked profile 1). vm_compute. split; discriminate.
Defined.

(** X12: whatever the router's state, [select_sources] only returns ids of
    enabled catalogue sources whose metrics record, if there is one, says
    available; it returns no more ids than the catalogue has, and none
    twice when the catalogue ids are distinct. *)
Theorem select_sources_sound (self : IntelligentSourceRouter)
    (parsed : ParsedQuery) (m : Z) :
  let selected := Router.select_sources self parsed m in
  Forall (fun sid =>
            exists cfg,
              (sid, cfg) ∈ available_sources self
              /\ cfg_enabled cfg = true
              /\ forall metrics,
                   Tracker.get_source_metrics (performance_tracker self) sid
                   = Some metrics ->
                   is_available metrics = true) selected
  /\ (length selected <= length (available_sources self))%nat
  /\ (NoDup (fst <$> available_sources self) -> NoDup selected).
Proof.
  intros selected. subst selected. unfold Router.select_sources.
  set (qt := QueryAnalyzer.classify_query parsed).
  set (profile := QueryAnalyzer.get_query_profile qt).
  set (available := Router._get_available_sources self).
  set (preferred := Router._filter_by_preferences available (preferred_sources profile)).
  set (ranked := Router._rank_sources preferred qt).
  assert (Hperm : ranked ≡ₚ available).
  { subst ranked preferred. unfold Router._rank_sources. rewrite py_sorted_perm.
    destruct (preferred_sources profile); [reflexivity | apply py_sorted_perm]. }
  unfold Router._select_optimal_sources.
  destruct (slice_is_take ranked
              (if ((Z.min (Z.min m (max_sources profile))
                      (Z.of_nat (length ranked)) <? min_sources profile)
                   && (min_sources profile <=? Z.of_nat (length ranked)))%Z
               then min_sources profile
               else Z.min (Z.min m (max_sources profile))
                      (Z.of_nat (length ranked)))) as [k ->].
  assert (Hsub : take k ranked `sublist_of` ranked) by apply sublist_take.
  split; [|split].
  - apply Forall_fmap, Forall_forall. intros c Hc. simpl.
    assert (Hin : c ∈ available).
    { rewrite <- Hperm. eapply elem_of_sublist; [exact Hc | exact Hsub]. }
    destruct (available_sources_sound self c Hin) as (Hcat & Hen & Hmet & Hav).
    exists (cand_config c). split; [exact Hcat|]. split; [exact Hen|].
    intros metrics Hm. apply Hav. rewrite Hmet. exact Hm.
  - rewrite length_fmap.
    etrans; [apply sublist_length; exact Hsub|].
    rewrite Hperm. subst available.
    pose proof (sublist_length _ _ (available_ids_sublist self)) as Hlen.
    rewrite !length_fmap in Hlen. exact Hlen.
  - intros Hnd.
    eapply sublist_NoDup; [|apply fmap_sublist; exact Hsub].
    rewrite Hperm. subst available.
    eapply sublist_NoDup; [exact Hnd | apply available_ids_sublist].
Qed.

(** ** Further properties of the validator *)

Section ScoreCapFacts.

Import JobValidator.

Lemma raw_delta_cap (level : ValidationLevel) (job : Job) :
  delta (raw_check level job) <= 0.4.
Proof.
  rewrite raw_delta.
  pose proof (required_field_le job "title").
  pose proof (required_field_le job "company").
  pose proof (required_field_le job "location").
  pose proof (required_field_le job "summary").
  pose proof (validate_title_nonpos (get job "title") (thresholds level)).
  pose proof (validate_company_nonpos (get job "company") (thresholds level)).
  pose proof (validate_location_nonpos (get job "location")).
  pose proof (validate_summary_nonpos (get job "summary") (thresholds level)).
  pose proof (validate_url_nonpos (get job "url") (thresholds level)).
  pose proof (validate_salary_nonpos (get job "salary")).
  pose proof (detect_spam_nonpos job).
  unfold nonpos in *. lra.
Qed.

Lemma clamp_small (x : Q) :
  x <= 0.4 ->
  py_max 0.0 (py_min 1.0 x) <= 0.4
  /\ (py_max 0.0 (py_min 1.0 x) == 0.4 <-> x == 0.4).
Proof.
  intros Hx. unfold py_max, py_min.
  destruct (Qlt_le_dec x 1.0); destruct (Qlt_le_dec 0.0 _); split; try split; lra.
Qed.

Lemma quality_score_cap (level : ValidationLevel) (job : Job) :
  quality_score (validate_job level job) <= 0.4.
Proof.
  rewrite quality_score_eq. apply clamp_small.
  pose proof (raw_delta_cap level job). lra.
Qed.

Lemma Qgeb_false (a b : Q) : a < b -> Qgeb a b = false.
Proof.
  intros H. unfold Qgeb. destruct (Qle_bool b a) eqn:E; [|reflexivity].
  apply Qle_bool_iff in E. lra.
Qed.

Lemma Qgeb_true (a b : Q) : b <= a -> Qgeb a b = true.
Proof. intros H. unfold Qgeb. apply Qle_bool_iff. exact H. Qed.

Lemma level_between (s : Q) :
  0.3 <= s <= 0.4 ->
  JobQuality_value (_determine_quality_level s) ∈ ["fair"; "poor"].
Proof.
  intros Hs. unfold _determine_quality_level.
  rewrite (Qgeb_false s 0.8), (Qgeb_false s 0.6) by lra.
  destruct (Qgeb s 0.4).
  - apply elem_of_cons. left. reflexivity.
  - rewrite (Qgeb_true s 0.2) by lra.
    apply elem_of_cons. right. apply elem_of_cons. left. reflexivity.
Qed.

Lemma quality_level_eq (level : ValidationLevel) (job : Job) :
  quality_level (validate_job level job)
  = _determine_quality_level (quality_score (validate_job level job)).
Proof. unfold validate_job. cbn [quality_level quality_score]. reflexivity. Qed.

Lemma is_valid_eq (level : ValidationLevel) (job : Job) :
  is_valid (validate_job level job)
  = Qgeb (quality_score (validate_job level job))
         (min_quality_score (thresholds level)).
Proof. unfold validate_job. cbn [is_valid quality_score]. reflexivity. Qed.

Lemma zero_score_invalid (level : ValidationLevel) (job : Job) :
  quality_score (validate_job level job) == 0 ->
  is_valid (validate_job level job) = false
  /\ quality_level (validate_job level job) = INVALID.
Proof.
  intros Hz. rewrite is_valid_eq, quality_level_eq.
  set (s := quality_score (validate_job level job)) in *.
  unfold _determine_quality_level.
  rewrite (Qgeb_false s 0.8), (Qgeb_false s 0.6), (Qgeb_false s 0.4),
    (Qgeb_false s 0.2) by lra.
  split; [|reflexivity]. apply Qgeb_false. destruct level; simpl; lra.
Qed.

End ScoreCapFacts.

(** X13: no listing scores more than 0.4 at any level (the four required
    fields earn 0.1 each and every other check only subtracts); so no
    listing is valid under the strict or the moderate level, and no listing
    is rated excellent or good. *)
Theorem quality_score_never_above_fair (level : ValidationLevel) (job : Job) :
  let r := JobValidator.validate_job level job in
  quality_score r <= 0.4
  /\ (level <> LENIENT -> is_valid r = false)
  /\ quality_level r <> EXCELLENT
  /\ quality_level r <> GOOD.
Proof.
  intros r. subst r. pose proof (quality_score_cap level job) as Hcap.
  split; [exact Hcap|]. split.
  - intros Hlevel. rewrite is_valid_eq.
    set (s := quality_score (JobValidator.validate_job level job)) in *.
    apply Qgeb_false. destruct level; [simpl; lra | simpl; lra | congruence].
  - rewrite quality_level_eq.
    set (s := quality_score (JobValidator.validate_job level job)) in *.
    unfold JobValidator._determine_quality_level.
    rewrite (Qgeb_false s 0.8), (Qgeb_false s 0.6) by lra.
    split; destruct (Qgeb s 0.4), (Qgeb s 0.2); discriminate.
Qed.

(** X14: a listing without title, or without company, scores 0, is rated
    invalid and is not valid at any level. *)
Theorem untitled_listing_rejected (level : ValidationLevel) (job : Job) :
  present job "title" = false \/ present job "company" = false ->
  let r := JobValidator.validate_job level job in
  quality_score r == 0 /\ is_valid r = false /\ quality_level r = INVALID.
Proof.
  intros Hmiss r. subst r.
  assert (Hz : quality_score (JobValidator.validate_job level job) == 0).
  { destruct Hmiss as [H|H];
      [apply missing_title_scores_zero | apply missing_company_scores_zero];
      exact H. }
  split; [exact Hz|]. apply zero_score_invalid. exact Hz.
Qed.

Lemma untitled_listing_rejected_witness :
  is_valid
    (JobValidator.validate_job LENIENT
       (listing [("company", "Acme"); ("location", "Dhaka");
                 ("summary", "Build and run the services behind our product.");
                 ("url", "https://acme.com/jobs/1")]))
  = false.
Proof.
  apply (untitled_listing_rejected LENIENT
           (listing [("company", "Acme"); ("location", "Dhaka");
                     ("summary", "Build and run the services behind our product.");
                     ("url", "https://acme.com/jobs/1")])).
  left. reflexivity.
Defined.

Section TightFacts.

Import JobValidator.

Lemma tight_no_check : tight no_check.
Proof. split; [simpl; lra|]. simpl. split; [auto | intros; lra]. Qed.

Lemma tight_issue (p : Q) (msg : string) : 0 < p -> tight (issue p msg).
Proof.
  intros Hp. split; [simpl; lra|]. simpl.
  split; [intros H; lra | intros [H _]; discriminate].
Qed.

Lemma tight_warning (p : Q) (msg : string) : 0 < p -> tight (warning p msg).
Proof.
  intros Hp. split; [simpl; lra|]. simpl.
  split; [intros H; lra | intros [_ H]; discriminate].
Qed.

Lemma tight_when (b : bool) (c : Check) : tight c -> tight (when b c).
Proof. intros Hc. destruct b; [exact Hc | apply tight_no_check]. Qed.

Lemma tight_and_then (a b : Check) : tight a -> tight b -> tight (and_then a b).
Proof.
  intros [Ha Ha'] [Hb Hb']. split; [simpl; lra|]. simpl. split.
  - intros H. assert (delta a == 0) by lra. assert (delta b == 0) by lra.
    destruct (proj1 Ha') as [-> ->]; [assumption|].
    destruct (proj1 Hb') as [-> ->]; [assumption|]. split; reflexivity.
  - intros [Hi Hw]. apply app_eq_nil in Hi as [Hi1 Hi2].
    apply app_eq_nil in Hw as [Hw1 Hw2].
    assert (delta a == 0) by (apply Ha'; split; assumption).
    assert (delta b == 0) by (apply Hb'; split; assumption). lra.
Qed.

Lemma tight_foldl (a : Check) (l : list Check) :
  tight a -> Forall tight l -> tight (foldl and_then a l).
Proof.
  revert a. induction l as [|c l IH]; intros a Ha Hl; [exact Ha|].
  inversion Hl as [|? ? Hc Hl']; subst. simpl. apply IH; [|exact Hl'].
  apply tight_and_then; assumption.
Qed.

Lemma tight_checks (l : list Check) : Forall tight l -> tight (checks l).
Proof. intros Hl. apply tight_foldl; [apply tight_no_check | exact Hl]. Qed.

Ltac tight_one :=
  repeat first
    [ apply tight_when
    | apply tight_issue; lra
    | apply tight_warning; lra
    | apply tight_no_check ].

Ltac tight_list :=
  repeat first
    [ apply Forall_nil_2
    | apply Forall_cons_2
    | apply Forall_app_2
    | apply Forall_fmap, Forall_forall; intros ? _; simpl
    | tight_one ].

Lemma tight_validate_title (title : string) (th : Thresholds) :
  tight (_validate_title title th).
Proof.
  unfold _validate_title. destruct (String.eqb title ""); [tight_one|].
  apply tight_checks. tight_list.
Qed.

Lemma tight_validate_company (company : string) (th : Thresholds) :
  tight (_validate_company company th).
Proof.
  unfold _validate_company. destruct (String.eqb company ""); [tight_one|].
  apply tight_checks. tight_list.
Qed.

Lemma tight_validate_location (location : string) :
  tight (_validate_location location).
Proof. unfold _validate_location. destruct (String.eqb location ""); tight_one. Qed.

Lemma tight_validate_summary (summary : string) (th : Thresholds) :
  tight (_validate_summary summary th).
Proof.
  unfold _validate_summary. destruct (String.eqb summary ""); [tight_one|].
  apply tight_checks. tight_list.
Qed.

Lemma tight_validate_url (url : string) (th : Thresholds) :
  tight (_validate_url url th).
Proof.
  unfold _validate_url. destruct (String.eqb url "").
  - destruct (require_url th); tight_one.
  - apply tight_checks. tight_list.
Qed.

Lemma tight_validate_salary (salary : string) : tight (_validate_salary salary).
Proof. unfold _validate_salary. destruct (String.eqb salary ""); tight_one. Qed.

Lemma tight_detect_spam (job : Job) : tight (_detect_spam job).
Proof. unfold _detect_spam. apply tight_checks. tight_list. Qed.

(** The four required-field steps together: worth 0.4 minus a tight step. *)
Lemma required_fields_split (job : Job) (field : string) :
  exists c, tight c
            /\ delta (required_field_check job field) == 0.1 + delta c
            /\ new_issues (required_field_check job field) = new_issues c
            /\ new_warnings (required_field_check job field) = new_warnings c.
Proof.
  unfold required_field_check. destruct (negb (present job field)).
  - exists (issue 0.3 ("Missing required field: " ++ field)).
    split; [apply tight_issue; lra|]. simpl. repeat split; try lra.
  - exists no_check. split; [apply tight_no_check|]. simpl. repeat split; try lra.
Qed.

Lemma messages_foldl (a : Check) (l : list Check) :
  new_issues (foldl and_then a l)
  = (new_issues a ++ concat (new_issues <$> l))%list
  /\ new_warnings (foldl and_then a l)
     = (new_warnings a ++ concat (new_warnings <$> l))%list.
Proof.
  revert a. induction l as [|c l IH]; intros a.
  - simpl. rewrite !app_nil_r. split; reflexivity.
  - simpl. destruct (IH (and_then a c)) as [-> ->]. simpl.
    rewrite <- !app_assoc. split; reflexivity.
Qed.

(** The raw score is 0.4 plus a tight step with the same messages. *)
Lemma raw_check_tight (level : ValidationLevel) (job : Job) :
  exists c, tight c
            /\ delta (raw_check level job) == 0.4 + delta c
            /\ new_issues (raw_check level job) = new_issues c
            /\ new_warnings (raw_check level job) = new_warnings c.
Proof.
  destruct (required_fields_split job "title") as (c1 & T1 & D1 & I1 & W1).
  destruct (required_fields_split job "company") as (c2 & T2 & D2 & I2 & W2).
  destruct (required_fields_split job "location") as (c3 & T3 & D3 & I3 & W3).
  destruct (required_fields_split job "summary") as (c4 & T4 & D4 & I4 & W4).
  exists (checks
            [c1; c2; c3; c4;
             _validate_title (get job "title") (thresholds level);
             _validate_company (get job "company") (thresholds level);
             _validate_location (get job "location");
             _validate_summary (get job "summary") (thresholds level);
             _validate_url (get job "url") (thresholds level);
             _validate_salary (get job "salary");
             _detect_spam job]).
  split.
  - apply tight_checks. repeat (apply Forall_cons_2; [|]); try apply Forall_nil_2;
      auto using tight_validate_title, tight_validate_company,
        tight_validate_location, tight_validate_summary, tight_validate_url,
        tight_validate_salary, tight_detect_spam.
  - unfold raw_check, checks.
    destruct (messages_foldl no_check
                ((required_field_check job <$> required_fields)
                 ++ [_validate_title (get job "title") (thresholds level);
                     _validate_company (get job "company") (thresholds level);
                     _validate_location (get job "location");
                     _validate_summary (get job "summary") (thresholds level);
                     _validate_url (get job "url") (thresholds level);
                     _validate_salary (get job "salary");
                     _detect_spam job])) as [-> ->].
    destruct (messages_foldl no_check
                [c1; c2; c3; c4;
                 _validate_title (get job "title") (thresholds level);
                 _validate_company (get job "company") (thresholds level);
                 _validate_location (get job "location");
                 _validate_summary (get job "summary") (thresholds level);
                 _validate_url (get job "url") (thresholds level);
                 _validate_salary (get job "salary");
                 _detect_spam job]) as [-> ->].
    rewrite !delta_foldl.
    split; [|split].
    + cbn [fmap list_fmap required_fields app foldl]. simpl delta at 1.
      cbn [fmap list_fmap foldl no_check delta] in *.
      lra.
    + cbn [fmap list_fmap required_fields app concat]. rewrite I1, I2, I3, I4.
      reflexivity.
    + cbn [fmap list_fmap required_fields app concat]. rewrite W1, W2, W3, W4.
      reflexivity.
Qed.

End TightFacts.

(** X15: a listing reaches the top score 0.4 exactly when the validator has
    nothing to report about it: no issue and no warning. *)
Theorem top_score_iff_nothing_reported (level : ValidationLevel) (job : Job) :
  let r := JobValidator.validate_job level job in
  quality_score r == 0.4 <-> issues r = [] /\ warnings r = [].
Proof.
  intros r. subst r. rewrite quality_score_eq.
  change (issues (JobValidator.validate_job level job))
    with (new_issues (JobValidator.raw_check level job)).
  change (warnings (JobValidator.validate_job level job))
    with (new_warnings (JobValidator.raw_check level job)).
  destruct (raw_check_tight level job) as (c & [Hle Hiff] & Hd & -> & ->).
  pose proof (raw_delta_cap level job) as Hcap.
  destruct (clamp_small (0.0 + delta (JobValidator.raw_check level job)))
    as [_ Hclamp]; [lra|].
  rewrite Hclamp, <- Hiff. split; intros H; lra.
Qed.

Section StageFacts.

Import JobValidator.

Lemma validate_job_fields (level : ValidationLevel) (a b : Job) :
  fields a = fields b -> validate_job level a = validate_job level b.
Proof.
  intros H. destruct a as [f ma], b as [g mb]. cbn [fields] in H. subst g.
  unfold validate_job, raw_check, required_field_check, _detect_spam,
    _generate_suggestions, present, get.
  cbn [fields]. reflexivity.
Qed.

Lemma validate_jobs_cons (level : ValidationLevel) (job : Job)
    (rest : list Job) :
  _validate_jobs level (job :: rest)
  = if Qgeb (quality_score (validate_job level job)) 0.3
    then {| fields := fields job;
            validation_metadata :=
              Some {| meta_quality_score := quality_score (validate_job level job);
                      meta_quality_level :=
                        JobQuality_value (quality_level (validate_job level job));
                      meta_warnings := warnings (validate_job level job);
                      meta_suggestions := suggestions (validate_job level job) |} |}
         :: _validate_jobs level rest
    else _validate_jobs level rest.
Proof. reflexivity. Qed.

Lemma validate_jobs_kept (level : ValidationLevel) (jobs : list Job) :
  Forall (fun job =>
            Qgeb (quality_score (validate_job level job)) 0.3 = true
            /\ validation_metadata job
               = Some {| meta_quality_score := quality_score (validate_job level job);
                         meta_quality_level :=
                           JobQuality_value (quality_level (validate_job level job));
                         meta_warnings := warnings (validate_job level job);
                         meta_suggestions := suggestions (validate_job level job) |})
         (_validate_jobs level jobs).
Proof.
  induction jobs as [|job jobs IH]; [constructor|].
  rewrite validate_jobs_cons.
  destruct (Qgeb (quality_score (validate_job level job)) 0.3) eqn:E;
    [|exact IH].
  constructor; [|exact IH].
  rewrite <- (validate_job_fields level job) by reflexivity.
  cbn [validation_metadata]. split; [exact E | reflexivity].
Qed.

Lemma validate_jobs_fixed (level : ValidationLevel) (jobs : list Job) :
  Forall (fun job =>
            Qgeb (quality_score (validate_job level job)) 0.3 = true
            /\ validation_metadata job
               = Some {| meta_quality_score := quality_score (validate_job level job);
                         meta_quality_level :=
                           JobQuality_value (quality_level (validate_job level job));
                         meta_warnings := warnings (validate_job level job);
                         meta_suggestions := suggestions (validate_job level job) |})
         jobs ->
  _validate_jobs level jobs = jobs.
Proof.
  induction 1 as [|job jobs [Hscore Hmeta] Hall IH]; [reflexivity|].
  rewrite validate_jobs_cons, Hscore, IH. f_equal.
  destruct job as [f meta]. cbn [fields validation_metadata] in *.
  f_equal. symmetry. exact Hmeta.
Qed.

End StageFacts.

(** X16: the validation stage keeps the order of its input and invents
    nothing; every listing it keeps scores at least 0.3 and carries the
    metadata of its own validation; running the stage on its output changes
    nothing. *)
Theorem validation_stage_shape (level : ValidationLevel) (jobs : list Job) :
  let kept := _validate_jobs level jobs in
  (fields <$> kept) `sublist_of` (fields <$> jobs)
  /\ Forall (fun job =>
               exists meta,
                 validation_metadata job = Some meta
                 /\ meta_quality_score meta
                    = quality_score (JobValidator.validate_job level job)
                 /\ 0.3 <= meta_quality_score meta <= 0.4
                 /\ meta_quality_level meta ∈ ["fair"; "poor"]) kept
  /\ _validate_jobs level kept = kept.
Proof.
  intros kept. subst kept. split; [|split].
  - rewrite validate_jobs_keeps. apply fmap_sublist, sublist_filter.
  - eapply Forall_impl; [apply validate_jobs_kept|].
    intros job [Hscore Hmeta]. cbn beta in Hmeta. eexists. split; [exact Hmeta|].
    cbn [meta_quality_score meta_quality_level].
    split; [reflexivity|].
    pose proof (quality_score_cap level job) as Hcap.
    apply Qgeb_le in Hscore.
    split; [split; assumption|].
    rewrite quality_level_eq. apply level_between. split; assumption.
  - apply validate_jobs_fixed, validate_jobs_kept.
Qed.

(** X17: under the lenient level the stage keeps exactly the listings
    [validate_job] calls valid; under the strict and the moderate level
    every listing it keeps is one [validate_job] calls not valid. *)
Theorem validation_stage_and_validity (level : ValidationLevel)
    (jobs : list Job) :
  (level = LENIENT ->
   fields <$> _validate_jobs level jobs
   = fields <$> filter (fun job =>
                          is_valid (JobValidator.validate_job level job) = true)
                       jobs)
  /\ (level <> LENIENT ->
      Forall (fun job => is_valid (JobValidator.validate_job level job) = false)
             (_validate_jobs level jobs)).
Proof.
  split.
  - intros ->. rewrite validate_jobs_keeps.
    apply (f_equal (fmap fields)). apply list_filter_iff. intros job.
    rewrite is_valid_eq.
    change (min_quality_score (JobValidator.thresholds LENIENT)) with 0.3.
    reflexivity.
  - intros Hlevel. apply Forall_forall. intros job _. rewrite is_valid_eq.
    pose proof (quality_score_cap level job) as Hcap.
    set (s := quality_score (JobValidator.validate_job level job)) in *.
    apply Qgeb_false. destruct level; [simpl; lra | simpl; lra | congruence].
Qed.

(** ** Further properties of the deduplicator *)

Section PickFacts.

Import Dedup.

Lemma gather_lookup (jobs : list Job) (l : list nat) (u : list Job) :
  gather jobs l = Returned u -> Forall2 (fun i x => jobs !! i = Some x) l u.
Proof.
  revert u. induction l as [|i l IH]; intros u H.
  - injection H as <-. constructor.
  - cbn [gather] in H. unfold index in H.
    destruct (jobs !! i) as [x|] eqn:Hx; [|discriminate].
    cbn in H. destruct (gather jobs l) as [xs|]; [|discriminate].
    cbn in H. injection H as <-. constructor; [exact Hx | apply IH; reflexivity].
Qed.

Lemma quality_score_nonneg (job : Job) : 0 <= _calculate_job_quality_score job.
Proof.
  unfold _calculate_job_quality_score.
  assert (Hc : 0 <= inject_Z (Z.of_nat (length (filter (fun f => present job f = true)
                                                  quality_fields)))
                    / inject_Z (Z.of_nat (length quality_fields))).
  { apply Qdiv_nonneg; [|reflexivity].
    replace 0 with (inject_Z 0) by reflexivity. rewrite <- Zle_Qle. lia. }
  cbv zeta. revert Hc.
  generalize (inject_Z (Z.of_nat (length (filter (fun f => present job f = true)
                                            quality_fields)))
              / inject_Z (Z.of_nat (length quality_fields))).
  intros c Hc.
  destruct (10 <? _)%nat; destruct (50 <? _)%nat;
    destruct (present job "url"); destruct (present job "salary"); lra.
Qed.

Lemma final_score_pos (job : Job) : 0 < final_score job.
Proof.
  unfold final_score. pose proof (quality_score_nonneg job) as Hq.
  assert (Hb : 0 < 1.0 / inject_Z
                  (default 5%Z
                     (QueryAnalyzer.dict_get source_priority
                        (before_first " (" (get job "source"))))).
  { set (s := before_first " (" (get job "source")).
    unfold source_priority, QueryAnalyzer.dict_get.
    repeat (destruct (decide _); [reflexivity|]). reflexivity. }
  lra.
Qed.

Lemma score_at_lookup (jobs : list Job) (i : nat) (job : Job) :
  jobs !! i = Some job -> score_at jobs i = final_score job.
Proof. intros H. unfold score_at. rewrite H. reflexivity. Qed.

Lemma best_of_group_max (jobs : list Job) (group : list nat)
    (best_score : Q) (best_index : nat) :
  (forall x, x ∈ group -> (x < length jobs)%nat) ->
  exists b,
    best_of_group jobs group best_score best_index = Returned b
    /\ ((b = best_index /\ forall x, x ∈ group -> score_at jobs x <= best_score)
        \/ (best_score < score_at jobs b /\ best_in jobs b group)).
Proof.
  revert best_score best_index.
  induction group as [|idx rest IH]; intros best_score best_index Hrange.
  - exists best_index. split; [reflexivity|]. left. split; [reflexivity|].
    intros x Hx. apply elem_of_nil in Hx. contradiction.
  - destruct (lookup_lt_is_Some_2 jobs idx) as [job Hjob].
    { apply Hrange. apply elem_of_cons. left. reflexivity. }
    assert (Hrest : forall x, x ∈ rest -> (x < length jobs)%nat).
    { intros x Hx. apply Hrange. apply elem_of_cons. right. exact Hx. }
    pose proof (score_at_lookup jobs idx job Hjob) as Hscore.
    cbn [best_of_group]. rewrite (index_lookup _ _ _ Hjob). cbn.
    destruct (Qgtb (final_score job) best_score) eqn:E.
    + apply Qgtb_lt in E.
      destruct (IH (final_score job) idx Hrest) as (b & Hb & Hcase).
      exists b. split; [exact Hb|]. right.
      destruct Hcase as [[-> Hall]|(Hlt & pre & post & -> & Hpre & Hpost)].
      * split; [rewrite Hscore; exact E|].
        exists [], rest. split; [reflexivity|].
        split; [intros x Hx; apply elem_of_nil in Hx; contradiction|].
        intros x Hx. rewrite Hscore. apply Hall. exact Hx.
      * split; [lra|]. exists (idx :: pre), post. split; [reflexivity|].
        split; [|exact Hpost].
        intros x Hx. apply elem_of_cons in Hx as [->|Hx];
          [rewrite Hscore; exact Hlt | auto].
    + assert (Hle : final_score job <= best_score).
      { destruct (Qlt_le_dec best_score (final_score job)) as [Hlt|Hle];
          [|exact Hle]. apply Qgtb_lt in Hlt. congruence. }
      destruct (IH best_score best_index Hrest) as (b & Hb & Hcase).
      exists b. split; [exact Hb|].
      destruct Hcase as [[-> Hall]|(Hlt & pre & post & -> & Hpre & Hpost)].
      * left. split; [reflexivity|].
        intros x Hx. apply elem_of_cons in Hx as [->|Hx];
          [rewrite Hscore; exact Hle | auto].
      * right. split; [exact Hlt|]. exists (idx :: pre), post.
        split; [reflexivity|]. split; [|exact Hpost].
        intros x Hx. apply elem_of_cons in Hx as [->|Hx];
          [rewrite Hscore; lra | auto].
Qed.

Lemma best_in_elem (jobs : list Job) (b : nat) (group : list nat) :
  best_in jobs b group -> b ∈ group.
Proof.
  intros (pre & post & -> & _). apply elem_of_app. right.
  apply elem_of_cons. left. reflexivity.
Qed.

Lemma best_in_kept (jobs : list Job) (b : nat) (group : list nat) :
  best_in jobs b group -> kept_of jobs b group.
Proof.
  intros (earlier & later & -> & Hearlier & Hlater).
  exists earlier, later. split; [reflexivity|]. split.
  - intros x Hx Heq. pose proof (Hearlier x Hx) as Hlt.
    unfold score_at in Hlt. rewrite Heq in Hlt.
    exact (Qlt_irrefl _ Hlt).
  - intros x Hx. unfold rounding_slack.
    apply elem_of_app in Hx as [Hx|Hx].
    + pose proof (Hearlier x Hx). lra.
    + apply elem_of_cons in Hx as [->|Hx]; [lra|].
      pose proof (Hlater x Hx). lra.
Qed.

Lemma best_in_max (jobs : list Job) (b : nat) (group : list nat) :
  best_in jobs b group ->
  forall x, x ∈ group -> score_at jobs x <= score_at jobs b.
Proof.
  intros (pre & post & -> & Hpre & Hpost) x Hx.
  apply elem_of_app in Hx as [Hx|Hx]; [apply Qlt_le_weak; auto|].
  apply elem_of_cons in Hx as [->|Hx]; [apply Qle_refl | auto].
Qed.

Lemma select_best_job_from_group_max (jobs : list Job) (group : list nat) :
  (0 < length group)%nat ->
  (forall x, x ∈ group -> (x < length jobs)%nat) ->
  exists b, _select_best_job_from_group jobs group = Returned b
            /\ best_in jobs b group.
Proof.
  intros Hlen Hrange. destruct group as [|first rest]; [simpl in Hlen; lia|].
  unfold _select_best_job_from_group. cbn [index lookup list_lookup]. cbn.
  destruct (best_of_group_max jobs (first :: rest) (-1) first Hrange)
    as (b & Hb & Hcase).
  exists b. split; [exact Hb|].
  destruct Hcase as [[_ Hall]|[_ Hbest]]; [|exact Hbest].
  exfalso.
  destruct (lookup_lt_is_Some_2 jobs first) as [job Hjob].
  { apply Hrange. apply elem_of_cons. left. reflexivity. }
  pose proof (Hall first (proj2 (elem_of_cons _ _ _) (or_introl eq_refl))) as H.
  rewrite (score_at_lookup _ _ _ Hjob) in H.
  pose proof (final_score_pos job). lra.
Qed.

Lemma select_from_groups_max (jobs : list Job) (groups : list (list nat))
    (selected : gset nat) :
  Forall (fun g => (0 < length g)%nat) groups ->
  (forall x, x ∈ concat groups -> (x < length jobs)%nat) ->
  exists bests selected',
    select_from_groups jobs groups selected = Returned selected'
    /\ (forall x, x ∈ selected' <-> x ∈ bests \/ x ∈ selected)
    /\ Forall2 (best_in jobs) bests groups.
Proof.
  revert selected. induction groups as [|g groups IH]; intros selected Hlen Hrange.
  - exists [], selected. split; [reflexivity|]. split; [|constructor].
    intros x. rewrite elem_of_nil. tauto.
  - apply Forall_cons in Hlen as [Hg Hlen].
    destruct (select_best_job_from_group_max jobs g Hg) as (b & Hb & Hbest).
    { intros x Hx. apply Hrange. simpl. apply elem_of_app. left. exact Hx. }
    destruct (IH ({[b]} ∪ selected) Hlen) as (bests & sel' & Hsel & Hmem & Hall).
    { intros x Hx. apply Hrange. simpl. apply elem_of_app. right. exact Hx. }
    exists (b :: bests), sel'. cbn [select_from_groups]. rewrite Hb. cbn.
    split; [exact Hsel|]. split; [|constructor; assumption].
    intros x. rewrite Hmem, elem_of_union, elem_of_singleton, elem_of_cons.
    tauto.
Qed.

Lemma bests_in_groups (jobs : list Job) (bests : list nat)
    (groups : list (list nat)) :
  Forall2 (best_in jobs) bests groups -> Forall2 (fun b g => b ∈ g) bests groups.
Proof.
  intros H. eapply Forall2_impl; [exact H|]. intros b g. apply best_in_elem.
Qed.

Lemma select_best_jobs_picked (jobs : list Job) (groups : list (list nat)) :
  NoDup (concat groups) ->
  (forall x, x ∈ concat groups -> (x < length jobs)%nat) ->
  Forall (fun g => (1 < length g)%nat) groups ->
  exists bests picked unique,
    _select_best_jobs jobs groups = Returned unique
    /\ Forall2 (best_in jobs) bests groups
    /\ NoDup picked
    /\ (forall x, x ∈ picked
                  <-> x ∈ bests \/ ((x < length jobs)%nat /\ x ∉ concat groups))
    /\ Forall2 (fun i x => jobs !! i = Some x) picked unique.
Proof.
  intros Hnd Hrange Hlen.
  destruct (select_from_groups_max jobs groups ∅)
    as (bests & sel & Hsel & Hmem & Hall).
  { eapply Forall_impl; [exact Hlen|]. intros g Hg. simpl in Hg. lia. }
  { exact Hrange. }
  set (picked := sorted_indices (add_ungrouped (length jobs) groups sel)).
  assert (Hpicked : forall x, x ∈ picked
            <-> x ∈ bests \/ ((x < length jobs)%nat /\ x ∉ concat groups)).
  { intros x. subst picked.
    rewrite elem_of_sorted_indices, add_ungrouped_spec, Hmem, elem_of_empty.
    tauto. }
  destruct (gather_sublist jobs picked 0) as (unique & Hgather & _ & _).
  { apply sorted_indices_strict. }
  { apply Forall_forall. intros x Hx. apply Hpicked in Hx as [Hx|[Hx _]]; [|lia].
    destruct (bests_nodup bests groups (bests_in_groups _ _ _ Hall) Hnd)
      as [_ Hin].
    pose proof (Hrange x (Hin x Hx)). lia. }
  exists bests, picked, unique. unfold _select_best_jobs. rewrite Hsel. cbn.
  fold picked. split; [exact Hgather|]. split; [exact Hall|].
  split; [apply sorted_indices_nodup|]. split; [exact Hpicked|].
  apply gather_lookup. exact Hgather.
Qed.

(** What a run returns, with the indices it picked. *)
Lemma deduplicate_jobs_picked (self : JobDeduplicator) (jobs : list Job) :
  exists r bests picked,
    snd (deduplicate_jobs self jobs) = Returned r
    /\ duplicate_groups r
       = (_find_exact_duplicates (job_fingerprints jobs)
          ++ fuzzy_groups
               (_find_fuzzy_duplicates self (job_fingerprints jobs)
                  (_find_exact_duplicates (job_fingerprints jobs))))%list
    /\ Forall2 (best_in jobs) bests (duplicate_groups r)
    /\ NoDup picked
    /\ (forall x, x ∈ picked
                  <-> x ∈ bests
                      \/ ((x < length jobs)%nat
                          /\ x ∉ concat (duplicate_groups r)))
    /\ Forall2 (fun i x => jobs !! i = Some x) picked (unique_jobs r).
Proof.
  destruct jobs as [|job jobs].
  - eexists. exists [], []. split; [reflexivity|]. cbn.
    split; [reflexivity|]. split; [constructor|]. split; [constructor|].
    split; [|constructor].
    intros x. rewrite elem_of_nil. split; [contradiction|].
    intros [H|[H _]]; [exact H | lia].
  - set (all_jobs := job :: jobs).
    destruct (duplicate_groups_spec self all_jobs) as (Hnd & Hrange & Hlen).
    destruct (select_best_jobs_picked all_jobs _ Hnd Hrange Hlen)
      as (bests & picked & unique & Hunique & Hbests & Hpnd & Hpicked & Hlook).
    eexists. exists bests, picked. unfold deduplicate_jobs. fold all_jobs.
    cbv zeta. rewrite Hunique.
    cbn [snd unique_jobs duplicate_groups duplicates_removed].
    split; [reflexivity|]. split; [reflexivity|].
    repeat (split; [assumption|]). exact Hlook.
Qed.

End PickFacts.

Section GroupShapeFacts.

Import Dedup.

Lemma job_fingerprints_elem (jobs : list Job) (e : entry) :
  e ∈ job_fingerprints jobs ->
  jobs !! e.1.1 = Some e.2 /\ e.1.2 = _generate_fingerprint e.2.
Proof.
  intros He. unfold job_fingerprints in He.
  apply elem_of_lookup_imap in He as (i & job & -> & Hjob).
  split; [exact Hjob | reflexivity].
Qed.

Lemma strongly_sorted_seq (k n : nat) : StronglySorted lt (seq k n).
Proof.
  revert k. induction n as [|n IH]; intros k; [constructor|].
  simpl. constructor; [apply IH|].
  apply Forall_forall. intros x Hx. apply elem_of_seq in Hx. lia.
Qed.

(** The members of a group carry the key of the group. *)
Lemma group_append_keyed (P : nat -> string -> Prop)
    (groups : list (string * list nat)) (fingerprint : string) (i : nat) :
  Forall (fun fg => forall x, x ∈ fg.2 -> P x fg.1) groups ->
  P i fingerprint ->
  Forall (fun fg => forall x, x ∈ fg.2 -> P x fg.1)
         (group_append groups fingerprint i).
Proof.
  intros Hall Hi. induction Hall as [|[f g] rest Hfg Hall IH].
  - constructor; [|constructor]. simpl. intros x Hx.
    apply list_elem_of_singleton in Hx as ->. exact Hi.
  - simpl. destruct (String.eqb f fingerprint) eqn:E.
    + apply String.eqb_eq in E. subst f. constructor; [|exact Hall].
      simpl in *. intros x Hx. apply elem_of_app in Hx as [Hx|Hx]; [auto|].
      apply list_elem_of_singleton in Hx as ->. exact Hi.
    + constructor; [exact Hfg | exact IH].
Qed.

Lemma fingerprint_groups_keyed (P : nat -> string -> Prop)
    (entries : list entry) (groups : list (string * list nat)) :
  Forall (fun fg => forall x, x ∈ fg.2 -> P x fg.1) groups ->
  Forall (fun e : entry => P e.1.1 e.1.2) entries ->
  Forall (fun fg => forall x, x ∈ fg.2 -> P x fg.1)
         (foldl (fun groups '(i, fingerprint, _) =>
                   group_append groups fingerprint i) groups entries).
Proof.
  revert groups. induction entries as [|[[i f] job] entries IH];
    intros groups Hgroups Hentries; [exact Hgroups|].
  apply Forall_cons in Hentries as [Hi Hentries]. cbn [foldl].
  apply IH; [|exact Hentries]. apply group_append_keyed; assumption.
Qed.

(** No two groups have one key. *)
Lemma group_append_keys (groups : list (string * list nat))
    (fingerprint : string) (i : nat) :
  fst <$> group_append groups fingerprint i
  = if bool_decide (fingerprint ∈ fst <$> groups) then fst <$> groups
    else ((fst <$> groups) ++ [fingerprint])%list.
Proof.
  induction groups as [|[f g] rest IH]; [reflexivity|].
  simpl. destruct (String.eqb f fingerprint) eqn:E.
  - apply String.eqb_eq in E. subst f.
    rewrite bool_decide_eq_true_2 by (apply elem_of_cons; left; reflexivity).
    reflexivity.
  - apply String.eqb_neq in E. rewrite fmap_cons, IH. simpl.
    destruct (bool_decide (fingerprint ∈ fst <$> rest)) eqn:Hin.
    + apply bool_decide_eq_true in Hin.
      rewrite bool_decide_eq_true_2 by (apply elem_of_cons; right; exact Hin).
      reflexivity.
    + apply bool_decide_eq_false in Hin.
      rewrite bool_decide_eq_false_2; [reflexivity|].
      intros H. apply elem_of_cons in H as [H|H]; [congruence | contradiction].
Qed.

Lemma group_append_keys_nodup (groups : list (string * list nat))
    (fingerprint : string) (i : nat) :
  NoDup (fst <$> groups) ->
  NoDup (fst <$> group_append groups fingerprint i).
Proof.
  intros Hnd. rewrite group_append_keys.
  destruct (bool_decide (fingerprint ∈ fst <$> groups)) eqn:Hin; [exact Hnd|].
  apply bool_decide_eq_false in Hin. apply NoDup_app.
  split; [exact Hnd|]. split; [|apply NoDup_singleton].
  intros x Hx Hf. apply list_elem_of_singleton in Hf as ->. contradiction.
Qed.

Lemma fingerprint_groups_keys_nodup (entries : list entry)
    (groups : list (string * list nat)) :
  NoDup (fst <$> groups) ->
  NoDup (fst <$> foldl (fun groups '(i, fingerprint, _) =>
                          group_append groups fingerprint i) groups entries).
Proof.
  revert groups. induction entries as [|[[i f] job] entries IH];
    intros groups Hnd; [exact Hnd|].
  cbn [foldl]. apply IH, group_append_keys_nodup, Hnd.
Qed.

(** An index stays in the group of its key. *)
Lemma group_append_member (groups : list (string * list nat))
    (fingerprint : string) (i : nat) :
  exists g, (fingerprint, g) ∈ group_append groups fingerprint i /\ i ∈ g.
Proof.
  induction groups as [|[f g] rest IH].
  - exists [i]. split; apply elem_of_cons; left; reflexivity.
  - simpl. destruct (String.eqb f fingerprint) eqn:E.
    + apply String.eqb_eq in E. subst f. exists (g ++ [i])%list.
      split; [apply elem_of_cons; left; reflexivity|].
      apply elem_of_app. right. apply elem_of_cons. left. reflexivity.
    + destruct IH as (g' & Hg' & Hi). exists g'.
      split; [apply elem_of_cons; right; exact Hg' | exact Hi].
Qed.

Lemma group_append_keeps (groups : list (string * list nat))
    (fingerprint f : string) (i x : nat) (g : list nat) :
  (f, g) ∈ groups -> x ∈ g ->
  exists g', (f, g') ∈ group_append groups fingerprint i /\ x ∈ g'.
Proof.
  intros Hg Hx. induction groups as [|[f0 g0] rest IH];
    [apply elem_of_nil in Hg; contradiction|].
  simpl. destruct (String.eqb f0 fingerprint) eqn:E.
  - apply elem_of_cons in Hg as [Hg|Hg].
    + injection Hg as -> ->. exists (g0 ++ [i])%list.
      split; [apply elem_of_cons; left; reflexivity|].
      apply elem_of_app. left. exact Hx.
    + exists g. split; [apply elem_of_cons; right; exact Hg | exact Hx].
  - apply elem_of_cons in Hg as [Hg|Hg].
    + injection Hg as -> ->. exists g0.
      split; [apply elem_of_cons; left; reflexivity | exact Hx].
    + destruct (IH Hg) as (g' & Hg' & Hx'). exists g'.
      split; [apply elem_of_cons; right; exact Hg' | exact Hx'].
Qed.

Lemma fingerprint_groups_keeps (entries : list entry)
    (groups : list (string * list nat)) (f : string) (x : nat) (g : list nat) :
  (f, g) ∈ groups -> x ∈ g ->
  exists g', (f, g') ∈ foldl (fun groups '(i, fingerprint, _) =>
                                group_append groups fingerprint i)
                             groups entries
             /\ x ∈ g'.
Proof.
  revert groups g. induction entries as [|[[i f0] job] entries IH];
    intros groups g Hg Hx; [exists g; split; assumption|].
  cbn [foldl].
  destruct (group_append_keeps groups f0 f i x g Hg Hx) as (g' & Hg' & Hx').
  exact (IH _ g' Hg' Hx').
Qed.

Lemma fingerprint_groups_member (entries : list entry)
    (groups : list (string * list nat)) (e : entry) :
  e ∈ entries ->
  exists g, (e.1.2, g) ∈ foldl (fun groups '(i, fingerprint, _) =>
                                  group_append groups fingerprint i)
                               groups entries
            /\ e.1.1 ∈ g.
Proof.
  revert groups. induction entries as [|[[i f] job] entries IH];
    intros groups He; [apply elem_of_nil in He; contradiction|].
  cbn [foldl]. apply elem_of_cons in He as [->|He]; [|apply IH; exact He].
  simpl. destruct (group_append_member groups f i) as (g & Hg & Hi).
  exact (fingerprint_groups_keeps entries _ f i g Hg Hi).
Qed.

Lemma key_determines_group (groups : list (string * list nat)) (f : string)
    (g g' : list nat) :
  NoDup (fst <$> groups) -> (f, g) ∈ groups -> (f, g') ∈ groups -> g = g'.
Proof.
  induction groups as [|[f0 g0] rest IH]; intros Hnd Hg Hg';
    [apply elem_of_nil in Hg; contradiction|].
  rewrite fmap_cons in Hnd. apply NoDup_cons in Hnd as [Hf0 Hnd]. simpl in Hf0.
  assert (Hkey : forall h, (f0, h) ∈ rest -> False).
  { intros h Hh. apply Hf0. apply list_elem_of_fmap. exists (f0, h).
    split; [reflexivity | exact Hh]. }
  apply elem_of_cons in Hg as [Hg|Hg]; apply elem_of_cons in Hg' as [Hg'|Hg'].
  - congruence.
  - injection Hg as -> ->. destruct (Hkey _ Hg').
  - injection Hg' as -> ->. destruct (Hkey _ Hg).
  - exact (IH Hnd Hg Hg').
Qed.

Lemma elem_of_concat_groups (groups : list (list nat)) (g : list nat) (x : nat) :
  g ∈ groups -> x ∈ g -> x ∈ concat groups.
Proof.
  intros Hg Hx. induction groups as [|g0 rest IH];
    [apply elem_of_nil in Hg; contradiction|].
  simpl. apply elem_of_app. apply elem_of_cons in Hg as [->|Hg]; auto.
Qed.

Lemma job_fingerprints_lookup (jobs : list Job) (i : nat) (job : Job) :
  jobs !! i = Some job ->
  (i, _generate_fingerprint job, job) ∈ job_fingerprints jobs.
Proof.
  intros Hjob. unfold job_fingerprints.
  exact (elem_of_lookup_imap_2
           (fun i job => (i, _generate_fingerprint job, job)) jobs job i Hjob).
Qed.

Lemma shared_key_group (entries : list entry) (x y : nat) (a b : Job)
    (f : string) :
  (x, f, a) ∈ entries -> (y, f, b) ∈ entries ->
  exists g, (f, g) ∈ fingerprint_groups entries /\ x ∈ g /\ y ∈ g.
Proof.
  intros Hea Heb. unfold fingerprint_groups.
  assert (Hnd : NoDup (fst <$> foldl (fun groups '(i, fingerprint, _) =>
                                        group_append groups fingerprint i)
                                     [] entries)).
  { apply fingerprint_groups_keys_nodup. constructor. }
  destruct (fingerprint_groups_member _ [] _ Hea) as (g & Hg & Hx).
  destruct (fingerprint_groups_member _ [] _ Heb) as (g' & Hg' & Hy).
  cbn [fst snd] in Hg, Hx, Hg', Hy.
  pose proof (key_determines_group _ _ _ _ Hnd Hg Hg') as <-.
  exists g. split; [exact Hg | split; assumption].
Qed.

Lemma two_members_kept (groups : list (string * list nat)) (x y : nat)
    (f : string) (g : list nat) :
  (f, g) ∈ groups -> x ∈ g -> y ∈ g -> x <> y ->
  g ∈ filter (fun group : list nat => (1 < length group)%nat) (snd <$> groups).
Proof.
  intros Hg Hx Hy Hne. apply list_elem_of_filter. split.
  - destruct g as [|u [|v g]];
      [apply elem_of_nil in Hx; contradiction| |cbn [length]; lia].
    apply list_elem_of_singleton in Hx. apply list_elem_of_singleton in Hy.
    congruence.
  - apply list_elem_of_fmap. exists (f, g). split; [reflexivity | exact Hg].
Qed.

(** Two listings with one fingerprint lie in one exact group. *)
Lemma same_fingerprint_same_group (jobs : list Job) (x y : nat) (a b : Job) :
  jobs !! x = Some a -> jobs !! y = Some b -> x <> y ->
  _generate_fingerprint a = _generate_fingerprint b ->
  exists g, g ∈ _find_exact_duplicates (job_fingerprints jobs)
            /\ x ∈ g /\ y ∈ g.
Proof.
  intros Ha Hb Hne Hfp.
  pose proof (job_fingerprints_lookup jobs x a Ha) as Hea.
  pose proof (job_fingerprints_lookup jobs y b Hb) as Heb.
  rewrite <- Hfp in Heb.
  destruct (shared_key_group _ _ _ _ _ _ Hea Heb) as (g & Hg & Hx & Hy).
  exists g. split; [|split; assumption].
  exact (two_members_kept _ x y _ g Hg Hx Hy Hne).
Qed.

(** Every exact group is made of listings with one fingerprint. *)
Lemma exact_duplicates_keyed (jobs : list Job) :
  Forall (exact_group jobs) (_find_exact_duplicates (job_fingerprints jobs)).
Proof.
  apply Forall_forall. intros g Hg. unfold _find_exact_duplicates in Hg.
  apply list_elem_of_filter in Hg as [Hlen Hg].
  apply list_elem_of_fmap in Hg as ([f g'] & -> & Hg). cbn [snd] in *.
  split; [exact Hlen|]. exists f.
  pose proof (fingerprint_groups_keyed
                (fun i f => exists job, jobs !! i = Some job
                                        /\ _generate_fingerprint job = f)
                (job_fingerprints jobs) []) as Hall.
  assert (Hkeyed : Forall (fun fg : string * list nat =>
                             forall x, x ∈ fg.2 ->
                               exists job, jobs !! x = Some job
                                           /\ _generate_fingerprint job = fg.1)
                          (fingerprint_groups (job_fingerprints jobs))).
  { unfold fingerprint_groups. apply Hall; [constructor|].
    apply Forall_forall. intros e He.
    destruct (job_fingerprints_elem jobs e He) as [Hjob Hfp].
    exists e.2. split; [exact Hjob | symmetry; exact Hfp]. }
  exact (proj1 (Forall_forall _ _) Hkeyed (f, g') Hg).
Qed.

(** What the loop over [j] adds reached the threshold. *)
Lemma fuzzy_inner_similar (self : JobDeduplicator) (current_job : Job)
    (others : list entry) (processed : gset nat) (group : list nat)
    (checks : nat) (x : nat) :
  x ∈ (fuzzy_inner self current_job others processed group checks).1.2 ->
  x ∈ group
  \/ exists e, e ∈ others /\ e.1.1 = x
               /\ Qgeb (_calculate_similarity current_job e.2)
                       (similarity_threshold self) = true.
Proof.
  revert processed group checks.
  induction others as [|[[j f] other_job] rest IH];
    intros processed group checks Hx; [left; exact Hx|].
  cbn [fuzzy_inner] in Hx.
  assert (Hrest : forall e : entry,
             e ∈ rest -> e ∈ (j, f, other_job) :: rest).
  { intros e He. apply elem_of_cons. right. exact He. }
  destruct (bool_decide (j ∈ processed)).
  { destruct (IH _ _ _ Hx) as [H|(e & He & Heq & Hsim)]; [left; exact H|].
    right. exists e. auto. }
  destruct (Qgeb (_calculate_similarity current_job other_job)
                 (similarity_threshold self)) eqn:Hsim.
  - destruct (IH _ _ _ Hx) as [H|(e & He & Heq & Hsim')].
    + apply elem_of_app in H as [H|H]; [left; exact H|].
      apply list_elem_of_singleton in H as ->. right.
      exists (j, f, other_job).
      split; [apply elem_of_cons; left; reflexivity|].
      split; [reflexivity | exact Hsim].
    + right. exists e. auto.
  - destruct (IH _ _ _ Hx) as [H|(e & He & Heq & Hsim')]; [left; exact H|].
    right. exists e. auto.
Qed.

(** Every group of the fuzzy pass is a star around its first member. *)
Lemma fuzzy_outer_star (self : JobDeduplicator) (jobs : list Job)
    (entries : list entry) (st : fuzzy_state) :
  Forall (fun e : entry => jobs !! e.1.1 = Some e.2) entries ->
  StronglySorted lt (indices entries) ->
  Forall (star_group self jobs) (fuzzy_groups st) ->
  Forall (star_group self jobs) (fuzzy_groups (fuzzy_outer self entries st)).
Proof.
  revert st. induction entries as [|[[i f] current_job] rest IH];
    intros st Hjobs Hsorted Hstars; [exact Hstars|].
  apply Forall_cons in Hjobs as [Hi Hjobs]. simpl in Hi.
  unfold indices in Hsorted. rewrite fmap_cons in Hsorted. simpl in Hsorted.
  apply StronglySorted_inv in Hsorted as [Hsorted Hlater].
  cbn [fuzzy_outer].
  destruct (bool_decide (i ∈ processed_indices st)); [apply IH; assumption|].
  destruct (fuzzy_inner_spec self current_job rest (processed_indices st) [i]
              (similarity_checks st))
    as (added & processed' & checks' & Heq & _ & _ & Hadded).
  pose proof (fuzzy_inner_similar self current_job rest (processed_indices st)
                [i] (similarity_checks st)) as Hsim.
  rewrite Heq in Hsim |- *. cbn [fst snd] in Hsim.
  destruct (1 <? length ([i] ++ added))%nat eqn:Hlen;
    [|apply IH; assumption].
  apply IH; [exact Hjobs | exact Hsorted |]. cbn [fuzzy_groups].
  apply Forall_app. split; [exact Hstars|]. constructor; [|constructor].
  exists i, added, current_job. split; [reflexivity|].
  split.
  { intros ->. apply Nat.ltb_lt in Hlen. simpl in Hlen. lia. }
  split; [exact Hi|].
  intros j Hj.
  assert (Hij : (i < j)%nat).
  { destruct (Hadded j Hj) as [Hin _].
    exact (proj1 (Forall_forall _ _) Hlater j Hin). }
  split; [exact Hij|].
  destruct (Hsim j) as [H|(e & He & Heq' & Hthr)].
  - apply elem_of_app. right. exact Hj.
  - apply list_elem_of_singleton in H. lia.
  - exists e.2. split; [|exact Hthr]. rewrite <- Heq'.
    exact (proj1 (Forall_forall _ _) Hjobs e He).
Qed.

Lemma fuzzy_duplicates_star (self : JobDeduplicator) (jobs : list Job)
    (exact : list (list nat)) :
  Forall (star_group self jobs)
         (fuzzy_groups (_find_fuzzy_duplicates self (job_fingerprints jobs) exact)).
Proof.
  unfold _find_fuzzy_duplicates. apply fuzzy_outer_star.
  - apply Forall_forall. intros e He. apply (job_fingerprints_elem jobs e He).
  - rewrite indices_job_fingerprints. apply strongly_sorted_seq.
  - constructor.
Qed.

(** One member of a group is picked. *)
Lemma one_best_per_group (bests : list nat) (groups : list (list nat))
    (g : list nat) (x y : nat) :
  Forall2 (fun b g => b ∈ g) bests groups ->
  NoDup (concat groups) ->
  g ∈ groups -> x ∈ g -> y ∈ g -> x ∈ bests -> y ∈ bests -> x = y.
Proof.
  intros Hall. revert g x y.
  induction Hall as [|b0 g0 bests groups Hb0 Hall IH];
    intros g x y Hnd Hg Hx Hy Hbx Hby;
    [apply elem_of_nil in Hg; contradiction|].
  simpl in Hnd. apply NoDup_app in Hnd as (_ & Hdisj & Hnd).
  destruct (bests_nodup bests groups Hall Hnd) as [_ Hin].
  assert (Hhead : forall z, z ∈ g0 -> z ∈ b0 :: bests -> z = b0).
  { intros z Hz Hbz. apply elem_of_cons in Hbz as [->|Hbz]; [reflexivity|].
    destruct (Hdisj z Hz (Hin z Hbz)). }
  assert (Htail : forall z, z ∈ concat groups -> z ∈ b0 :: bests -> z ∈ bests).
  { intros z Hz Hbz. apply elem_of_cons in Hbz as [->|Hbz]; [|exact Hbz].
    destruct (Hdisj b0 Hb0 Hz). }
  apply elem_of_cons in Hg as [->|Hg].
  - rewrite (Hhead x Hx Hbx), (Hhead y Hy Hby). reflexivity.
  - apply (IH g x y Hnd Hg Hx Hy).
    + apply Htail; [exact (elem_of_concat_groups _ _ _ Hg Hx) | exact Hbx].
    + apply Htail; [exact (elem_of_concat_groups _ _ _ Hg Hy) | exact Hby].
Qed.

Lemma picked_listing (jobs : list Job) (picked : list nat) (unique : list Job)
    (i : nat) :
  Forall2 (fun i x => jobs !! i = Some x) picked unique ->
  i ∈ picked -> exists x, jobs !! i = Some x /\ x ∈ unique.
Proof.
  induction 1 as [|j x picked unique Hj Hall IH]; intros Hi;
    [apply elem_of_nil in Hi; contradiction|].
  apply elem_of_cons in Hi as [->|Hi].
  - exists x. split; [exact Hj | apply elem_of_cons; left; reflexivity].
  - destruct (IH Hi) as (y & Hy & Hin). exists y.
    split; [exact Hy | apply elem_of_cons; right; exact Hin].
Qed.

Lemma picked_fingerprints (jobs : list Job) (picked : list nat)
    (unique : list Job) :
  Forall2 (fun i x => jobs !! i = Some x) picked unique ->
  NoDup picked ->
  (forall x y a b, x ∈ picked -> y ∈ picked ->
                   jobs !! x = Some a -> jobs !! y = Some b ->
                   _generate_fingerprint a = _generate_fingerprint b -> x = y) ->
  NoDup (_generate_fingerprint <$> unique).
Proof.
  induction 1 as [|i x picked unique Hi Hall IH]; intros Hnd Hinj;
    [constructor|].
  apply NoDup_cons in Hnd as [Hnot Hnd]. rewrite fmap_cons.
  apply NoDup_cons. split.
  - intros Hin. apply list_elem_of_fmap in Hin as (y & Hfp & Hy).
    assert (Hj : exists j, j ∈ picked /\ jobs !! j = Some y).
    { clear -Hall Hy. induction Hall as [|j z picked unique Hj Hall IH];
        [apply elem_of_nil in Hy; contradiction|].
      apply elem_of_cons in Hy as [->|Hy].
      - exists j. split; [apply elem_of_cons; left; reflexivity | exact Hj].
      - destruct (IH Hy) as (k & Hk & Hlook). exists k.
        split; [apply elem_of_cons; right; exact Hk | exact Hlook]. }
    destruct Hj as (j & Hj & Hlook).
    assert (i = j).
    { apply (Hinj i j x y); [apply elem_of_cons; left; reflexivity
                            |apply elem_of_cons; right; exact Hj
                            |exact Hi | exact Hlook | exact Hfp]. }
    subst j. contradiction.
  - apply IH; [exact Hnd|]. intros u v a b Hu Hv. apply Hinj.
    + apply elem_of_cons. right. exact Hu.
    + apply elem_of_cons. right. exact Hv.
Qed.

Lemma Forall2_impl_elem {A B} (P Q : A -> B -> Prop) (l : list A) (k : list B) :
  Forall2 P l k ->
  (forall x y, x ∈ l -> y ∈ k -> P x y -> Q x y) ->
  Forall2 Q l k.
Proof.
  induction 1 as [|x y l k Hxy Hall IH]; intros Himpl; [constructor|].
  constructor.
  - apply Himpl; [apply elem_of_cons; left; reflexivity
                 |apply elem_of_cons; left; reflexivity | exact Hxy].
  - apply IH. intros u v Hu Hv.
    apply Himpl; apply elem_of_cons; right; assumption.
Qed.

Lemma deduplicate_stats_stored (self : JobDeduplicator) (jobs : list Job)
    (r : DeduplicationResult) :
  snd (deduplicate_jobs self jobs) = Returned r ->
  result_stats r = deduplication_stats (fst (deduplicate_jobs self jobs))
  /\ (jobs <> [] ->
      stat_total_jobs (result_stats r) = length jobs
      /\ stat_unique_jobs (result_stats r) = length (unique_jobs r)
      /\ stat_duplicates_removed (result_stats r) = duplicates_removed r
      /\ stat_duplicate_groups (result_stats r) = length (duplicate_groups r)).
Proof.
  unfold deduplicate_jobs. destruct jobs as [|job jobs].
  - cbn. intros H. injection H as <-. split; [reflexivity|]. congruence.
  - cbv zeta. destruct (_select_best_jobs _ _) as [unique|e];
      cbn [fst snd]; [|discriminate].
    intros H. injection H as <-. cbn. repeat split; reflexivity.
Qed.

(** The lengths of the groups of a partition add up. *)
Lemma length_concat_groups (groups : list (list nat)) :
  Forall (fun g => (1 < length g)%nat) groups ->
  length (concat groups)
  = (sum_list ((fun g => length g - 1) <$> groups) + length groups)%nat.
Proof.
  induction 1 as [|g groups Hg Hall IH]; [reflexivity|].
  assert (Hsum : forall x l, sum_list (x :: l) = (x + sum_list l)%nat)
    by reflexivity.
  rewrite fmap_cons, Hsum. cbn [concat length]. rewrite length_app, IH. lia.
Qed.

Lemma quality_score_le_1 (job : Job) : _calculate_job_quality_score job <= 1.
Proof.
  unfold _calculate_job_quality_score.
  assert (Hc : inject_Z (Z.of_nat (length (filter (fun f => present job f = true)
                                             quality_fields)))
               / inject_Z (Z.of_nat (length quality_fields)) <= 1).
  { apply Qdiv_le_1; [|reflexivity]. rewrite <- Zle_Qle.
    apply Nat2Z.inj_le. apply length_filter. }
  cbv zeta. revert Hc.
  generalize (inject_Z (Z.of_nat (length (filter (fun f => present job f = true)
                                            quality_fields)))
              / inject_Z (Z.of_nat (length quality_fields))).
  intros c Hc.
  destruct (10 <? _)%nat; destruct (50 <? _)%nat;
    destruct (present job "url"); destruct (present job "salary"); lra.
Qed.

End GroupShapeFacts.

(** X18: of every duplicate group a run keeps exactly one member; no member
    of the group before it is the same listing, and no member has a
    selection score higher than its by more than the rounding slack; the
    listings returned are those at the picked indices. *)
Theorem duplicate_group_keeps_one_best (self : JobDeduplicator)
    (jobs : list Job) :
  exists r bests picked,
    snd (Dedup.deduplicate_jobs self jobs) = Returned r
    /\ Forall2 (fun i x => jobs !! i = Some x) picked (unique_jobs r)
    /\ Forall2 (fun b g =>
                  kept_of jobs b g
                  /\ forall x, x ∈ g -> (x ∈ picked <-> x = b))
               bests (duplicate_groups r).
Proof.
  destruct (deduplicate_jobs_picked self jobs)
    as (r & bests & picked & Hr & Hgroups & Hbests & _ & Hpicked & Hlook).
  exists r, bests, picked. split; [exact Hr|]. split; [exact Hlook|].
  destruct (duplicate_groups_spec self jobs) as (Hnd & _ & _).
  cbv zeta in Hnd. rewrite <- Hgroups in Hnd.
  pose proof (bests_in_groups _ _ _ Hbests) as Hin.
  apply (Forall2_impl_elem _ _ _ _ Hbests). intros b g Hb Hg Hbest.
  split; [apply best_in_kept; exact Hbest|]. intros x Hx. split.
  - intros Hp. apply Hpicked in Hp as [Hp|[_ Hp]].
    + apply (one_best_per_group bests (duplicate_groups r) g x b Hin Hnd Hg Hx);
        [apply (best_in_elem jobs); exact Hbest | exact Hp | exact Hb].
    + destruct (Hp (elem_of_concat_groups _ _ _ Hg Hx)).
  - intros ->. apply Hpicked. left. exact Hb.
Qed.

(** X19: the numbers a run reports add up: the listings returned and the
    duplicates removed make up the input, every group accounts for one
    removal less than it has members, a run on a non-empty input returns a
    non-empty list, and the statistics returned are the ones stored. *)
Theorem deduplicate_accounting (self : JobDeduplicator) (jobs : list Job) :
  exists r,
    snd (Dedup.deduplicate_jobs self jobs) = Returned r
    /\ (length (unique_jobs r) + duplicates_removed r = length jobs)%nat
    /\ duplicates_removed r
       = sum_list ((fun g => length g - 1)%nat <$> duplicate_groups r)
    /\ (jobs <> [] -> unique_jobs r <> [])
    /\ result_stats r
       = deduplication_stats (fst (Dedup.deduplicate_jobs self jobs))
    /\ (jobs <> [] ->
        stat_total_jobs (result_stats r) = length jobs
        /\ stat_unique_jobs (result_stats r) = length (unique_jobs r)
        /\ stat_duplicates_removed (result_stats r) = duplicates_removed r
        /\ stat_duplicate_groups (result_stats r)
           = length (duplicate_groups r)).
Proof.
  destruct (deduplicate_jobs_spec self jobs)
    as (r & Hr & Hsub & Hnd & Hrange & Hlen & Hcount & Hremoved).
  exists r. split; [exact Hr|].
  pose proof (all_groups_partition (length jobs) (duplicate_groups r) Hnd Hrange)
    as Hperm.
  apply Permutation_length in Hperm. rewrite length_seq in Hperm.
  unfold all_groups in Hperm, Hcount.
  rewrite concat_app, length_app, concat_singletons in Hperm.
  rewrite length_app, length_fmap in Hcount.
  rewrite (length_concat_groups _ Hlen) in Hperm.
  destruct (deduplicate_stats_stored self jobs r Hr) as [Hstored Hstats].
  split; [lia|]. split; [lia|]. split; [|split; assumption].
  intros Hjobs Hunique. rewrite Hunique in Hcount. cbn [length] in Hcount.
  assert (Hg : duplicate_groups r = []).
  { destruct (duplicate_groups r); [reflexivity | cbn [length] in Hcount; lia]. }
  rewrite Hg, fmap_nil in Hperm. rewrite Hg in Hcount.
  change (sum_list []) with 0%nat in Hperm.
  destruct jobs; [congruence | cbn [length] in Hperm, Hcount; lia].
Qed.

(** X20: no two listings a run returns have one fingerprint. *)
Theorem returned_fingerprints_distinct (self : JobDeduplicator)
    (jobs : list Job) :
  exists r,
    snd (Dedup.deduplicate_jobs self jobs) = Returned r
    /\ NoDup (Dedup._generate_fingerprint <$> unique_jobs r).
Proof.
  destruct (deduplicate_jobs_picked self jobs)
    as (r & bests & picked & Hr & Hgroups & Hbests & Hpnd & Hpicked & Hlook).
  exists r. split; [exact Hr|].
  destruct (duplicate_groups_spec self jobs) as (Hnd & _ & _).
  cbv zeta in Hnd. rewrite <- Hgroups in Hnd.
  pose proof (bests_in_groups _ _ _ Hbests) as Hin.
  apply (picked_fingerprints jobs picked); [exact Hlook | exact Hpnd |].
  intros x y a b Hx Hy Ha Hb Hfp.
  destruct (decide (x = y)) as [Heq|Hne]; [exact Heq|].
  destruct (same_fingerprint_same_group jobs x y a b Ha Hb Hne Hfp)
    as (g & Hg & Hxg & Hyg).
  assert (Hg' : g ∈ duplicate_groups r).
  { rewrite Hgroups. apply elem_of_app. left. exact Hg. }
  assert (Hbest : forall z, z ∈ g -> z ∈ picked -> z ∈ bests).
  { intros z Hz Hp. apply Hpicked in Hp as [Hp|[_ Hp]]; [exact Hp|].
    destruct (Hp (elem_of_concat_groups _ _ _ Hg' Hz)). }
  apply (one_best_per_group bests (duplicate_groups r) g x y Hin Hnd Hg' Hxg Hyg);
    auto.
Qed.

(** X21: the duplicate groups of a run are its exact groups, each at least
    two listings with one fingerprint, followed by its fuzzy groups, each a
    listing and later listings that reach the similarity threshold with
    it. *)
Theorem duplicate_groups_shape (self : JobDeduplicator) (jobs : list Job) :
  exists r exact fuzzy,
    snd (Dedup.deduplicate_jobs self jobs) = Returned r
    /\ duplicate_groups r = (exact ++ fuzzy)%list
    /\ Forall (exact_group jobs) exact
    /\ Forall (star_group self jobs) fuzzy.
Proof.
  destruct (deduplicate_jobs_picked self jobs)
    as (r & _ & _ & Hr & Hgroups & _).
  exists r. eexists. eexists. split; [exact Hr|]. split; [exact Hgroups|].
  split; [apply exact_duplicates_keyed | apply fuzzy_duplicates_star].
Qed.

(** X22: the quality score of the deduplicator lies between 0 and 1, and
    the selection score exceeds it by the source bonus, between 0.2 and 1. *)
Theorem selection_score_range (job : Job) :
  0 <= Dedup._calculate_job_quality_score job <= 1
  /\ Dedup._calculate_job_quality_score job + 0.2
     <= Dedup.final_score job
     <= Dedup._calculate_job_quality_score job + 1.
Proof.
  split; [split; [apply quality_score_nonneg | apply quality_score_le_1]|].
  unfold Dedup.final_score. cbv zeta.
  assert (Hb : 0.2 <= 1.0 / inject_Z
                  (default 5%Z
                     (QueryAnalyzer.dict_get Dedup.source_priority
                        (before_first " (" (get job "source")))) <= 1).
  { set (s := before_first " (" (get job "source")).
    unfold Dedup.source_priority, QueryAnalyzer.dict_get.
    repeat (destruct (decide _);
            [split; vm_compute; intros H; discriminate H|]).
    split; vm_compute; intros H; discriminate H. }
  lra.
Qed.

(** ** Properties of the status report and of the enricher *)

Section EnricherFacts.

Import JobEnricher.

Lemma rstrip_idem (s : string) : rstrip (rstrip s) = rstrip s.
Proof.
  induction s as [|c s IH]; [reflexivity|].
  cbn [rstrip]. destruct (is_space c && String.eqb (rstrip s) "") eqn:E;
    [reflexivity|].
  cbn [rstrip]. rewrite IH, E. reflexivity.
Qed.

Lemma lstrip_head (s : string) :
  lstrip s = ""
  \/ exists c t, lstrip s = String c t /\ is_space c = false.
Proof.
  induction s as [|c s IH]; [left; reflexivity|].
  cbn [lstrip]. destruct (is_space c) eqn:E; [exact IH|].
  right. exists c, s. split; [reflexivity | exact E].
Qed.

Lemma strip_idem (s : string) : strip (strip s) = strip s.
Proof.
  unfold strip. destruct (lstrip_head s) as [->|(c & t & -> & Hc)];
    [reflexivity|].
  cbn [rstrip]. rewrite Hc. cbn [andb lstrip]. rewrite Hc.
  cbn [rstrip]. rewrite Hc. cbn [andb]. rewrite rstrip_idem. reflexivity.
Qed.

Lemma normalize_with_cases (rules : list (string * string)) (location : string) :
  normalize_with rules location = location
  \/ normalize_with rules location ∈ snd <$> rules.
Proof.
  induction rules as [|[key value] rules IH]; [left; reflexivity|].
  cbn [normalize_with].
  destruct (contains key (lower location) && negb (contains value location)).
  - right. rewrite fmap_cons. apply elem_of_cons. left. reflexivity.
  - destruct IH as [IH|IH]; [left; exact IH|].
    right. rewrite fmap_cons. apply elem_of_cons. right. exact IH.
Qed.

Lemma mentions_iff (patterns : list string) (text : string) :
  mentions patterns text
  <-> existsb (fun pattern => contains pattern text) patterns = true.
Proof.
  unfold mentions. rewrite existsb_exists.
  split; intros (p & Hp & Hc); exists p; (split; [|exact Hc]);
    apply list_elem_of_In; exact Hp.
Qed.

Lemma status_ext (self self' : IntelligentSourceRouter) :
  available_sources self' = available_sources self ->
  source_metrics (performance_tracker self')
  = source_metrics (performance_tracker self) ->
  get_source_status self' = get_source_status self.
Proof.
  intros Hcat Hmet. unfold get_source_status, Tracker.get_source_metrics.
  rewrite Hcat, Hmet. reflexivity.
Qed.

End EnricherFacts.

Ltac patterns_of_class :=
  repeat match goal with
    | |- context [patterns_of ?classes ?class] =>
        let l := eval vm_compute in (patterns_of classes class) in
        change (patterns_of classes class) with l
    end.

(** X23: on a router whose tracker has a window size above 0, the status
    report is the same after any sequence of recorded results: availability,
    success rate, response time, priority and request count of every source
    stay what they were. *)
Theorem status_report_ignores_results (self : IntelligentSourceRouter)
    (calls : list (string * RequestResult)) :
  (0 < history_size (performance_tracker self))%nat ->
  get_source_status (record_results self calls) = get_source_status self.
Proof.
  intros Hpos. destruct (record_results_inv calls self Hpos) as [Hcat Hmet].
  apply status_ext; assumption.
Qed.

(** After five failures the first source is still reported as available,
    with no request counted. *)
Lemma status_report_ignores_results_witness :
  get_source_status
    (record_results Router.init
       (replicate 5
          ("api_linkedin",
           {| timestamp := 0; success := false; response_time := 30;
              jobs_found := 0%Z |})))
  = get_source_status Router.init.
Proof.
  apply (status_report_ignores_results Router.init).
  simpl. lia.
Defined.

(** X24: normalising a location twice gives what normalising it once gives,
    except for a non-empty location made of whitespace only: that one
    becomes the empty string, which a second call turns into
    "Not specified". *)
Theorem normalize_location_idempotent_iff (location : string) :
  JobEnricher._normalize_location (JobEnricher._normalize_location location)
  = JobEnricher._normalize_location location
  <-> location = "" \/ strip location <> "".
Proof.
  split.
  - intros Hidem. destruct (String.eqb location "") eqn:E;
      [left; apply String.eqb_eq; exact E|].
    right. intros Hstrip. unfold JobEnricher._normalize_location in Hidem.
    rewrite E, Hstrip in Hidem. vm_compute in Hidem. discriminate Hidem.
  - intros [->|Hstrip]; [vm_compute; reflexivity|].
    assert (E : String.eqb location "" = false).
    { apply String.eqb_neq. intros ->. apply Hstrip. reflexivity. }
    unfold JobEnricher._normalize_location at 2 3. rewrite E.
    remember (strip location) as loc eqn:Hloc.
    destruct (normalize_with_cases JobEnricher.normalizations loc) as [Heq|Hin].
    + rewrite Heq. unfold JobEnricher._normalize_location.
      rewrite (proj2 (String.eqb_neq loc "") Hstrip).
      rewrite Hloc, strip_idem, <- Hloc. exact Heq.
    + remember (JobEnricher.normalize_with JobEnricher.normalizations loc)
        as r eqn:Hr. clear Hr.
      unfold JobEnricher.normalizations in Hin. rewrite !fmap_cons in Hin.
      cbn [snd] in Hin.
      repeat (apply elem_of_cons in Hin as [->|Hin];
              [vm_compute; reflexivity|]).
      apply elem_of_nil in Hin. contradiction.
Qed.

(** X25: the experience level is decided by the first class, in the order
    entry, mid, senior, one of whose patterns occurs in the lower-cased
    title, summary and requirements; an entry pattern wins over every
    other. *)
Theorem experience_level_precedence (job : Job) :
  let text := experience_text job in
  let classes := JobEnricher._initialize_experience_patterns in
  let entry := mentions (patterns_of classes "entry_level") text in
  let mid := mentions (patterns_of classes "mid_level") text in
  let senior := mentions (patterns_of classes "senior_level") text in
  let level := JobEnricher._determine_experience_level job in
  (level = "Entry Level" <-> entry)
  /\ (level = "Mid Level" <-> ~ entry /\ mid)
  /\ (level = "Senior Level" <-> ~ entry /\ ~ mid /\ senior)
  /\ (level = "Not specified" <-> ~ entry /\ ~ mid /\ ~ senior).
Proof.
  intros text classes entry mid senior level.
  subst entry mid senior level classes. rewrite !mentions_iff.
  patterns_of_class.
  change (JobEnricher._determine_experience_level job)
    with (JobEnricher.first_class JobEnricher._initialize_experience_patterns
            text).
  unfold JobEnricher._initialize_experience_patterns.
  cbn [JobEnricher.first_class].
  change (title (replace_char "_" " " "entry_level")) with "Entry Level".
  change (title (replace_char "_" " " "mid_level")) with "Mid Level".
  change (title (replace_char "_" " " "senior_level")) with "Senior Level".
  destruct (existsb _ _); destruct (existsb _ _); destruct (existsb _ _);
    repeat split; intros; try discriminate; try reflexivity;
    intuition (try discriminate; try congruence).
Qed.

(** X26: the job type is decided by the first class, in the order full
    time, part time, remote, internship, one of whose patterns occurs in
    the lower-cased title and summary. *)
Theorem job_type_precedence (job : Job) :
  let text := job_type_text job in
  let classes := JobEnricher._initialize_job_type_patterns in
  let full := mentions (patterns_of classes "full_time") text in
  let part := mentions (patterns_of classes "part_time") text in
  let remote := mentions (patterns_of classes "remote") text in
  let internship := mentions (patterns_of classes "internship") text in
  let type := JobEnricher._determine_job_type job in
  (type = "Full Time" <-> full)
  /\ (type = "Part Time" <-> ~ full /\ part)
  /\ (type = "Remote" <-> ~ full /\ ~ part /\ remote)
  /\ (type = "Internship" <-> ~ full /\ ~ part /\ ~ remote /\ internship)
  /\ (type = "Not specified"
      <-> ~ full /\ ~ part /\ ~ remote /\ ~ internship).
Proof.
  intros text classes full part remote internship type.
  subst full part remote internship type classes. rewrite !mentions_iff.
  patterns_of_class.
  change (JobEnricher._determine_job_type job)
    with (JobEnricher.first_class JobEnricher._initialize_job_type_patterns
            text).
  unfold JobEnricher._initialize_job_type_patterns.
  cbn [JobEnricher.first_class].
  change (title (replace_char "_" " " "full_time")) with "Full Time".
  change (title (replace_char "_" " " "part_time")) with "Part Time".
  change (title (replace_char "_" " " "remote")) with "Remote".
  change (title (replace_char "_" " " "internship")) with "Internship".
  destruct (existsb _ _); destruct (existsb _ _); destruct (existsb _ _);
    destruct (existsb _ _);
    repeat split; intros; try discriminate; try reflexivity;
    intuition (try discriminate; try congruence).
Qed.
